(** * LipVibe AI: the audio core of the browser editor

    A shallow embedding of the signal-processing code of the two React
    components [LipsyncGenerator] (envelope analysis, mouth-shape
    classification and smoothing) and [VoiceChanger] (effects graph and
    WAV encoder), with the properties the specification states about them.

    Around that core the file follows the code outwards: the handlers that
    drive it ([handleVoiceChange], [handleLipsyncGeneration]), the mouth
    preview and its animation, the clock of the players, the upload (the
    browser side and the route that answers it) and the five steps of the
    page, each with properties read off the code.

    Numbers.  A JavaScript number that holds a finite value is modelled by
    the rational it denotes ([Q]), with exact arithmetic and comparisons:
    the rounding of the binary64 operations is left out (NaN and the
    infinities have no counterpart).  The classifier is the exception:
    its bands are a matter of the last bit of a product, and module
    [Doubles] has it on binary64 itself.  Sizes and indices are [nat]; the
    integers that go through a [DataView] are [Z], wrapped to the width of
    the field they are stored in. *)

From Corelib Require PrimFloat FloatOps FloatAxioms SpecFloat.
From Stdlib Require Import ZArith QArith Qround Qabs Qminmax Lia Lqa List String.
From stdpp Require Import base list strings pretty.

(** ** The Web Audio [AudioBuffer] interface

    [getChannelData(c)] is a [Float32Array] of exactly [length] samples for
    every [c < numberOfChannels]; the record keeps the accessor and the three
    read-only attributes, so every value of the type is a well-formed buffer.

    A [Float32Array] is its length and its entries as a function of the
    index.  Only the entries below [f32_length] are entries of the array
    (a read beyond them is [undefined] in JavaScript).  A store rounds to
    binary32; like the rounding of binary64 it is left out. *)

Record Float32Array := {
  f32_length : nat;
  f32_at : nat → Q
}.

Module AudioBuffer.
Record t := {
  numberOfChannels : nat;
  length : nat;
  sampleRate : Z;
  samples : nat → nat → Q
}.

Definition getChannelData (buffer : t) (channel : nat) : Float32Array :=
  {| f32_length := length buffer; f32_at := samples buffer channel |}.
End AudioBuffer.

(** [a < b] on finite numbers. *)
Definition Qltb (a b : Q) : bool := negb (Qle_bool b a).

(** A [for (i = lo; i < hi; i++)] loop whose body may throw. *)
Fixpoint forEach {S : Type} (indices : list nat) (body : nat → S → option S)
    (s : S) : option S :=
  match indices with
  | [] => Some s
  | i :: rest => s' ← body i s; forEach rest body s'
  end.

Definition range (lo hi : nat) : list nat := seq lo (hi - lo).

(** ** Lipsync: envelope, classification, smoothing *)

Module Lipsync.

Record Settings := {
  quality : string;
  smoothing : bool;
  amplitudeThreshold : Q;
  mouthScale : Q
}.

(** The component's initial state. *)
Definition defaultSettings : Settings :=
  {| quality := "enhanced"; smoothing := true;
     amplitudeThreshold := 0.1; mouthScale := 1.0 |}.

(** *** [analyzeAudio] *)

(** The inner loop: [for (j = i; j < end; j++) sum += Math.abs(channelData[j])]. *)
Definition sumAbs (channelData : Float32Array) (i end_ : nat) : Q :=
  foldl (λ sum j, (sum + Qabs (f32_at channelData j))%Q) 0%Q (range i end_).

(** The outer loop [for (i = 0; i < channelData.length; i += frameSize)].
    Its step is [frameSize], which is 0 when [sampleRate < 30]: the loop then
    never leaves [i = 0] and pushes one more amplitude at every turn, until
    [amplitudes.push] throws the [RangeError] of an array that is full.
    [fuel] bounds the number of iterations; [None] is that exception: the
    bound is reached only by a loop that does not advance (lemmas
    [analyzeLoop_run] and [analyzeLoop_stuck] below). *)
Fixpoint analyzeLoop (fuel : nat) (channelData : Float32Array) (frameSize i : nat)
    (amplitudes : list Q) : option (list Q) :=
  match fuel with
  | O => None
  | S fuel' =>
      if decide (i < f32_length channelData) then
        let end_ := Nat.min (i + frameSize) (f32_length channelData) in
        let sum := sumAbs channelData i end_ in
        let amplitude := (sum / inject_Z (Z.of_nat (end_ - i)))%Q in
        analyzeLoop fuel' channelData frameSize (i + frameSize)
          (amplitudes ++ [amplitude])
      else Some amplitudes
  end.

(** [Math.floor(sampleRate / 30)] *)
Definition frameSizeOf (audioBuffer : AudioBuffer.t) : nat :=
  Z.to_nat (AudioBuffer.sampleRate audioBuffer / 30).

(** One more iteration than there are samples is enough whenever the step is
    positive (lemma [analyzeLoop_run] below).  [None]: the call throws, which
    takes a buffer with samples and a sample rate below 30 Hz;
    [decodeAudioData] hands over buffers at the rate of the audio context,
    thousands of hertz. *)
Definition analyzeAudio (audioBuffer : AudioBuffer.t) : option (list Q) :=
  let channelData := AudioBuffer.getChannelData audioBuffer 0 in
  let frameSize := frameSizeOf audioBuffer in
  analyzeLoop (S (f32_length channelData)) channelData frameSize 0 [].

(** *** [generateMouthShapes] *)

(** The classifier on the rationals the numbers denote.  The three products
    are exact here; binary64 rounds them, and module [Doubles] below has
    the classifier with that rounding. *)
Definition mouthShapeOf (settings : Settings) (amplitude : Q) : string :=
  if Qltb amplitude (amplitudeThreshold settings * 0.3) then "closed"
  else if Qltb amplitude (amplitudeThreshold settings * 0.6) then "slightly-open"
  else if Qltb amplitude (amplitudeThreshold settings * 0.8) then "open"
  else "wide-open".

Definition generateMouthShapes (settings : Settings) (amplitudes : list Q)
    : list string :=
  map (mouthShapeOf settings) amplitudes.

(** *** [smoothMouthShapes] *)

Section Smoothing.
Context {A : Type} `{EqDecision A}.

(** [arr.filter(v => v === a).length] *)
Definition occurrences (arr : list A) (a : A) : nat :=
  length (filter (λ v, v = a) arr).

(** The reducer [(a, b, _, arr) => count(a) >= count(b) ? a : b]. *)
Definition moreCommon (arr : list A) (a b : A) : A :=
  if decide (occurrences arr b ≤ occurrences arr a) then a else b.

(** [Array.prototype.reduce] without an initial value: a [TypeError] on an
    empty array, otherwise a left fold seeded with the first element. *)
Definition reduce (f : A → A → A) (arr : list A) : option A :=
  match arr with
  | [] => None
  | a :: rest => Some (foldl f a rest)
  end.

(** [arr.slice(start, end)] for [0 <= start]. *)
Definition slice (arr : list A) (start end_ : nat) : list A :=
  take (end_ - start) (drop start arr).

Definition windowSize : nat := 3.

(** One iteration of the loop: the window is cut from [shapes], the
    original array; the write goes to [smoothed], the copy. *)
Definition smoothStep (shapes : list A) (i : nat) (smoothed : list A)
    : option (list A) :=
  let window := slice shapes (i - windowSize) (i + windowSize + 1) in
  mostCommon ← reduce (moreCommon window) window;
  Some (<[i := mostCommon]> smoothed).

(** The bound [shapes.length - windowSize] is negative for fewer than three
    frames; the loop, which starts at 3, then does not run, as with the 0 of
    the subtraction on [nat]. *)
Definition smoothMouthShapes (settings : Settings) (shapes : list A)
    : option (list A) :=
  if negb (smoothing settings) then Some shapes
  else
    let smoothed := shapes in
    forEach (range windowSize (length shapes - windowSize))
      (smoothStep shapes) smoothed.
End Smoothing.

(** *** What the specification says, in its own words *)

(** The sum of a sequence of numbers. *)
Definition Qsum (l : list Q) : Q := foldr Qplus 0%Q l.

(** Mean absolute amplitude of the samples [lo <= j < hi]. *)
Definition meanAbs (data : nat → Q) (lo hi : nat) : Q :=
  (Qsum (map (λ j, Qabs (data j)) (seq lo (hi - lo)))
   / inject_Z (Z.of_nat (hi - lo)))%Q.

(** [ceil(n / d)] *)
Definition ceilDiv (n d : nat) : nat := (n + d - 1) / d.

(** The envelope of [data] (of [len] samples) over consecutive windows of
    [w] samples, the last one cut at [len]. *)
Definition envelope (data : nat → Q) (len w : nat) : list Q :=
  map (λ k, meanAbs data (k * w) (Nat.min ((k + 1) * w) len))
      (seq 0 (ceilDiv len w)).

(** The amplitudes the loop of [analyzeAudio] pushes from sample [i] on, one
    per window, as the loop computes them. *)
Definition pushedFrom (data : Float32Array) (w i : nat) : list Q :=
  map (λ k, let s := i + k * w in
            let e := Nat.min (s + w) (f32_length data) in
            (sumAbs data s e / inject_Z (Z.of_nat (e - s)))%Q)
      (seq 0 (ceilDiv (f32_length data - i) w)).

Section SmoothingSpec.
Context {A : Type} `{EqDecision A}.

(** The inclusive window [[i - r, i + r]] of [l]. *)
Definition windowAround (r : nat) (l : list A) (i : nat) : list A :=
  take (2 * r + 1) (drop (i - r) l).

(** How often the label [x] occurs in [w]: the frequency the specification
    speaks of, counted without the code's filter. *)
Fixpoint countOf (x : A) (w : list A) : nat :=
  match w with
  | [] => 0
  | y :: rest => (if decide (y = x) then 1 else 0) + countOf x rest
  end.

(** [x] is the most frequent label of [w]; among the labels of that
    frequency it is the one met first when [w] is scanned from the left. *)
Definition FirstMostFrequent (w : list A) (x : A) : Prop :=
  ∃ k, w !! k = Some x
     ∧ (∀ y, countOf y w ≤ countOf x w)
     ∧ (∀ j y, j < k → w !! j = Some y → countOf y w < countOf x w).

(** The invariant of the reduction, relative to the part [seen] of the
    window already scanned: the accumulator heads the frequencies of
    everything seen, and what was seen before it is strictly less
    frequent. *)
Definition BestSoFar (w seen : list A) (x : A) : Prop :=
  ∃ k, seen !! k = Some x
     ∧ (∀ y, y ∈ seen → occurrences w y ≤ occurrences w x)
     ∧ (∀ j y, j < k → seen !! j = Some y → occurrences w y < occurrences w x).

(** The value the loop writes at index [i]. *)
Definition majorityAt (shapes : list A) (i : nat) : option A :=
  let window := slice shapes (i - windowSize) (i + windowSize + 1) in
  reduce (moreCommon window) window.
End SmoothingSpec.

(** Scenario B of the specification. *)
Definition scenarioB_envelope : list Q := [0.05; 0.05; 0.4; 0.4; 0.4; 0.05; 0.05]%Q.

Definition scenarioB_settings : Settings :=
  {| quality := "enhanced"; smoothing := false;
     amplitudeThreshold := 0.1; mouthScale := 1.0 |}.

Definition scenarioB_shapes : list string :=
  ["slightly-open"; "slightly-open"; "wide-open"; "wide-open"; "wide-open";
   "slightly-open"; "slightly-open"].

(** Two tracks of nine frames that differ at the first and the last frame. *)
Definition trackS : list string :=
  ["open"; "closed"; "open"; "closed"; "open"; "open"; "closed"; "closed"; "open"].

Definition trackT : list string :=
  ["closed"; "closed"; "open"; "closed"; "open"; "open"; "closed"; "closed"; "wide-open"].

(** 600 samples of a square wave at 8 kHz: windows of
    [floor(8000 / 30) = 266] samples, the third one of 68. *)
Definition squareWave : AudioBuffer.t :=
  {| AudioBuffer.numberOfChannels := 1; AudioBuffer.length := 600;
     AudioBuffer.sampleRate := 8000;
     AudioBuffer.samples := λ _ i, if Nat.even i then 0.5%Q else (-0.5)%Q |}.

(** Seven samples at 90 Hz: windows of 3 samples, the third one of 1. *)
Definition sevenSamples : AudioBuffer.t :=
  {| AudioBuffer.numberOfChannels := 2; AudioBuffer.length := 7;
     AudioBuffer.sampleRate := 90;
     AudioBuffer.samples := λ channel i,
       match channel with
       | 0 => if Nat.even i then 0.5%Q else (-0.25)%Q
       | _ => 1%Q
       end |}.

(** A track whose only interior frame sees "open" and "closed" three times
    each, "open" first. *)
Definition tiedTrack : list string :=
  ["open"; "closed"; "open"; "closed"; "open"; "closed"; "wide-open"].

(** Five samples at 10 Hz: the analysis window is [floor(10 / 30) = 0].
    No browser decodes a file into such a buffer; it shows what the loop
    does with an empty window. *)
Definition slowBuffer : AudioBuffer.t :=
  {| AudioBuffer.numberOfChannels := 1; AudioBuffer.length := 5;
     AudioBuffer.sampleRate := 10;
     AudioBuffer.samples := λ _ _, 0.25%Q |}.

End Lipsync.

(** ** The classifier on binary64

    [generateMouthShapes] on the numbers JavaScript computes with: the
    threshold and the amplitudes are binary64 numbers ([float], with NaN and
    the infinities), and the products and comparisons are the operations of
    the processor, rounding included. *)

Module Doubles.
Import PrimFloat.

Set Warnings "-inexact-float".

Definition mouthShapeOfDouble (amplitudeThreshold amplitude : float) : string :=
  if ltb amplitude (mul amplitudeThreshold 0.3%float) then "closed"
  else if ltb amplitude (mul amplitudeThreshold 0.6%float) then "slightly-open"
  else if ltb amplitude (mul amplitudeThreshold 0.8%float) then "open"
  else "wide-open".

Definition generateMouthShapes (amplitudeThreshold : float) (amplitudes : list float)
    : list string :=
  map (mouthShapeOfDouble amplitudeThreshold) amplitudes.

(** *** What the specification says, in its own words *)

(** The four bands of the classifier, as the specification gives them:
    [a < 0.3 * threshold], [0.3 * threshold <= a < 0.6 * threshold],
    [0.6 * threshold <= a < 0.8 * threshold], and the rest; products and
    comparisons are those of binary64. *)
Definition InBand (threshold a : float) (shape : string) : Prop :=
  let t3 := mul 0.3%float threshold in
  let t6 := mul 0.6%float threshold in
  let t8 := mul 0.8%float threshold in
  (ltb a t3 = true → shape = "closed")
  ∧ (leb t3 a = true → ltb a t6 = true → shape = "slightly-open")
  ∧ (leb t6 a = true → ltb a t8 = true → shape = "open")
  ∧ (¬ ltb a t3 = true
     → ¬ (leb t3 a = true ∧ ltb a t6 = true)
     → ¬ (leb t6 a = true ∧ ltb a t8 = true)
     → shape = "wide-open").

Definition scenarioB_doubles : list float :=
  [0.05; 0.05; 0.4; 0.4; 0.4; 0.05; 0.05]%float.

Definition scenarioB_threshold : float := 0.1%float.

(** A threshold of 0.5 and one amplitude in each band; the first one is
    the mean [220.5 / 1470] of a window of 1470 samples. *)
Definition edgeThreshold : float := 0.5%float.

Definition edgeAmplitudes : list float :=
  [div 220.5 1470; 0.1; 0.35; 0.4]%float.

Set Warnings "+inexact-float".

(** *** The line of the binary64 numbers

    For the proofs: where a number that is not NaN lies, in units of
    [2^-1074], the least positive number; the infinities are put at
    [2^2098] and its opposite, beyond every finite number. *)
Definition units (x : SpecFloat.spec_float) : Z :=
  match x with
  | SpecFloat.S754_zero _ => 0
  | SpecFloat.S754_infinity s => if s then - 2 ^ 2098 else 2 ^ 2098
  | SpecFloat.S754_nan => 0
  | SpecFloat.S754_finite s m e =>
      if s then - (Z.pos m * 2 ^ (e + 1074)) else Z.pos m * 2 ^ (e + 1074)
  end%Z.

(** [M / 2^n] rounded to the nearest integer, to the even one of two that
    are equally near. *)
Definition nearestEven (M n : Z) : Z :=
  let q := (M / 2 ^ n)%Z in
  let rest := (M mod 2 ^ n)%Z in
  if (2 * rest <? 2 ^ n)%Z then q
  else if (2 * rest =? 2 ^ n)%Z then (if Z.even q then q else q + 1)%Z
  else (q + 1)%Z.

(** [M * 2^E] rounded to 53 bits: the mantissa and the exponent. *)
Definition rounded (M E : Z) : Z * Z :=
  let e := SpecFloat.fexp FloatOps.prec FloatOps.emax (SpecFloat.Zdigits2 M + E) in
  (nearestEven M (e - E), e).

(** Where the rounded number lies on the line; infinity past the largest
    finite number. *)
Definition magnitude (M E : Z) : Z :=
  Z.min ((rounded M E).1 * 2 ^ ((rounded M E).2 + 1074)) (2 ^ 2098).

Definition negative (x : SpecFloat.spec_float) : bool :=
  match x with
  | SpecFloat.S754_zero s | SpecFloat.S754_infinity s | SpecFloat.S754_finite s _ _ => s
  | SpecFloat.S754_nan => false
  end.

Definition isNaN (x : SpecFloat.spec_float) : bool :=
  match x with SpecFloat.S754_nan => true | _ => false end.

End Doubles.

(** ** [DataView] over an [ArrayBuffer] *)

Module DataView.

(** The bytes of the underlying buffer, each in [[0, 256)]. *)
Definition t := list Z.

(** [new ArrayBuffer(byteLength)]: zero-filled. *)
Definition ArrayBuffer (byteLength : nat) : t := replicate byteLength 0%Z.

(** The [width] low-order bytes of an integer, least significant first:
    what ToUint8, ToUint16, ToInt16 and ToUint32 keep of it (the value
    modulo [2^(8*width)], two's complement for a negative one). *)
Fixpoint littleEndianBytes (width : nat) (value : Z) : list Z :=
  match width with
  | O => []
  | S width' => (value mod 256)%Z :: littleEndianBytes width' (value / 256)
  end.

Definition bytesOf (width : nat) (value : Z) (littleEndian : bool) : list Z :=
  if littleEndian then littleEndianBytes width value
  else reverse (littleEndianBytes width value).

(** A store of [width] bytes at [byteOffset]; a [RangeError] ([None]) when
    it would run past the end of the view. *)
Definition set (width : nat) (view : t) (byteOffset : nat) (value : Z)
    (littleEndian : bool) : option t :=
  if decide (byteOffset + width ≤ length view) then
    Some (list_inserts byteOffset (bytesOf width value littleEndian) view)
  else None.

Definition setUint8 (view : t) (byteOffset : nat) (value : Z) : option t :=
  set 1 view byteOffset value true.

Definition setUint16 (view : t) (byteOffset : nat) (value : Z)
    (littleEndian : bool) : option t :=
  set 2 view byteOffset value littleEndian.

Definition setUint32 (view : t) (byteOffset : nat) (value : Z)
    (littleEndian : bool) : option t :=
  set 4 view byteOffset value littleEndian.

(** The integer part of a finite number, rounded towards zero: the first
    step of every integer conversion. *)
Definition truncate (value : Q) : Z :=
  if Qltb value 0 then Qceiling value else Qfloor value.

(** [setInt16] takes a number: it is truncated, then stored modulo 2^16. *)
Definition setInt16 (view : t) (byteOffset : nat) (value : Q)
    (littleEndian : bool) : option t :=
  set 2 view byteOffset (truncate value) littleEndian.

End DataView.

(** ** The WAV encoder of [VoiceChanger] *)

Module Blob.
Record t := { parts : list Z; type : string }.
End Blob.

Module Wav.

(** [string.charCodeAt(i)], [None] standing for the NaN of an index out
    of range. *)
Definition charCodeAt (s : string) (i : nat) : option Z :=
  (λ c, Z.of_nat (Ascii.nat_of_ascii c)) <$> String.get i s.

(** The local helper [writeString]; a NaN would be stored as 0. *)
Definition writeString (view : DataView.t) (offset : nat) (s : string)
    : option DataView.t :=
  forEach (range 0 (String.length s))
    (λ i view, DataView.setUint8 view (offset + i) (default 0%Z (charCodeAt s i)))
    view.

(** [Math.max(-1, Math.min(1, x))].  For a sample of a [Float32Array] the
    clamp and the product with [0x7FFF] that follows are exact in binary64
    (24 and 15 significant bits). *)
Definition clampSample (x : Q) : Q := Qmax (-1) (Qmin 1 x).

(** The body of the inner loop: one sample of one channel. *)
Definition writeSample (buffer : AudioBuffer.t) (i channel : nat)
    (st : DataView.t * nat) : option (DataView.t * nat) :=
  let '(view, offset) := st in
  let sample := clampSample (f32_at (AudioBuffer.getChannelData buffer channel) i) in
  view ← DataView.setInt16 view offset (sample * 32767)%Q true;
  Some (view, offset + 2).

Definition audioBufferToBlob (buffer : AudioBuffer.t) : option Blob.t :=
  let length := AudioBuffer.length buffer in
  let numberOfChannels := AudioBuffer.numberOfChannels buffer in
  let sampleRate := AudioBuffer.sampleRate buffer in
  let dataBytes := Z.of_nat (length * numberOfChannels * 2) in
  let view := DataView.ArrayBuffer (44 + length * numberOfChannels * 2) in
  view ← writeString view 0 "RIFF";
  view ← DataView.setUint32 view 4 (36 + dataBytes) true;
  view ← writeString view 8 "WAVE";
  view ← writeString view 12 "fmt ";
  view ← DataView.setUint32 view 16 16 true;
  view ← DataView.setUint16 view 20 1 true;
  view ← DataView.setUint16 view 22 (Z.of_nat numberOfChannels) true;
  view ← DataView.setUint32 view 24 sampleRate true;
  view ← DataView.setUint32 view 28 (sampleRate * Z.of_nat numberOfChannels * 2) true;
  view ← DataView.setUint16 view 32 (Z.of_nat numberOfChannels * 2) true;
  view ← DataView.setUint16 view 34 16 true;
  view ← writeString view 36 "data";
  view ← DataView.setUint32 view 40 dataBytes true;
  st ← forEach (range 0 length)
         (λ i, forEach (range 0 numberOfChannels) (writeSample buffer i))
         (view, 44);
  Some {| Blob.parts := st.1; Blob.type := "audio/wav" |}.

(** *** The container, as the specification describes it *)

(** The bytes [[offset, offset + n)] of a sequence. *)
Definition sub (bytes : list Z) (offset n : nat) : list Z :=
  take n (drop offset bytes).

(** The unsigned integer a little-endian byte sequence denotes. *)
Definition uintLE (bytes : list Z) : Z :=
  foldr (λ b acc, b + 256 * acc)%Z 0%Z bytes.

(** The signed 16-bit integer two little-endian bytes denote. *)
Definition int16LE (bytes : list Z) : Z :=
  let u := uintLE bytes in
  if (u <? 32768)%Z then u else (u - 65536)%Z.

Definition ascii (s : string) : list Z :=
  map (λ c, Z.of_nat (Ascii.nat_of_ascii c)) (list_ascii_of_string s).

(** Clamping to [[-1, 1]]. *)
Definition clampUnit (x : Q) : Q :=
  if Qltb x (-1) then (-1)%Q else if Qltb 1 x then 1%Q else x.

(** The 44-byte header for the given channel count, sample rate and
    frame count. *)
Definition RiffHeader (bytes : list Z) (channelCount sampleRate frameCount : Z)
    : Prop :=
  sub bytes 0 4 = ascii "RIFF"
  ∧ uintLE (sub bytes 4 4) = (Z.of_nat (length bytes) - 8)%Z
  ∧ sub bytes 8 4 = ascii "WAVE"
  ∧ sub bytes 12 4 = ascii "fmt "
  ∧ uintLE (sub bytes 16 4) = 16%Z
  ∧ uintLE (sub bytes 20 2) = 1%Z
  ∧ uintLE (sub bytes 22 2) = channelCount
  ∧ uintLE (sub bytes 24 4) = sampleRate
  ∧ uintLE (sub bytes 28 4) = (sampleRate * channelCount * 2)%Z
  ∧ uintLE (sub bytes 32 2) = (channelCount * 2)%Z
  ∧ uintLE (sub bytes 34 2) = 16%Z
  ∧ sub bytes 36 4 = ascii "data"
  ∧ uintLE (sub bytes 40 4) = (frameCount * channelCount * 2)%Z.

(** The body: frame after frame, channel after channel within a frame,
    two bytes per sample holding the clamped sample scaled by 32767 and
    truncated. *)
Definition PcmBody (bytes : list Z) (buffer : AudioBuffer.t) : Prop :=
  ∀ i channel,
    i < AudioBuffer.length buffer →
    channel < AudioBuffer.numberOfChannels buffer →
    int16LE (sub bytes (44 + 2 * (i * AudioBuffer.numberOfChannels buffer + channel)) 2)
    = DataView.truncate (clampUnit (AudioBuffer.samples buffer channel i) * 32767)%Q.

(** The size fields of the header hold their values: the container's own
    limits. *)
Definition FitsHeader (buffer : AudioBuffer.t) : Prop :=
  (0 ≤ AudioBuffer.sampleRate buffer)%Z
  ∧ (AudioBuffer.sampleRate buffer * Z.of_nat (AudioBuffer.numberOfChannels buffer) * 2
     < 2 ^ 32)%Z
  ∧ (Z.of_nat (AudioBuffer.numberOfChannels buffer) * 2 < 2 ^ 16)%Z
  ∧ (36 + Z.of_nat (AudioBuffer.length buffer * AudioBuffer.numberOfChannels buffer * 2)
     < 2 ^ 32)%Z.

(** *** The bytes the encoder produces, as one expression *)

Definition sampleBytes (buffer : AudioBuffer.t) (i channel : nat) : list Z :=
  DataView.littleEndianBytes 2
    (DataView.truncate (clampSample (AudioBuffer.samples buffer channel i) * 32767)%Q).

Definition frameBytes (buffer : AudioBuffer.t) (i : nat) : list Z :=
  flat_map (sampleBytes buffer i) (seq 0 (AudioBuffer.numberOfChannels buffer)).

Definition bodyBytes (buffer : AudioBuffer.t) : list Z :=
  flat_map (frameBytes buffer) (seq 0 (AudioBuffer.length buffer)).

Definition headerBytes (buffer : AudioBuffer.t) : list Z :=
  let numberOfChannels := Z.of_nat (AudioBuffer.numberOfChannels buffer) in
  let sampleRate := AudioBuffer.sampleRate buffer in
  let dataBytes :=
    Z.of_nat (AudioBuffer.length buffer * AudioBuffer.numberOfChannels buffer * 2) in
  ascii "RIFF" ++ DataView.littleEndianBytes 4 (36 + dataBytes)
  ++ ascii "WAVE" ++ ascii "fmt "
  ++ DataView.littleEndianBytes 4 16
  ++ DataView.littleEndianBytes 2 1
  ++ DataView.littleEndianBytes 2 numberOfChannels
  ++ DataView.littleEndianBytes 4 sampleRate
  ++ DataView.littleEndianBytes 4 (sampleRate * numberOfChannels * 2)
  ++ DataView.littleEndianBytes 2 (numberOfChannels * 2)
  ++ DataView.littleEndianBytes 2 16
  ++ ascii "data" ++ DataView.littleEndianBytes 4 dataBytes.

(** Two frames of stereo at 8 kHz, with samples beyond both ends of
    [[-1, 1]]. *)
Definition twoFrames : AudioBuffer.t :=
  {| AudioBuffer.numberOfChannels := 2; AudioBuffer.length := 2;
     AudioBuffer.sampleRate := 8000;
     AudioBuffer.samples := λ channel i,
       match channel, i with
       | 0, 0 => 0.5%Q | 1, 0 => (-0.25)%Q
       | 0, _ => 1.5%Q | _, _ => (-2)%Q
       end |}.

(** A stereo buffer of [2^30] frames at 44.1 kHz, six and three quarter
    hours of silence: its samples take exactly [2^32] bytes. *)
Definition longStereo : AudioBuffer.t :=
  {| AudioBuffer.numberOfChannels := 2; AudioBuffer.length := Z.to_nat (2 ^ 30);
     AudioBuffer.sampleRate := 44100;
     AudioBuffer.samples := λ _ _, 0%Q |}.

End Wav.

(** ** The Web Audio graph of an [OfflineAudioContext]

    The nodes the component creates, with the attributes it sets; a node is
    named by its index in the context's node table, the destination being
    node 0.  [connect] records an edge.  What the browser computes from the
    graph is not part of the repository: rendering takes it as a parameter
    ([Renderer]), and [Reference] below gives one instance of it. *)

Module WebAudio.

Inductive AudioNode :=
| AudioDestinationNode
| AudioBufferSourceNode (buffer : option AudioBuffer.t) (playbackRate : Q)
    (startTime : option Q)
| ConvolverNode (buffer : option AudioBuffer.t)
| GainNode (gain : Q)
| DelayNode (maxDelayTime delayTime : Q)
| WaveShaperNode (curve : option Float32Array) (oversample : string).

Record OfflineAudioContext := {
  channelCount : nat;
  renderLength : nat;
  contextSampleRate : Z;
  nodes : list AudioNode;
  connections : list (nat * nat)
}.

(** [new OfflineAudioContext(numberOfChannels, length, sampleRate)].  The
    constructor of the browser throws a [NotSupportedError] for no channel,
    a length of 0 or a sample rate it does not support; the component calls
    it with the three values of a decoded buffer, and that case is left
    out. *)
Definition newOfflineAudioContext (numberOfChannels length : nat) (sampleRate : Z)
    : OfflineAudioContext :=
  {| channelCount := numberOfChannels; renderLength := length;
     contextSampleRate := sampleRate;
     nodes := [AudioDestinationNode]; connections := [] |}.

Definition destination : nat := 0.

(** Graph construction threads the context. *)
Definition Build (A : Type) : Type := OfflineAudioContext → A * OfflineAudioContext.

#[export] Instance build_ret : MRet Build := λ A x ctx, (x, ctx).
#[export] Instance build_bind : MBind Build :=
  λ A B f m ctx, let '(x, ctx') := m ctx in f x ctx'.

Definition createNode (node : AudioNode) : Build nat :=
  λ ctx, (length (nodes ctx),
          {| channelCount := channelCount ctx; renderLength := renderLength ctx;
             contextSampleRate := contextSampleRate ctx;
             nodes := nodes ctx ++ [node]; connections := connections ctx |}).

Definition updateNode (id : nat) (f : AudioNode → AudioNode) : Build unit :=
  λ ctx, (tt,
          {| channelCount := channelCount ctx; renderLength := renderLength ctx;
             contextSampleRate := contextSampleRate ctx;
             nodes := alter f id (nodes ctx); connections := connections ctx |}).

(** The factory methods, with the defaults of the Web Audio API. *)
Definition createBufferSource : Build nat :=
  createNode (AudioBufferSourceNode None 1 None).
Definition createConvolver : Build nat := createNode (ConvolverNode None).
Definition createGain : Build nat := createNode (GainNode 1).
Definition createDelay (maxDelayTime : Q) : Build nat :=
  createNode (DelayNode maxDelayTime 0).
Definition createWaveShaper : Build nat := createNode (WaveShaperNode None "none").

(** The attribute assignments the component makes. *)
Definition setBuffer (id : nat) (buffer : AudioBuffer.t) : Build unit :=
  updateNode id (λ node,
    match node with
    | AudioBufferSourceNode _ rate start => AudioBufferSourceNode (Some buffer) rate start
    | ConvolverNode _ => ConvolverNode (Some buffer)
    | other => other
    end).

Definition setPlaybackRate (id : nat) (value : Q) : Build unit :=
  updateNode id (λ node,
    match node with
    | AudioBufferSourceNode buffer _ start => AudioBufferSourceNode buffer value start
    | other => other
    end).

Definition setGain (id : nat) (value : Q) : Build unit :=
  updateNode id (λ node,
    match node with GainNode _ => GainNode value | other => other end).

Definition setDelayTime (id : nat) (value : Q) : Build unit :=
  updateNode id (λ node,
    match node with DelayNode maxDelay _ => DelayNode maxDelay value | other => other end).

Definition setCurve (id : nat) (curve : Float32Array) : Build unit :=
  updateNode id (λ node,
    match node with
    | WaveShaperNode _ oversample => WaveShaperNode (Some curve) oversample
    | other => other
    end).

Definition setOversample (id : nat) (value : string) : Build unit :=
  updateNode id (λ node,
    match node with WaveShaperNode curve _ => WaveShaperNode curve value | other => other end).

(** [source.connect(target)] *)
Definition connect (source target : nat) : Build unit :=
  λ ctx, (tt,
          {| channelCount := channelCount ctx; renderLength := renderLength ctx;
             contextSampleRate := contextSampleRate ctx;
             nodes := nodes ctx; connections := connections ctx ++ [(source, target)] |}).

(** [source.start(when)] *)
Definition start (id : nat) (when : Q) : Build unit :=
  updateNode id (λ node,
    match node with
    | AudioBufferSourceNode buffer rate _ => AudioBufferSourceNode buffer rate (Some when)
    | other => other
    end).

(** [context.createBuffer(numberOfChannels, length, sampleRate)] filled by
    [fill]. *)
Definition createBuffer (numberOfChannels length : nat) (sampleRate : Z)
    (fill : nat → nat → Q) : AudioBuffer.t :=
  {| AudioBuffer.numberOfChannels := numberOfChannels; AudioBuffer.length := length;
     AudioBuffer.sampleRate := sampleRate; AudioBuffer.samples := fill |}.

(** The signal the browser computes at the output of the destination, per
    channel and frame. *)
Definition Renderer : Type := OfflineAudioContext → nat → nat → Q.

(** [startRendering()]: the rendered buffer has the channel count, the
    length and the sample rate the context was constructed with. *)
Definition startRendering (render : Renderer) (ctx : OfflineAudioContext)
    : AudioBuffer.t :=
  {| AudioBuffer.numberOfChannels := channelCount ctx;
     AudioBuffer.length := renderLength ctx;
     AudioBuffer.sampleRate := contextSampleRate ctx;
     AudioBuffer.samples := render ctx |}.

End WebAudio.

(** ** The voice changer *)

Module VoiceChanger.
Import WebAudio.

Module VoiceType.
Record t := {
  value : string;
  label : string;
  description : string;
  pitch : Q;
  formant : Q;
  preview : string
}.
End VoiceType.

Definition voiceTypes : list VoiceType.t := [
  {| VoiceType.value := "male-to-female"; VoiceType.label := "Male to Female";
     VoiceType.description := "Higher pitch, softer tone";
     VoiceType.pitch := 1.5; VoiceType.formant := 1.2;
     VoiceType.preview := "/audio/preview-male-to-female.mp3" |};
  {| VoiceType.value := "female-to-male"; VoiceType.label := "Female to Male";
     VoiceType.description := "Lower pitch, deeper tone";
     VoiceType.pitch := 0.7; VoiceType.formant := 0.8;
     VoiceType.preview := "/audio/preview-female-to-male.mp3" |};
  {| VoiceType.value := "adult-to-child"; VoiceType.label := "Adult to Child";
     VoiceType.description := "Higher pitch, faster speed";
     VoiceType.pitch := 1.8; VoiceType.formant := 1.4;
     VoiceType.preview := "/audio/preview-adult-to-child.mp3" |};
  {| VoiceType.value := "child-to-adult"; VoiceType.label := "Child to Adult";
     VoiceType.description := "Lower pitch, slower speed";
     VoiceType.pitch := 0.6; VoiceType.formant := 0.7;
     VoiceType.preview := "/audio/preview-child-to-adult.mp3" |};
  {| VoiceType.value := "robot"; VoiceType.label := "Robot Voice";
     VoiceType.description := "Robotic modulation effect";
     VoiceType.pitch := 1.0; VoiceType.formant := 1.0;
     VoiceType.preview := "/audio/preview-robot.mp3" |};
  {| VoiceType.value := "elderly"; VoiceType.label := "Elderly Voice";
     VoiceType.description := "Tremolo and slower speech";
     VoiceType.pitch := 0.9; VoiceType.formant := 0.9;
     VoiceType.preview := "/audio/preview-elderly.mp3" |}
].

(** The sliders hand each value over as an array; the code reads element 0. *)
Record Settings := {
  pitch : list Q;
  speed : list Q;
  reverb : list Q;
  echo : list Q;
  distortion : list Q
}.

Definition defaultSettings : Settings :=
  {| pitch := [1.0]%Q; speed := [1.0]%Q; reverb := [0]%Q; echo := [0]%Q;
     distortion := [0]%Q |}.

(** [x > 0] on an array element that may be missing ([undefined > 0] is
    false). *)
Definition positive (x : option Q) : bool :=
  match x with Some v => Qltb 0 v | None => false end.

(** [x || fallback]: 0 and [undefined] are falsy. *)
Definition orElse (x : option Q) (fallback : Q) : Q :=
  match x with
  | Some v => if Qeq_bool v 0 then fallback else v
  | None => fallback
  end.

(** [Math.PI], the double nearest to pi. *)
Definition MathPI : Q := 884279719003555 # 281474976710656.

(** [Math.random()] is a parameter: the [k]-th draw of a run. *)
Definition RandomSource : Type := nat → Q.

Definition createReverbImpulse (random : RandomSource) (context : OfflineAudioContext)
    (intensity : Q) : AudioBuffer.t :=
  let length := Z.to_nat (contextSampleRate context * 2) in
  createBuffer 2 length (contextSampleRate context)
    (λ channel i,
       let decay := ((1 - inject_Z (Z.of_nat i) / inject_Z (Z.of_nat length)) ^ 2)%Q in
       ((random (channel * length + i)%nat * 2 - 1) * decay * intensity)%Q).

Definition createDistortionCurve (amount : Q) : Float32Array :=
  let samples := Z.to_nat 44100 in
  let deg := (MathPI / 180)%Q in
  {| f32_length := samples;
     f32_at := λ i,
       let x := (inject_Z (Z.of_nat i * 2) / inject_Z (Z.of_nat samples) - 1)%Q in
       (((3 + amount) * x * 20 * deg) / (MathPI + amount * Qabs x))%Q |}.

(** The reverb block: dry and convolved paths summed in [outputGain]. *)
Definition addReverb (random : RandomSource) (amount : Q) (currentNode : nat)
    : Build nat :=
  convolver ← createConvolver;
  impulseBuffer ← (λ ctx, (createReverbImpulse random ctx amount, ctx));
  setBuffer convolver impulseBuffer;;
  wetGain ← createGain;
  dryGain ← createGain;
  outputGain ← createGain;
  setGain wetGain (amount * 0.3)%Q;;
  setGain dryGain (1 - amount * 0.3)%Q;;
  connect currentNode dryGain;;
  connect currentNode convolver;;
  connect convolver wetGain;;
  connect dryGain outputGain;;
  connect wetGain outputGain;;
  mret outputGain.

(** The echo block: a delay line fed back through [feedback]. *)
Definition addEcho (amount : Q) (currentNode : nat) : Build nat :=
  delay ← createDelay 1.0;
  feedback ← createGain;
  wetGain ← createGain;
  dryGain ← createGain;
  outputGain ← createGain;
  setDelayTime delay 0.3;;
  setGain feedback (amount * 0.4)%Q;;
  setGain wetGain (amount * 0.5)%Q;;
  setGain dryGain (1 - amount * 0.3)%Q;;
  connect currentNode dryGain;;
  connect currentNode delay;;
  connect delay feedback;;
  connect feedback delay;;
  connect delay wetGain;;
  connect dryGain outputGain;;
  connect wetGain outputGain;;
  mret outputGain.

(** The distortion block. *)
Definition addDistortion (amount : Q) (currentNode : nat) : Build nat :=
  waveshaper ← createWaveShaper;
  setCurve waveshaper (createDistortionCurve amount);;
  setOversample waveshaper "4x";;
  connect currentNode waveshaper;;
  mret waveshaper.

(** The graph [applyVoiceTransformation] builds before it starts the
    rendering. *)
Definition buildGraph (random : RandomSource) (selectedVoiceType : string)
    (settings : Settings) (pitchShift : Q) (buffer : AudioBuffer.t) : Build unit :=
  source ← createBufferSource;
  setBuffer source buffer;;
  setPlaybackRate source pitchShift;;
  let currentNode := source in
  currentNode ←
    (if positive (reverb settings !! 0)
     then addReverb random (default 0%Q (reverb settings !! 0)) currentNode
     else mret currentNode);
  currentNode ←
    (if positive (echo settings !! 0)
     then addEcho (default 0%Q (echo settings !! 0)) currentNode
     else mret currentNode);
  currentNode ←
    (if bool_decide (selectedVoiceType = "robot") || positive (distortion settings !! 0)
     then addDistortion (orElse (distortion settings !! 0) 0.5) currentNode
     else mret currentNode);
  connect currentNode destination;;
  start source 0.

(** [applyVoiceTransformation]; [None] is one of its three exceptions: no
    audio context, no voice type of that name, or a missing pitch value (a
    NaN assigned to [playbackRate.value]). *)
Definition applyVoiceTransformation (render : Renderer) (random : RandomSource)
    (audioContext : bool) (selectedVoiceType : string) (settings : Settings)
    (buffer : AudioBuffer.t) : option AudioBuffer.t :=
  if negb audioContext then None else
  selectedType ←
    find (λ type, bool_decide (VoiceType.value type = selectedVoiceType)) voiceTypes;
  let offlineContext :=
    newOfflineAudioContext (AudioBuffer.numberOfChannels buffer)
      (AudioBuffer.length buffer) (AudioBuffer.sampleRate buffer) in
  pitch0 ← pitch settings !! 0;
  let pitchShift := (VoiceType.pitch selectedType * pitch0)%Q in
  let '(_, offlineContext) :=
    buildGraph random selectedVoiceType settings pitchShift buffer offlineContext in
  Some (startRendering render offlineContext).

End VoiceChanger.

(** *** The rate stage alone *)

Module RateStage.
Import WebAudio VoiceChanger.

(** The graph with the source at its playback rate wired straight to the
    destination. *)
Definition buildRateOnly (pitchShift : Q) (buffer : AudioBuffer.t) : Build unit :=
  source ← createBufferSource;
  setBuffer source buffer;;
  setPlaybackRate source pitchShift;;
  connect source destination;;
  start source 0.

(** The rate-stage-only pipeline: the same context, voice type and pitch,
    no effect stage. *)
Definition rateStageOnly (render : Renderer) (audioContext : bool)
    (selectedVoiceType : string) (settings : Settings) (buffer : AudioBuffer.t)
    : option AudioBuffer.t :=
  if negb audioContext then None else
  selectedType ←
    find (λ type, bool_decide (VoiceType.value type = selectedVoiceType)) voiceTypes;
  let offlineContext :=
    newOfflineAudioContext (AudioBuffer.numberOfChannels buffer)
      (AudioBuffer.length buffer) (AudioBuffer.sampleRate buffer) in
  pitch0 ← pitch settings !! 0;
  let '(_, offlineContext) :=
    buildRateOnly (VoiceType.pitch selectedType * pitch0)%Q buffer offlineContext in
  Some (startRendering render offlineContext).

(** An amount the slider has at 0. *)
Definition IsZero (amount : list Q) : Prop :=
  ∃ v, amount !! 0 = Some v ∧ (v == 0)%Q.

End RateStage.

(** ** A reference renderer

    One instance of what the browser computes, used for the concrete runs
    below.  It follows the processing model of the Web Audio API for the
    nodes of the voice changer: a buffer source read at its playback rate
    with linear interpolation, gains, summing inputs, a delay line of a
    whole number of frames, and a wave shaper that interpolates linearly in
    its curve (the 4x oversampling filter is left out).  The convolver is
    not covered: its impulse response is random and its normalisation is
    not rational.  [None] is a node without a signal here. *)

Module Reference.
Import WebAudio.

(** Channel data read at a fractional position. *)
Definition readAt (data : nat → Q) (length : nat) (position : Q) : Q :=
  let k := Z.to_nat (Qfloor position) in
  let frac := (position - inject_Z (Qfloor position))%Q in
  if decide (S k < length) then (data k * (1 - frac) + data (S k) * frac)%Q
  else if decide (k < length) then (data k * (1 - frac))%Q
  else 0%Q.

Definition playback (buffer : AudioBuffer.t) (playbackRate : Q)
    (contextSampleRate : Z) (channel frame : nat) : Q :=
  let ratio := (inject_Z (AudioBuffer.sampleRate buffer) / inject_Z contextSampleRate)%Q in
  let position := (inject_Z (Z.of_nat frame) * playbackRate * ratio)%Q in
  if decide (channel < AudioBuffer.numberOfChannels buffer) then
    readAt (AudioBuffer.samples buffer channel) (AudioBuffer.length buffer) position
  else if decide (AudioBuffer.numberOfChannels buffer = 1) then
    readAt (AudioBuffer.samples buffer 0) (AudioBuffer.length buffer) position
  else 0%Q.

(** The wave shaper's curve applied to one sample. *)
Definition shape (curve : Float32Array) (x : Q) : Q :=
  let n := f32_length curve in
  let v := (inject_Z (Z.of_nat (n - 1)) / 2 * (x + 1))%Q in
  if Qltb v 0 then f32_at curve 0
  else if Qle_bool (inject_Z (Z.of_nat (n - 1))) v then f32_at curve (n - 1)
  else
    let k := Z.to_nat (Qfloor v) in
    let f := (v - inject_Z (Qfloor v))%Q in
    ((1 - f) * f32_at curve k + f * f32_at curve (S k))%Q.

(** The signal at the output of [node]; every edge crossed costs one unit
    of [fuel], and a cycle is only left through a delay. *)
Fixpoint signal (fuel : nat) (ctx : OfflineAudioContext) (node channel frame : nat)
    : option Q :=
  match fuel with
  | O => None
  | S fuel' =>
      let input := λ frame',
        foldr (λ edge acc,
                 if decide (edge.2 = node) then
                   x ← signal fuel' ctx edge.1 channel frame';
                   a ← acc;
                   Some (x + a)%Q
                 else acc)
              (Some 0%Q) (connections ctx) in
      kind ← nodes ctx !! node;
      match kind with
      | AudioDestinationNode => input frame
      | AudioBufferSourceNode (Some buffer) playbackRate (Some _) =>
          Some (playback buffer playbackRate (contextSampleRate ctx) channel frame)
      | AudioBufferSourceNode _ _ _ => Some 0%Q
      | ConvolverNode _ => None
      | GainNode gain => (λ x, gain * x)%Q <$> input frame
      | DelayNode _ delayTime =>
          let frames := Z.to_nat (Qfloor (delayTime * inject_Z (contextSampleRate ctx))) in
          if decide (frame < frames) then Some 0%Q else input (frame - frames)
      | WaveShaperNode (Some curve) _ => shape curve <$> input frame
      | WaveShaperNode None _ => input frame
      end
  end.

Definition fuelFor (ctx : OfflineAudioContext) (frame : nat) : nat :=
  (length (nodes ctx) + 1) * (frame + 1).

Definition render : Renderer :=
  λ ctx channel frame,
    default 0%Q (signal (fuelFor ctx frame) ctx destination channel frame).

End Reference.

(** ** Concrete runs of the voice changer *)

Module Runs.
Import WebAudio VoiceChanger.

Definition noRandom : RandomSource := λ _, 0.5%Q.

(** Three rows of [voiceTypes]. *)
Definition femaleToMale : VoiceType.t :=
  {| VoiceType.value := "female-to-male"; VoiceType.label := "Female to Male";
     VoiceType.description := "Lower pitch, deeper tone";
     VoiceType.pitch := 0.7; VoiceType.formant := 0.8;
     VoiceType.preview := "/audio/preview-female-to-male.mp3" |}.

Definition robot : VoiceType.t :=
  {| VoiceType.value := "robot"; VoiceType.label := "Robot Voice";
     VoiceType.description := "Robotic modulation effect";
     VoiceType.pitch := 1.0; VoiceType.formant := 1.0;
     VoiceType.preview := "/audio/preview-robot.mp3" |}.

Definition elderly : VoiceType.t :=
  {| VoiceType.value := "elderly"; VoiceType.label := "Elderly Voice";
     VoiceType.description := "Tremolo and slower speech";
     VoiceType.pitch := 0.9; VoiceType.formant := 0.9;
     VoiceType.preview := "/audio/preview-elderly.mp3" |}.

(** What [applyVoiceTransformation] returns for a voice type of the table
    and a pitch value, under the reference renderer. *)
Definition rendered (selectedType : VoiceType.t) (settings : Settings) (pitch0 : Q)
    (buffer : AudioBuffer.t) : AudioBuffer.t :=
  startRendering Reference.render
    (buildGraph noRandom (VoiceType.value selectedType) settings
       (VoiceType.pitch selectedType * pitch0)%Q buffer
       (newOfflineAudioContext (AudioBuffer.numberOfChannels buffer)
          (AudioBuffer.length buffer) (AudioBuffer.sampleRate buffer))).2.

(** Four frames of mono at 8 kHz. *)
Definition fourFrames : AudioBuffer.t :=
  {| AudioBuffer.numberOfChannels := 1; AudioBuffer.length := 4;
     AudioBuffer.sampleRate := 8000;
     AudioBuffer.samples := λ _ i,
       match i with 0 => 0.5%Q | 1 => 0.25%Q | 2 => (-0.5)%Q | _ => 0.125%Q end |}.

(** Twice the pitch, every effect at 0. *)
Definition doublePitch : Settings :=
  {| pitch := [2.0]%Q; speed := [1.0]%Q; reverb := [0]%Q; echo := [0]%Q;
     distortion := [0]%Q |}.

(** Half a second of a constant full-scale signal, mono at 8 kHz: every
    sample is 1. *)
Definition fullScale : AudioBuffer.t :=
  {| AudioBuffer.numberOfChannels := 1; AudioBuffer.length := Z.to_nat 4000;
     AudioBuffer.sampleRate := 8000;
     AudioBuffer.samples := λ _ _, 1%Q |}.

(** Echo at its maximum, nothing else. *)
Definition fullEcho : Settings :=
  {| pitch := [1.0]%Q; speed := [1.0]%Q; reverb := [0]%Q; echo := [1]%Q;
     distortion := [0]%Q |}.

(** The frame at which the first echo arrives: 0.3 s at 8 kHz. *)
Definition firstEcho : nat := Z.to_nat 2400.

End Runs.

(** ** Numbers and strings of the user interface *)

(** [Number.prototype.toString] on an integer below [10^21] in magnitude:
    its decimal digits, with a minus sign for a negative one. *)
Definition toString (n : Z) : string := pretty n.

(** [x % y] on finite numbers, [y] not 0: the remainder takes the sign of
    [x]. *)
Definition remainder (x y : Q) : Q :=
  (x - y * inject_Z (DataView.truncate (x / y)))%Q.

(** [s.padStart(targetLength, padString)]: [padString] is repeated and cut
    to the missing length; a string that is long enough is returned as it
    is. *)
Definition padStart (s : string) (targetLength : nat) (padString : string) : string :=
  let fillLen := targetLength - String.length s in
  let filler :=
    take fillLen (mjoin (replicate fillLen (list_ascii_of_string padString))) in
  string_of_list_ascii filler +:+ s.

(** [s.startsWith(searchString)] *)
Definition startsWith (s searchString : string) : bool := String.prefix searchString s.

(** [s.endsWith(searchString)] *)
Definition endsWith (s searchString : string) : bool :=
  (String.length searchString <=? String.length s)
  && String.eqb
       (String.substring (String.length s - String.length searchString)
          (String.length searchString) s)
       searchString.

(** [s.match(/\.(a|b|...)$/)] as a condition: [s] ends with a dot and one
    of the alternatives. *)
Definition matchesExtension (alternatives : list string) (s : string) : bool :=
  existsb (λ alternative, endsWith s ("." +:+ alternative)) alternatives.

(** A value that may be [null] or [undefined], in a condition. *)
Definition truthy (s : option string) : bool :=
  match s with
  | Some s => negb (bool_decide (s = ""))
  | None => false
  end.

(** The clock under the players of [VoiceChanger] and [LipsyncGenerator]. *)
Definition formatTime (time : Q) : string :=
  let minutes := Qfloor (time / 60) in
  let seconds := Qfloor (remainder time 60) in
  toString minutes +:+ ":" +:+ padStart (toString seconds) 2 "0".

Module VideoPreview.

(** The clock of [VideoPreview] starts with [if (!time || isNaN(time))
    return '0:00']; of the finite numbers only 0 is falsy. *)
Definition formatTime (time : Q) : string :=
  if Qeq_bool time 0 then "0:00"
  else
    let minutes := Qfloor (time / 60) in
    let seconds := Qfloor (remainder time 60) in
    toString minutes +:+ ":" +:+ padStart (toString seconds) 2 "0".

End VideoPreview.

(** ** What a handler does to its surroundings

    A handler of a component is modelled by the sequence of the calls it
    makes, in order: state setters, the callbacks of its parent and toasts.
    Console output and the pauses between the stages are left out. *)

Record File := {
  file_name : string;
  file_type : string;
  file_size : Z;
  file_content : list Z
}.

Module UploadedFiles.
Record t := {
  image : option File;
  video : option File;
  audio : option File
}.
End UploadedFiles.

(** [!x] on a file that may be missing. *)
Definition missing (file : option File) : bool :=
  match file with Some _ => false | None => true end.

(** How a step ends: with a value or with an exception. *)
Inductive Outcome (A : Type) :=
| Value (a : A)
| Thrown.
Arguments Value {A} a.
Arguments Thrown {A}.

(** A piece of a handler: the calls it made, and how it ended. *)
Definition Attempt (E A : Type) : Type := list E * Outcome A.

#[global] Instance attempt_ret {E} : MRet (Attempt E) := λ A x, ([], Value x).
#[global] Instance attempt_bind {E} : MBind (Attempt E) :=
  λ A B f m,
    match m.2 with
    | Value x => (m.1 ++ (f x).1, (f x).2)
    | Thrown => (m.1, Thrown)
    end.

Definition emit {E} (effect : E) : Attempt E unit := ([effect], Value tt).

(** A call that may throw ([None]). *)
Definition call {E A} (result : option A) : Attempt E A :=
  ([], match result with Some x => Value x | None => Thrown end).

(** [try { body } catch { handler } finally { after }] *)
Definition tryCatchFinally {E} (body : Attempt E unit) (handler after : list E)
    : Attempt E unit :=
  match body.2 with
  | Value _ => (body.1 ++ after, Value tt)
  | Thrown => (body.1 ++ handler ++ after, Value tt)
  end.

Definition effects {E A} (run : Attempt E A) : list E := run.1.

Definition returns {E A} (run : Attempt E A) : bool :=
  match run.2 with Value _ => true | _ => false end.

Module UI.

Inductive Effect :=
| toast (title description : string) (destructive : bool)
| onProcessingUpdate (isProcessing : bool) (progress : Z) (stage : string)
| onProcessingComplete
| setIsProcessing (value : bool)
| setSourceBuffer (buffer : AudioBuffer.t)
| setProcessedAudio (blob : Blob.t)
| setMouthShapes (shapes : list string)
| setInterval (shapes : list string) (delay : Z)
| setProcessedVideo (url : string).

(** The status reports among the calls, in order. *)
Definition reports (calls : list Effect) : list (bool * Z * string) :=
  omap (λ effect,
          match effect with
          | onProcessingUpdate isProcessing progress stage =>
              Some (isProcessing, progress, stage)
          | _ => None
          end) calls.

End UI.

(** ** The canvas of the mouth preview *)

Module Canvas.

Record t := { width : Z; height : Z; context2d : bool }.

Inductive Command :=
| clearRect (x y w h : Q)
| setStrokeStyle (style : string)
| setLineWidth (w : Q)
| beginPath
| arc (x y radius startAngle endAngle : Q)
| stroke
| setFillStyle (style : string)
| ellipse (x y radiusX radiusY rotation startAngle endAngle : Q)
| fill
| setFont (font : string)
| fillText (text : string) (x y : Q).

End Canvas.

(** ** The component [LipsyncGenerator] around the three functions *)

Module LipsyncGenerator.
Import Lipsync.

(** The four labels of the classifier. *)
Definition mouthShapes : list string := ["closed"; "slightly-open"; "open"; "wide-open"].

(** [shapes[frameIndex] || 'closed']: a missing entry and the empty string
    are falsy. *)
Definition currentShapeAt (shapes : list string) (frameIndex : nat) : string :=
  match shapes !! frameIndex with
  | Some shape => if bool_decide (shape = "") then "closed" else shape
  | None => "closed"
  end.

(** The [switch] of [renderMouthVisualization]: it has no default case. *)
Definition mouthPath (settings : Settings) (centerX centerY : Q)
    (currentShape : string) : list Canvas.Command :=
  let two_pi := (2 * VoiceChanger.MathPI)%Q in
  if bool_decide (currentShape = "closed") then
    [Canvas.ellipse centerX centerY (15 * mouthScale settings) (3 * mouthScale settings)
       0 0 two_pi]
  else if bool_decide (currentShape = "slightly-open") then
    [Canvas.ellipse centerX centerY (18 * mouthScale settings) (8 * mouthScale settings)
       0 0 two_pi]
  else if bool_decide (currentShape = "open") then
    [Canvas.ellipse centerX centerY (20 * mouthScale settings) (15 * mouthScale settings)
       0 0 two_pi]
  else if bool_decide (currentShape = "wide-open") then
    [Canvas.ellipse centerX centerY (25 * mouthScale settings) (20 * mouthScale settings)
       0 0 two_pi]
  else [].

(** [renderMouthVisualization]: nothing is drawn without a canvas or a 2d
    context. *)
Definition renderMouthVisualization (settings : Settings) (canvas : option Canvas.t)
    (shapes : list string) (frameIndex : nat) : list Canvas.Command :=
  match canvas with
  | None => []
  | Some canvas =>
      if negb (Canvas.context2d canvas) then []
      else
        let width := inject_Z (Canvas.width canvas) in
        let height := inject_Z (Canvas.height canvas) in
        let two_pi := (2 * VoiceChanger.MathPI)%Q in
        let centerX := (width / 2)%Q in
        let centerY := (height / 2 + 20)%Q in
        let currentShape := currentShapeAt shapes frameIndex in
        [Canvas.clearRect 0 0 width height;
         Canvas.setStrokeStyle "#8B5CF6";
         Canvas.setLineWidth 2;
         Canvas.beginPath;
         Canvas.arc (width / 2) (height / 2) 80 0 two_pi;
         Canvas.stroke;
         Canvas.setFillStyle "#EC4899";
         Canvas.beginPath]
        ++ mouthPath settings centerX centerY currentShape
        ++ [Canvas.fill;
            Canvas.setFillStyle "#10B981";
            Canvas.setFont "12px monospace";
            Canvas.fillText
              ("Frame: " +:+ toString (Z.of_nat frameIndex) +:+ "/"
               +:+ toString (Z.of_nat (length shapes))) 10 20;
            Canvas.fillText ("Shape: " +:+ currentShape) 10 35]
  end.

(** The animation: the callback handed to [setInterval] keeps the counter
    [frameIndex] in its closure and clears the interval once the counter
    has reached the end of the track.  [drawn] and [shown] record the calls
    of [renderMouthVisualization] and of [setCurrentFrame]. *)
Record Animation := {
  frameIndex : nat;
  cleared : bool;
  drawn : list (list Canvas.Command);
  shown : list nat
}.

Definition startAnimation : Animation :=
  {| frameIndex := 0; cleared := false; drawn := []; shown := [] |}.

(** One firing of the timer; a cleared interval does not fire. *)
Definition animationTick (settings : Settings) (canvas : option Canvas.t)
    (smoothedShapes : list string) (animation : Animation) : Animation :=
  if cleared animation then animation
  else
    let frame := frameIndex animation in
    {| frameIndex := frame + 1;
       cleared := bool_decide (length smoothedShapes ≤ frame + 1);
       drawn := drawn animation
                ++ [renderMouthVisualization settings canvas smoothedShapes frame];
       shown := shown animation ++ [frame] |}.

Definition animate (settings : Settings) (canvas : option Canvas.t)
    (smoothedShapes : list string) (ticks : nat) : Animation :=
  Nat.iter ticks (animationTick settings canvas smoothedShapes) startAnimation.

(** [loadAndAnalyzeAudio]: it throws without an audio context, when the
    browser cannot read or decode the file ([decodeAudioData] stands for
    both steps), and when [analyzeAudio] throws. *)
Definition loadAndAnalyzeAudio (decodeAudioData : File → option AudioBuffer.t)
    (audioContext : bool) (file : File) : Attempt UI.Effect (list Q) :=
  if negb audioContext then call None
  else
    audioBuffer ← call (decodeAudioData file);
    call (analyzeAudio audioBuffer).

Definition lipsyncFailure : list UI.Effect :=
  [UI.onProcessingUpdate false 0 "";
   UI.toast "Generation Failed"
     "There was an error generating the lipsync. Please try again." true].

(** The [try] block of [handleLipsyncGeneration]; [now] is the value of
    [Date.now()]. *)
Definition lipsyncBody (decodeAudioData : File → option AudioBuffer.t)
    (audioContext : bool) (settings : Settings) (now : Z)
    (uploadedFiles : UploadedFiles.t) : Attempt UI.Effect unit :=
  emit (UI.onProcessingUpdate true 20 "Loading image and audio files...");;
  emit (UI.onProcessingUpdate true 40 "Analyzing audio amplitude and frequency...");;
  audioFile ← call (UploadedFiles.audio uploadedFiles);
  amplitudes ← loadAndAnalyzeAudio decodeAudioData audioContext audioFile;
  emit (UI.onProcessingUpdate true 60 "Generating mouth shape keyframes...");;
  let generatedShapes := generateMouthShapes settings amplitudes in
  smoothedShapes ← call (smoothMouthShapes settings generatedShapes);
  emit (UI.setMouthShapes smoothedShapes);;
  emit (UI.onProcessingUpdate true 80 "Creating lip-sync animation...");;
  emit (UI.setInterval smoothedShapes 33);;
  emit (UI.onProcessingUpdate true 100 "Lipsync generation completed!");;
  emit (UI.setProcessedVideo ("processed-lipsync-" +:+ toString now +:+ ".mp4"));;
  emit (UI.toast "Lipsync Generation Complete"
          "Your video has been synchronized using browser-based audio analysis."
          false);;
  emit UI.onProcessingComplete.

Definition handleLipsyncGeneration (decodeAudioData : File → option AudioBuffer.t)
    (audioContext : bool) (settings : Settings) (now : Z)
    (uploadedFiles : UploadedFiles.t) : Attempt UI.Effect unit :=
  if missing (UploadedFiles.image uploadedFiles)
     || missing (UploadedFiles.audio uploadedFiles) then
    emit (UI.toast "Missing Files"
            "Please upload both an image and audio file for lipsync generation." true)
  else if negb audioContext then
    emit (UI.toast "Audio Context Error"
            "Audio processing is not available. Please refresh the page." true)
  else
    emit (UI.setIsProcessing true);;
    emit (UI.onProcessingUpdate true 0
            "Initializing browser-based lipsync generation...");;
    tryCatchFinally
      (lipsyncBody decodeAudioData audioContext settings now uploadedFiles)
      lipsyncFailure [UI.setIsProcessing false].

End LipsyncGenerator.

(** ** The handler [handleVoiceChange] of [VoiceChanger] *)

Module VoiceChangerHandlers.
Import VoiceChanger.

(** [loadAudioFile] *)
Definition loadAudioFile (decodeAudioData : File → option AudioBuffer.t)
    (audioContext : bool) (file : File) : option AudioBuffer.t :=
  if negb audioContext then None else decodeAudioData file.

(** [a || b] on two files that may be missing. *)
Definition orFile (a b : option File) : option File :=
  match a with Some file => Some file | None => b end.

(** The [try] block of [handleVoiceChange]. *)
Definition voiceChangeBody (decodeAudioData : File → option AudioBuffer.t)
    (render : WebAudio.Renderer) (random : RandomSource) (audioContext : bool)
    (selectedVoiceType : string) (settings : Settings)
    (uploadedFiles : UploadedFiles.t) : Attempt UI.Effect unit :=
  emit (UI.onProcessingUpdate true 20 "Loading audio file...");;
  audioFile ← call (orFile (UploadedFiles.audio uploadedFiles)
                      (UploadedFiles.video uploadedFiles));
  buffer ← call (loadAudioFile decodeAudioData audioContext audioFile);
  emit (UI.setSourceBuffer buffer);;
  emit (UI.onProcessingUpdate true 40 "Analyzing audio characteristics...");;
  emit (UI.onProcessingUpdate true 60 "Applying voice transformation...");;
  processedBuffer ←
    call (applyVoiceTransformation render random audioContext selectedVoiceType
            settings buffer);
  emit (UI.onProcessingUpdate true 80 "Optimizing audio quality...");;
  processedBlob ← call (Wav.audioBufferToBlob processedBuffer);
  emit (UI.setProcessedAudio processedBlob);;
  emit (UI.onProcessingUpdate true 100 "Voice transformation completed!");;
  emit (UI.toast "Voice Transformation Complete"
          "Your audio has been successfully transformed using browser-based processing."
          false);;
  emit UI.onProcessingComplete.

Definition voiceChangeFailure : list UI.Effect :=
  [UI.onProcessingUpdate false 0 "";
   UI.toast "Transformation Failed"
     "There was an error processing your audio. Please try again." true].

Definition handleVoiceChange (decodeAudioData : File → option AudioBuffer.t)
    (render : WebAudio.Renderer) (random : RandomSource) (audioContext : bool)
    (selectedVoiceType : string) (settings : Settings)
    (uploadedFiles : UploadedFiles.t) : Attempt UI.Effect unit :=
  if bool_decide (selectedVoiceType = "") then
    emit (UI.toast "No Voice Type Selected"
            "Please select a voice transformation type first." true)
  else if missing (UploadedFiles.audio uploadedFiles)
          && missing (UploadedFiles.video uploadedFiles) then
    emit (UI.toast "No Audio File" "Please upload an audio or video file first." true)
  else if negb audioContext then
    emit (UI.toast "Audio Context Error"
            "Audio processing is not available. Please refresh the page." true)
  else
    emit (UI.setIsProcessing true);;
    emit (UI.onProcessingUpdate true 0
            "Initializing browser-based voice transformation...");;
    tryCatchFinally
      (voiceChangeBody decodeAudioData render random audioContext selectedVoiceType
         settings uploadedFiles)
      voiceChangeFailure [UI.setIsProcessing false].

End VoiceChangerHandlers.

(** ** The upload: [VideoUpload] in the browser, the route on the server *)

Module FileKind.
Inductive t := video | audio | image.

(** The string the kind stands for. *)
Definition name (kind : t) : string :=
  match kind with video => "video" | audio => "audio" | image => "image" end.
End FileKind.

Module UploadRoute.

(** The fields of the form; a missing field reads as [null]. *)
Record Request := {
  file : option File;
  projectId : option string;
  type : option string
}.

Inductive Response :=
| error (status : Z) (message : string)
| success (filename : string).

(** [response.ok] *)
Definition ok (response : Response) : bool :=
  match response with
  | error status _ => (200 <=? status)%Z && (status <=? 299)%Z
  | success _ => true
  end.

Definition dot : Ascii.ascii := Ascii.ascii_of_nat 46.

(** [name.split('.').pop()]: what follows the last dot, the whole name when
    it has none. *)
Fixpoint lastSegment (name : string) : string :=
  match name with
  | EmptyString => EmptyString
  | String c rest =>
      if existsb (Ascii.eqb dot) (list_ascii_of_string rest) then lastSegment rest
      else if Ascii.eqb c dot then rest
      else String c rest
  end.

Section Route.

(** [String.prototype.toLowerCase], over the whole of Unicode, is taken as
    it is. *)
Variable toLowerCase : string → string.

(** Whether [mkdir], [writeFile] and the update of the project all succeed
    for a file stored under the given name. *)
Variable store : File → string → string → bool.

(** [Date.now()] *)
Variable now : Z.

Definition isVideo (file : File) : bool :=
  startsWith (file_type file) "video/"
  || matchesExtension ["mp4"; "mov"; "avi"; "webm"; "mkv"] (toLowerCase (file_name file)).

Definition isAudio (file : File) : bool :=
  startsWith (file_type file) "audio/"
  || matchesExtension ["mp3"; "wav"; "aac"; "ogg"; "m4a"] (toLowerCase (file_name file)).

Definition maxSize : Z := 100 * 1024 * 1024.

Definition POST (request : Request) : Response :=
  match file request with
  | None => error 400 "Missing required fields"
  | Some file =>
      if negb (truthy (projectId request)) || negb (truthy (type request)) then
        error 400 "Missing required fields"
      else if negb (isVideo file) && negb (isAudio file) then
        error 400 "Invalid file type. Please upload a video or audio file."
      else if (maxSize <? file_size file)%Z then
        error 400 "File too large. Maximum size is 100MB."
      else
        let type := default "" (type request) in
        let projectId := default "" (projectId request) in
        let extension := lastSegment (file_name file) in
        let filename := type +:+ "_" +:+ toString now +:+ "." +:+ extension in
        if store file projectId filename then success filename
        else error 500 "Failed to upload file"
  end.

End Route.
End UploadRoute.

Module VideoUpload.

Inductive Effect :=
| toast (title description : string) (destructive : bool)
| setIsUploading (value : bool)
| setUploadProgress (value : Z)
| setPreviewUrl (kind : FileKind.t) (file : File)
| onFileUpload (file : File) (kind : FileKind.t).

Definition getFileType (file : File) : option FileKind.t :=
  if startsWith (file_type file) "video/" then Some FileKind.video
  else if startsWith (file_type file) "audio/" then Some FileKind.audio
  else if startsWith (file_type file) "image/" then Some FileKind.image
  else None.

(** The [try] block of [handleFileUpload]; [fetch] is the answer of the
    server, if any, its body being JSON as that of the route is. *)
Definition uploadBody (fetch : UploadRoute.Request → option UploadRoute.Response)
    (projectId : string) (file : File) (fileType : FileKind.t)
    : Attempt Effect unit :=
  let formData :=
    {| UploadRoute.file := Some file;
       UploadRoute.projectId := Some projectId;
       UploadRoute.type := Some (FileKind.name fileType) |} in
  response ← call (fetch formData);
  (if negb (UploadRoute.ok response) then call None else mret tt);;
  emit (setUploadProgress 100);;
  emit (setPreviewUrl fileType file);;
  emit (onFileUpload file fileType);;
  emit (toast "Upload Successful"
          (FileKind.name fileType +:+ " file uploaded successfully.") false).

(** [handleFileUpload]; [currentProject] is the id of the current project,
    if there is one.  The timer that animates the progress bar is left
    out. *)
Definition handleFileUpload (fetch : UploadRoute.Request → option UploadRoute.Response)
    (currentProject : option string) (file : File) : Attempt Effect unit :=
  match currentProject with
  | None =>
      emit (toast "No Project Selected" "Please create or select a project first." true)
  | Some projectId =>
      match getFileType file with
      | None =>
          emit (toast "Invalid File Type"
                  "Please upload a video, audio, or image file." true)
      | Some fileType =>
          if (50 * 1024 * 1024 <? file_size file)%Z then
            emit (toast "File Too Large"
                    "Please upload a file smaller than 50MB for optimal browser-based processing."
                    true)
          else
            emit (setIsUploading true);;
            emit (setUploadProgress 0);;
            tryCatchFinally (uploadBody fetch projectId file fileType)
              [toast "Upload Failed"
                 "There was an error uploading your file. Please try again." true]
              [setIsUploading false; setUploadProgress 0]
      end
  end.

(** [fetch('/api/upload', ...)] answered by the route. *)
Definition fetchRoute (toLowerCase : string → string)
    (store : File → string → string → bool) (now : Z)
    (request : UploadRoute.Request) : option UploadRoute.Response :=
  Some (UploadRoute.POST toLowerCase store now request).

End VideoUpload.

(** ** The page: the five steps of the workflow

    The state of [HomePage] and its handlers as functions on it; the toasts
    they show are left out. *)

Module HomePage.

(** A project as the server returns it: the fields the page reads. *)
Record Project := {
  id : string;
  name : string;
  originalVideoPath : option string;
  processedVideoPath : option string;
  processedAudioPath : option string;
  finalVideoPath : option string
}.

Inductive Status := pending | active | completed | error.

(** A step of the workflow (its description and icon are left out). *)
Record WorkflowStep := {
  step_id : string;
  title : string;
  status : Status;
  required : bool
}.

Inductive EditingType := lipsync | voice.

Record ProcessingStatus := {
  isProcessing : bool;
  progress : Z;
  stage : string
}.

Record State := {
  currentProject : option Project;
  currentStep : nat;
  uploadedFiles : UploadedFiles.t;
  editingType : option EditingType;
  processingStatus : ProcessingStatus;
  workflowSteps : list WorkflowStep
}.

Definition noFiles : UploadedFiles.t :=
  {| UploadedFiles.image := None; UploadedFiles.video := None;
     UploadedFiles.audio := None |}.

Definition initialState : State :=
  {| currentProject := None;
     currentStep := 0;
     uploadedFiles := noFiles;
     editingType := None;
     processingStatus := {| isProcessing := false; progress := 0; stage := "" |};
     workflowSteps :=
       [ {| step_id := "upload"; title := "Upload Content";
            status := active; required := true |};
         {| step_id := "choose-type"; title := "Choose Editing Type";
            status := pending; required := true |};
         {| step_id := "edit"; title := "Edit & Process";
            status := pending; required := true |};
         {| step_id := "preview"; title := "Preview Results";
            status := pending; required := true |};
         {| step_id := "export"; title := "Export & Download";
            status := pending; required := true |} ] |}.

Definition withStatus (step : WorkflowStep) (status : Status) : WorkflowStep :=
  {| step_id := step_id step; title := title step; status := status;
     required := required step |}.

Definition updateStepStatus (stepId : string) (status : Status) (st : State) : State :=
  {| currentProject := currentProject st;
     currentStep := currentStep st;
     uploadedFiles := uploadedFiles st;
     editingType := editingType st;
     processingStatus := processingStatus st;
     workflowSteps :=
       map (λ step, if bool_decide (step_id step = stepId) then withStatus step status
                    else step)
           (workflowSteps st) |}.

Definition setCurrentStep (step : nat) (st : State) : State :=
  {| currentProject := currentProject st;
     currentStep := step;
     uploadedFiles := uploadedFiles st;
     editingType := editingType st;
     processingStatus := processingStatus st;
     workflowSteps := workflowSteps st |}.

Definition handleProjectCreate (project : Project) (st : State) : State :=
  {| currentProject := Some project;
     currentStep := 0;
     uploadedFiles := noFiles;
     editingType := None;
     processingStatus := processingStatus st;
     workflowSteps :=
       imap (λ index step, withStatus step (if decide (index = 0) then active else pending))
            (workflowSteps st) |}.

Definition handleProjectLoad (project : Project) (st : State) : State :=
  {| currentProject := Some project;
     currentStep :=
       if truthy (finalVideoPath project) then 4
       else if truthy (processedVideoPath project) || truthy (processedAudioPath project)
       then 3
       else if truthy (originalVideoPath project) then 1
       else 0;
     uploadedFiles := uploadedFiles st;
     editingType := editingType st;
     processingStatus := processingStatus st;
     workflowSteps := workflowSteps st |}.

Definition setUploadedFile (kind : FileKind.t) (file : File) (st : State) : State :=
  {| currentProject := currentProject st;
     currentStep := currentStep st;
     uploadedFiles :=
       match kind with
       | FileKind.video =>
           {| UploadedFiles.image := UploadedFiles.image (uploadedFiles st);
              UploadedFiles.video := Some file;
              UploadedFiles.audio := UploadedFiles.audio (uploadedFiles st) |}
       | FileKind.audio =>
           {| UploadedFiles.image := UploadedFiles.image (uploadedFiles st);
              UploadedFiles.video := UploadedFiles.video (uploadedFiles st);
              UploadedFiles.audio := Some file |}
       | FileKind.image =>
           {| UploadedFiles.image := Some file;
              UploadedFiles.video := UploadedFiles.video (uploadedFiles st);
              UploadedFiles.audio := UploadedFiles.audio (uploadedFiles st) |}
       end;
     editingType := editingType st;
     processingStatus := processingStatus st;
     workflowSteps := workflowSteps st |}.

(** The handler reads [currentProject] and [currentStep] as they were when
    the page was last rendered; the updates are applied in order. *)
Definition handleFileUpload (file : File) (kind : FileKind.t) (st : State) : State :=
  match currentProject st with
  | None => st
  | Some _ =>
      let st1 := updateStepStatus "upload" completed (setUploadedFile kind file st) in
      if decide (currentStep st = 0) then
        updateStepStatus "choose-type" active (setCurrentStep 1 st1)
      else st1
  end.

Definition handleEditingTypeSelect (type : EditingType) (st : State) : State :=
  let st1 :=
    {| currentProject := currentProject st;
       currentStep := currentStep st;
       uploadedFiles := uploadedFiles st;
       editingType := Some type;
       processingStatus := processingStatus st;
       workflowSteps := workflowSteps st |} in
  setCurrentStep 2
    (updateStepStatus "edit" active (updateStepStatus "choose-type" completed st1)).

Definition handleProcessingComplete (st : State) : State :=
  setCurrentStep 3
    (updateStepStatus "preview" active (updateStepStatus "edit" completed st)).

Definition handlePreviewApproved (st : State) : State :=
  setCurrentStep 4
    (updateStepStatus "export" active (updateStepStatus "preview" completed st)).

Definition handleProcessingUpdate (status : ProcessingStatus) (st : State) : State :=
  {| currentProject := currentProject st;
     currentStep := currentStep st;
     uploadedFiles := uploadedFiles st;
     editingType := editingType st;
     processingStatus := status;
     workflowSteps := workflowSteps st |}.

Definition goToStep (stepIndex : nat) (st : State) : State :=
  if decide (stepIndex ≤ currentStep st) then
    {| currentProject := currentProject st;
       currentStep := stepIndex;
       uploadedFiles := uploadedFiles st;
       editingType := editingType st;
       processingStatus := processingStatus st;
       workflowSteps :=
         imap (λ index step,
                 withStatus step
                   (if decide (index < stepIndex) then completed
                    else if decide (index = stepIndex) then active
                    else pending))
              (workflowSteps st) |}
  else st.

(** [currentProject?.processedVideoPath || currentProject?.processedAudioPath]
    as a condition. *)
Definition hasProcessedContent (st : State) : bool :=
  match currentProject st with
  | Some project =>
      truthy (processedVideoPath project) || truthy (processedAudioPath project)
  | None => false
  end.

Definition canProceedToStep (stepIndex : nat) (st : State) : bool :=
  match stepIndex with
  | 1 =>
      negb (missing (UploadedFiles.image (uploadedFiles st))
            && missing (UploadedFiles.video (uploadedFiles st))
            && missing (UploadedFiles.audio (uploadedFiles st)))
  | 2 => bool_decide (is_Some (editingType st))
  | 3 => hasProcessedContent st
  | 4 => hasProcessedContent st
  | _ => true
  end.

(** What can happen to the page: the callbacks it hands to its children,
    which may arrive at any time, and the two controls of its own, a click
    on a step of the navigation bar and the button of the preview step. *)
Inductive Event :=
| ProjectCreate (project : Project)
| ProjectLoad (project : Project)
| FileUpload (file : File) (kind : FileKind.t)
| EditingTypeSelect (type : EditingType)
| ProcessingUpdate (status : ProcessingStatus)
| ProcessingComplete
| StepClick (index : nat)
| ApproveClick.

(** The button "Approve & Continue to Export" is rendered in step 3 and
    disabled without processed content; a step of the bar answers a click
    when [canAccess] holds. *)
Definition handle (st : State) (event : Event) : State :=
  match event with
  | ProjectCreate project => handleProjectCreate project st
  | ProjectLoad project => handleProjectLoad project st
  | FileUpload file kind => handleFileUpload file kind st
  | EditingTypeSelect type => handleEditingTypeSelect type st
  | ProcessingUpdate status => handleProcessingUpdate status st
  | ProcessingComplete => handleProcessingComplete st
  | StepClick index =>
      let canAccess :=
        bool_decide (index ≤ currentStep st) || canProceedToStep index st in
      if canAccess then goToStep index st else st
  | ApproveClick =>
      if bool_decide (currentStep st = 3) && hasProcessedContent st
      then handlePreviewApproved st
      else st
  end.

(** The projects an event hands to the page have no processed content and
    no final video. *)
Definition Unprocessed (event : Event) : Prop :=
  match event with
  | ProjectCreate project | ProjectLoad project =>
      truthy (processedVideoPath project) = false
      ∧ truthy (processedAudioPath project) = false
      ∧ truthy (finalVideoPath project) = false
  | _ => True
  end.

End HomePage.

(** ** A session, for the examples *)

Module Session.

Definition portrait : File :=
  {| file_name := "face.png"; file_type := "image/png"; file_size := 250000;
     file_content := [] |}.

Definition speech : File :=
  {| file_name := "speech.wav"; file_type := "audio/wav"; file_size := 1244;
     file_content := [] |}.

Definition uploaded : UploadedFiles.t :=
  {| UploadedFiles.image := Some portrait; UploadedFiles.video := None;
     UploadedFiles.audio := Some speech |}.

(** 600 samples of silence at 8 kHz. *)
Definition silence : AudioBuffer.t :=
  {| AudioBuffer.numberOfChannels := 1; AudioBuffer.length := 600;
     AudioBuffer.sampleRate := 8000;
     AudioBuffer.samples := λ _ _, 0%Q |}.

(** A decoder that answers with the given buffer. *)
Definition decodeAs (buffer : AudioBuffer.t) : File → option AudioBuffer.t :=
  λ _, Some buffer.

(** A project as the server creates it. *)
Definition draft : HomePage.Project :=
  {| HomePage.id := "p1"; HomePage.name := "Demo";
     HomePage.originalVideoPath := None;
     HomePage.processedVideoPath := None;
     HomePage.processedAudioPath := None;
     HomePage.finalVideoPath := None |}.

(** The way through the steps, with a try at the export at its end. *)
Definition events : list HomePage.Event :=
  [HomePage.ProjectCreate draft;
   HomePage.FileUpload speech FileKind.audio;
   HomePage.EditingTypeSelect HomePage.voice;
   HomePage.ProcessingComplete;
   HomePage.ApproveClick;
   HomePage.StepClick 4].

(** A stand-in for the lower-casing of names already in lower case. *)
Definition lowerCased : string → string := λ name, name.

(** A server that stores every file. *)
Definition stores : File → string → string → bool := λ _ _ _, true.

End Session.

(** * Properties *)

(** ** Generic facts *)

Lemma Qltb_lt (a b : Q) : Qltb a b = true ↔ (a < b)%Q.
Proof.
  unfold Qltb. rewrite negb_true_iff. split.
  - intros Hle. apply Qnot_le_lt. intros Hba.
    apply Qle_bool_iff in Hba. congruence.
  - intros Hlt. destruct (Qle_bool b a) eqn:E; [|done].
    apply Qle_bool_iff in E. exfalso. eapply Qlt_not_le; eauto.
Qed.

Lemma Qltb_ge (a b : Q) : Qltb a b = false ↔ (b <= a)%Q.
Proof.
  unfold Qltb. rewrite negb_false_iff. apply Qle_bool_iff.
Qed.

Lemma range_elem (lo hi i : nat) : i ∈ range lo hi ↔ lo ≤ i < hi.
Proof. unfold range. rewrite elem_of_seq. lia. Qed.

(** ** Smoothing *)

Section SmoothingFacts.
Context {A : Type} `{EqDecision A}.
Implicit Types (shapes w seen : list A) (x y a b : A).

Import Lipsync.

(** The window the loop cuts at an interior index is the inclusive window
    of radius 3. *)
Lemma slice_windowAround shapes (i : nat) :
  windowSize ≤ i →
  slice shapes (i - windowSize) (i + windowSize + 1) = windowAround 3 shapes i.
Proof.
  unfold slice, windowAround, windowSize. intros Hi.
  replace (i + 3 + 1 - (i - 3)) with (2 * 3 + 1) by lia. done.
Qed.

Lemma windowAround_length shapes (i : nat) :
  3 ≤ i → i + 3 < length shapes → length (windowAround 3 shapes i) = 7.
Proof.
  intros Hi Hlen. unfold windowAround.
  rewrite length_take, length_drop. lia.
Qed.

Lemma windowAround_lookup shapes (i k : nat) :
  k < 7 → windowAround 3 shapes i !! k = shapes !! (i - 3 + k).
Proof.
  intros Hk. unfold windowAround.
  rewrite lookup_take_lt by lia. by rewrite lookup_drop.
Qed.

Lemma BestSoFar_step w seen a b :
  BestSoFar w seen a → BestSoFar w (seen ++ [b]) (moreCommon w a b).
Proof.
  intros (k & Hk & Hmax & Hfirst). unfold moreCommon.
  assert (k < length seen) as Hklen by (by eapply lookup_lt_Some).
  destruct (decide (occurrences w b ≤ occurrences w a)) as [Hle|Hgt].
  - exists k. split_and!.
    + by rewrite lookup_app_l.
    + intros y [Hy | ->%list_elem_of_singleton]%elem_of_app; auto.
    + intros j y Hj Hy. rewrite lookup_app_l in Hy by lia. eauto.
  - exists (length seen). split_and!.
    + by rewrite lookup_app_r, Nat.sub_diag.
    + intros y [Hy | ->%list_elem_of_singleton]%elem_of_app; [|done].
      specialize (Hmax y Hy). lia.
    + intros j y Hj Hy. rewrite lookup_app_l in Hy by lia.
      assert (y ∈ seen) as Hin by (by eapply list_elem_of_lookup_2).
      specialize (Hmax y Hin). lia.
Qed.

Lemma foldl_moreCommon w seen rest a :
  BestSoFar w seen a → BestSoFar w (seen ++ rest) (foldl (moreCommon w) a rest).
Proof.
  revert seen a. induction rest as [|b rest IH]; intros seen a Hbest; simpl.
  - by rewrite app_nil_r.
  - replace (seen ++ b :: rest) with ((seen ++ [b]) ++ rest)
      by (by rewrite <- app_assoc).
    apply IH. by apply BestSoFar_step.
Qed.

(** The filter of the code counts the occurrences of a label. *)
Lemma occurrences_countOf w x : occurrences w x = countOf x w.
Proof.
  unfold occurrences. induction w as [|a w IH]; [done|].
  rewrite filter_cons. cbn [countOf].
  destruct (decide (a = x)); cbn [length]; lia.
Qed.

Lemma countOf_absent w x : x ∉ w → countOf x w = 0.
Proof.
  induction w as [|a w IH]; [done|]. intros Hx. cbn [countOf].
  rewrite decide_False by (intros ->; apply Hx; left).
  rewrite IH; [done|]. intros Hin. apply Hx. by right.
Qed.

(** Once the whole window is scanned, the accumulator is its first most
    frequent label. *)
Lemma BestSoFar_all w x : BestSoFar w w x → FirstMostFrequent w x.
Proof.
  intros (k & Hk & Hmax & Hfirst). exists k. split_and!; [done| |].
  - intros y. rewrite <- !occurrences_countOf.
    destruct (decide (y ∈ w)) as [Hin|Hout]; [by apply Hmax|].
    rewrite (occurrences_countOf w y), countOf_absent by done. lia.
  - intros j y Hj Hy. rewrite <- !occurrences_countOf. by eapply Hfirst.
Qed.

(** The reduction returns the first most frequent label of a non-empty
    window, and throws on no other window. *)
Lemma reduce_moreCommon w :
  w ≠ [] → ∃ x, reduce (moreCommon w) w = Some x ∧ FirstMostFrequent w x.
Proof.
  destruct w as [|a rest]; [done|]. intros _.
  eexists. split; [done|].
  apply BestSoFar_all.
  apply (foldl_moreCommon (a :: rest) [a] rest a).
  exists 0. split_and!; [done| |intros; lia].
  by intros y ->%list_elem_of_singleton.
Qed.

(** The specification determines the label. *)
Lemma FirstMostFrequent_unique w x y :
  FirstMostFrequent w x → FirstMostFrequent w y → x = y.
Proof.
  intros (k & Hk & Hmx & Hfx) (j & Hj & Hmy & Hfy).
  destruct (Nat.lt_trichotomy k j) as [Hlt | [-> | Hlt]].
  - specialize (Hfy k x Hlt Hk). specialize (Hmx y). lia.
  - congruence.
  - specialize (Hfx j y Hlt Hj). specialize (Hmy x). lia.
Qed.

Lemma smoothStep_majorityAt shapes (i : nat) (smoothed : list A) :
  smoothStep shapes i smoothed = (λ m, <[i := m]> smoothed) <$> majorityAt shapes i.
Proof. unfold smoothStep, majorityAt. by destruct (reduce _ _). Qed.

Lemma majorityAt_interior shapes (i : nat) :
  3 ≤ i → i + 3 < length shapes →
  ∃ x, majorityAt shapes i = Some x ∧ FirstMostFrequent (windowAround 3 shapes i) x.
Proof.
  intros Hi Hlen. unfold majorityAt.
  rewrite slice_windowAround by done.
  apply reduce_moreCommon.
  intros Hnil. apply (f_equal length) in Hnil.
  rewrite windowAround_length in Hnil by done. done.
Qed.

(** The loop over any list of interior indices, in any order and with
    repetitions: it does not throw, keeps the length, writes the window's
    label at the listed indices and leaves the rest of the copy alone.
    Every window is read from [shapes], never from [smoothed]. *)
Lemma forEach_smoothStep shapes (indices : list nat) (smoothed : list A) :
  length smoothed = length shapes →
  (∀ i, i ∈ indices → 3 ≤ i ∧ i + 3 < length shapes) →
  ∃ out, forEach indices (smoothStep shapes) smoothed = Some out
       ∧ length out = length shapes
       ∧ ∀ j, out !! j = if decide (j ∈ indices) then majorityAt shapes j
                         else smoothed !! j.
Proof.
  revert smoothed. induction indices as [|i rest IH]; intros smoothed Hlen Hint.
  - exists smoothed. split_and!; [done..|].
    intros j. destruct (decide (j ∈ [])) as [Hj|]; [|done]. by apply elem_of_nil in Hj.
  - destruct (Hint i) as [Hi3 Hilen]; [left|].
    destruct (majorityAt_interior shapes i Hi3 Hilen) as (m & Hm & _).
    simpl. rewrite smoothStep_majorityAt, Hm. simpl.
    destruct (IH (<[i := m]> smoothed)) as (out & Hout & Hlenout & Hlook).
    { by rewrite length_insert. }
    { intros j Hj. apply Hint. by right. }
    exists out. split_and!; [done..|].
    intros j. rewrite Hlook.
    destruct (decide (j ∈ rest)) as [Hjr|Hjr].
    + rewrite decide_True; [done | by right].
    + destruct (decide (j = i)) as [->|Hne].
      * rewrite decide_True by left.
        rewrite list_lookup_insert_eq by lia. done.
      * rewrite decide_False.
        -- by rewrite list_lookup_insert_ne.
        -- by intros [?|?]%elem_of_cons.
Qed.

End SmoothingFacts.

Section SmoothingTheorems.
Context {A : Type} `{EqDecision A}.
Implicit Types (shapes s t : list A).

Import Lipsync.

Lemma windowAround_ext s t (i : nat) :
  3 ≤ i → (∀ j, i - 3 ≤ j ≤ i + 3 → s !! j = t !! j) →
  windowAround 3 s i = windowAround 3 t i.
Proof.
  intros Hi Hagree. apply list_eq. intros k.
  destruct (decide (k < 7)) as [Hk|Hk].
  - rewrite !windowAround_lookup by done. apply Hagree. lia.
  - unfold windowAround. rewrite !lookup_take_ge by lia. done.
Qed.

Lemma smoothMouthShapes_enabled settings shapes :
  smoothing settings = true →
  ∃ out, smoothMouthShapes settings shapes = Some out
       ∧ length out = length shapes
       ∧ ∀ j, out !! j = if decide (3 ≤ j ∧ j + 3 < length shapes)
                         then majorityAt shapes j else shapes !! j.
Proof.
  intros Hon. unfold smoothMouthShapes. rewrite Hon. simpl.
  destruct (forEach_smoothStep shapes (range windowSize (length shapes - windowSize)) shapes)
    as (out & Hout & Hlen & Hlook); [done| |].
  { intros i Hi%range_elem. unfold windowSize in Hi. lia. }
  exists out. split_and!; [done..|].
  intros j. rewrite Hlook.
  destruct (decide (3 ≤ j ∧ j + 3 < length shapes)) as [Hj|Hj].
  - rewrite decide_True; [done|]. apply range_elem. unfold windowSize. lia.
  - rewrite decide_False; [done|]. rewrite range_elem. unfold windowSize. lia.
Qed.

(** C7. With smoothing enabled every interior index [3 <= i < length - 3]
    receives the most frequent label of the input window [[i-3, i+3]],
    the first one met in the scan among equally frequent labels; the
    indices within 3 of either end keep their label; with smoothing
    disabled the input is returned as it is; the length never changes. *)
Theorem smoothMouthShapes_majority settings shapes :
  ∃ out, smoothMouthShapes settings shapes = Some out
    ∧ length out = length shapes
    ∧ (smoothing settings = false → out = shapes)
    ∧ (smoothing settings = true →
         (∀ i, 3 ≤ i → i + 3 < length shapes →
            ∃ x, out !! i = Some x ∧ FirstMostFrequent (windowAround 3 shapes i) x)
       ∧ (∀ i, i < 3 ∨ length shapes ≤ i + 3 → out !! i = shapes !! i)).
Proof.
  destruct (smoothing settings) eqn:Hs.
  - destruct (smoothMouthShapes_enabled settings shapes Hs) as (out & Hout & Hlen & Hlook).
    exists out. split_and!; [done..| |].
    + intros; discriminate.
    + intros _. split.
      * intros i Hi Hlt. rewrite Hlook, decide_True by lia.
        by apply majorityAt_interior.
      * intros i Hi. rewrite Hlook, decide_False by lia. done.
  - exists shapes. unfold smoothMouthShapes. rewrite Hs. simpl.
    split_and!; [done..|]. intros; discriminate.
Qed.

(** C9. The filter is local and does not cascade: two inputs of the same
    length that agree on the window [[i-3, i+3]] of an interior index [i]
    are smoothed to the same label at [i]; and visiting the interior
    indices in any other order (even more than once) gives the same
    output, since every window is cut from the input array. *)
Theorem smoothMouthShapes_local settings s t (i : nat) :
  length s = length t →
  3 ≤ i → i + 3 < length s →
  (∀ j, i - 3 ≤ j ≤ i + 3 → s !! j = t !! j) →
  ∃ outs outt,
    smoothMouthShapes settings s = Some outs
    ∧ smoothMouthShapes settings t = Some outt
    ∧ outs !! i = outt !! i
    ∧ (smoothing settings = true →
       ∀ order, (∀ j, j ∈ order ↔ 3 ≤ j ∧ j + 3 < length s) →
                forEach order (smoothStep s) s = Some outs).
Proof.
  intros Hlen Hi Hlt Hagree.
  destruct (smoothing settings) eqn:Hs.
  - destruct (smoothMouthShapes_enabled settings s Hs) as (outs & Houts & Hlens & Hlooks).
    destruct (smoothMouthShapes_enabled settings t Hs) as (outt & Houtt & Hlent & Hlookt).
    exists outs, outt. split_and!; [done..| |].
    + rewrite Hlooks, Hlookt, !decide_True by lia.
      unfold majorityAt. rewrite !slice_windowAround by done.
      by rewrite (windowAround_ext s t i).
    + intros _ order Horder.
      destruct (forEach_smoothStep s order s) as (out & Hout & Hlenout & Hlook);
        [done | by intros j Hj%Horder |].
      rewrite Hout. f_equal. apply list_eq. intros j.
      rewrite Hlook, Hlooks.
      destruct (decide (3 ≤ j ∧ j + 3 < length s)) as [Hj|Hj].
      * rewrite decide_True; [done | by apply Horder].
      * rewrite decide_False; [done | by rewrite Horder].
  - exists s, t. unfold smoothMouthShapes. rewrite Hs. simpl.
    split_and!; [done..| |intros; discriminate].
    apply Hagree. lia.
Qed.

End SmoothingTheorems.

(** C7 at the tied track of seven frames, smoothing enabled.  Frame 3 is
    the only interior frame and its window is the whole track, where "open"
    and "closed" occur three times each and "open" comes first: the theorem
    leaves no other label for frame 3 than "open", and the six other frames
    keep theirs. *)
Lemma smoothMouthShapes_majority_witness :
  ∃ out,
    Lipsync.smoothMouthShapes Lipsync.defaultSettings Lipsync.tiedTrack = Some out
    ∧ length out = 7
    ∧ out !! 3 = Some "open"
    ∧ (∀ i, i < 3 ∨ 7 ≤ i + 3 → out !! i = Lipsync.tiedTrack !! i).
Proof.
  destruct (smoothMouthShapes_majority Lipsync.defaultSettings Lipsync.tiedTrack)
    as (out & Hout & Hlen & _ & Hon).
  destruct (Hon eq_refl) as [Hinner Hedge].
  exists out. split_and!; [done | done | | done].
  destruct (Hinner 3 ltac:(lia) ltac:(simpl; lia)) as (x & Hx & Hfirst).
  rewrite Hx. f_equal.
  apply (FirstMostFrequent_unique _ _ _ Hfirst).
  exists 0. split_and!; [reflexivity | | intros; lia].
  intros y. change (Lipsync.windowAround 3 Lipsync.tiedTrack 3) with Lipsync.tiedTrack.
  change (Lipsync.countOf "open" Lipsync.tiedTrack) with 3.
  unfold Lipsync.tiedTrack. cbn [Lipsync.countOf].
  destruct (decide ("open" = y)) as [<-|?]; [vm_compute; lia|].
  destruct (decide ("closed" = y)) as [<-|?]; [vm_compute; lia|].
  destruct (decide ("wide-open" = y)); lia.
Defined.

(** C9 at two tracks of nine frames that differ only at both ends, outside
    the window of frame 4. *)
Lemma smoothMouthShapes_local_witness :
  ∃ outs outt,
    Lipsync.smoothMouthShapes Lipsync.defaultSettings Lipsync.trackS = Some outs
    ∧ Lipsync.smoothMouthShapes Lipsync.defaultSettings Lipsync.trackT = Some outt
    ∧ outs !! 4 = outt !! 4
    ∧ (Lipsync.smoothing Lipsync.defaultSettings = true →
       ∀ order, (∀ j, j ∈ order ↔ 3 ≤ j ∧ j + 3 < length Lipsync.trackS) →
                forEach order (Lipsync.smoothStep Lipsync.trackS) Lipsync.trackS = Some outs).
Proof.
  apply (smoothMouthShapes_local Lipsync.defaultSettings Lipsync.trackS Lipsync.trackT 4).
  - reflexivity.
  - lia.
  - simpl. lia.
  - intros j Hj.
    destruct j as [|[|[|[|[|[|[|[|j]]]]]]]]; try reflexivity; simpl in Hj; lia.
Defined.

(** ** Classification *)

(** *** Binary64: order and rounding

    The comparisons of binary64 are those of the places on a line
    ([units]), and the product of two numbers is the exact product rounded
    to the nearest number of the format ([magnitude]); rounding keeps the
    order.  The operations are specified by [FloatAxioms], over
    [SpecFloat]. *)

Section Binary64.
Import SpecFloat Doubles.
Local Abbreviation prec := FloatOps.prec.
Local Abbreviation emax := FloatOps.emax.
Local Open Scope Z_scope.

Lemma digits2_pos_bounds (m : positive) :
  2 ^ (Z.pos (digits2_pos m) - 1) ≤ Z.pos m < 2 ^ Z.pos (digits2_pos m).
Proof.
  induction m as [m IH|m IH|]; cbn [digits2_pos].
  - rewrite Pos2Z.inj_succ, Z.pow_succ_r by lia.
    replace (Z.succ (Z.pos (digits2_pos m)) - 1) with (Z.succ (Z.pos (digits2_pos m) - 1)) by lia.
    rewrite Z.pow_succ_r by lia. lia.
  - rewrite Pos2Z.inj_succ, Z.pow_succ_r by lia.
    replace (Z.succ (Z.pos (digits2_pos m)) - 1) with (Z.succ (Z.pos (digits2_pos m) - 1)) by lia.
    rewrite Z.pow_succ_r by lia. lia.
  - simpl. lia.
Qed.

Lemma pow2_pos (a : Z) : 0 ≤ a → 0 < 2 ^ a.
Proof. intros. apply Z.pow_pos_nonneg; lia. Qed.

Lemma pow2_le (a b : Z) : 0 ≤ a ≤ b → 2 ^ a ≤ 2 ^ b.
Proof. intros. apply Z.pow_le_mono_r; lia. Qed.

Lemma pow2_lt (a b : Z) : 0 ≤ a < b → 2 ^ a < 2 ^ b.
Proof. intros. apply Z.pow_lt_mono_r; lia. Qed.

Lemma pow2_lt_inv (a b : Z) : 0 ≤ a → 0 ≤ b → 2 ^ a < 2 ^ b → a < b.
Proof. intros Ha Hb H. apply Z.pow_lt_mono_r_iff in H; lia. Qed.

(** A valid finite number: its exponent is in the range of the format, its
    mantissa has at most 53 bits, and exactly 53 above the least
    exponent. *)
Lemma valid_finite (s : bool) (m : positive) (e : Z) :
  valid_binary prec emax (S754_finite s m e) = true →
  -1074 ≤ e ≤ 971 ∧ Z.pos m < 2 ^ 53 ∧ (-1074 < e → 2 ^ 52 ≤ Z.pos m).
Proof.
  unfold valid_binary, bounded, canonical_mantissa, fexp, emin, FloatOps.prec, FloatOps.emax.
  intros [Hc He]%andb_true_iff.
  apply Z.eqb_eq in Hc. apply Z.leb_le in He.
  pose proof (digits2_pos_bounds m) as [Hlo Hhi].
  set (d := Z.pos (digits2_pos m)) in *.
  assert (0 < d) by (unfold d; lia).
  split; [lia|]. split.
  - eapply Z.lt_le_trans; [exact Hhi|]. apply pow2_le. lia.
  - intros Hnormal. eapply Z.le_trans; [|exact Hlo]. apply pow2_le. lia.
Qed.

Lemma compare_case (c : comparison) (a b : Z) :
  (c = Lt → a < b) → (c = Eq → a = b) → (c = Gt → b < a) → c = (a ?= b).
Proof.
  intros HLt HEq HGt. symmetry. destruct c.
  - apply Z.compare_eq_iff. auto.
  - apply Z.compare_lt_iff. auto.
  - apply Z.compare_gt_iff. auto.
Qed.

Lemma units_finite_bound (s : bool) (m : positive) (e : Z) :
  valid_binary prec emax (S754_finite s m e) = true →
  0 < Z.pos m * 2 ^ (e + 1074) < 2 ^ 2098.
Proof.
  intros (He & Hm & _)%valid_finite.
  pose proof (pow2_pos (e + 1074) ltac:(lia)) as Hp.
  pose proof (pow2_le (e + 1074) 2045 ltac:(lia)) as Hq.
  replace (2 ^ 2098) with (2 ^ 53 * 2 ^ 2045) by (rewrite <- Z.pow_add_r by lia; done).
  set (p := 2 ^ (e + 1074)) in *. set (q := 2 ^ 2045) in *. set (r := 2 ^ 53) in *.
  split; [apply Z.mul_pos_pos; lia|].
  apply Z.lt_le_trans with (r * p).
  - apply Z.mul_lt_mono_pos_r; lia.
  - apply Z.mul_le_mono_nonneg_l; lia.
Qed.

Lemma units_lexicographic (s : bool) (m1 m2 : positive) (e1 e2 : Z) :
  valid_binary prec emax (S754_finite s m1 e1) = true →
  valid_binary prec emax (S754_finite s m2 e2) = true →
  e1 < e2 →
  Z.pos m1 * 2 ^ (e1 + 1074) < Z.pos m2 * 2 ^ (e2 + 1074).
Proof.
  intros (He1 & Hm1 & _)%valid_finite (He2 & _ & Hm2)%valid_finite Hlt.
  specialize (Hm2 ltac:(lia)).
  replace (e2 + 1074) with ((e1 + 1074) + 1 + (e2 - e1 - 1)) by lia.
  rewrite (Z.pow_add_r 2 (e1 + 1074 + 1) (e2 - e1 - 1)) by lia.
  rewrite (Z.pow_add_r 2 (e1 + 1074) 1) by lia.
  pose proof (pow2_pos (e1 + 1074) ltac:(lia)) as Hp.
  pose proof (pow2_pos (e2 - e1 - 1) ltac:(lia)) as Hq.
  change (2 ^ 53) with (2 * 2 ^ 52) in Hm1. change (2 ^ 1) with 2.
  set (p := 2 ^ (e1 + 1074)) in *. set (q := 2 ^ (e2 - e1 - 1)) in *.
  set (r := 2 ^ 52) in *.
  assert (0 < r) by (unfold r; apply pow2_pos; lia).
  assert (Z.pos m1 * p < 2 * r * p) by (apply Z.mul_lt_mono_pos_r; lia).
  assert (2 * r * p ≤ 2 * Z.pos m2 * p) by (apply Z.mul_le_mono_nonneg_r; lia).
  assert (2 * Z.pos m2 * p * 1 ≤ 2 * Z.pos m2 * p * q)
    by (apply Z.mul_le_mono_nonneg_l; lia).
  replace (Z.pos m2 * (p * 2 * q)) with (2 * Z.pos m2 * p * q) by ring.
  lia.
Qed.

(** The order of binary64 is the order of the places on the line. *)
Lemma SFcompare_units (x y : spec_float) :
  valid_binary prec emax x = true → valid_binary prec emax y = true →
  isNaN x = false → isNaN y = false →
  SFcompare x y = Some (units x ?= units y).
Proof.
  intros Hx Hy Nx Ny.
  destruct x as [sx|sx| |sx mx ex]; [| | done |];
    (destruct y as [sy|sy| |sy my ey]; [| | done |]);
    cbn [SFcompare units]; f_equal;
    try pose proof (units_finite_bound _ _ _ Hx) as Bx;
    try pose proof (units_finite_bound _ _ _ Hy) as By;
    assert (0 < 2 ^ 2098) as Hinf by (apply pow2_pos; lia).
  - destruct sy; apply compare_case; intros; try done; lia.
  - destruct sy; apply compare_case; intros; try done; lia.
  - destruct sx; apply compare_case; intros; try done; lia.
  - destruct sx, sy; apply compare_case; intros; try done; lia.
  - destruct sx, sy; apply compare_case; intros; try done; lia.
  - destruct sx; apply compare_case; intros; try done; lia.
  - destruct sx, sy; apply compare_case; intros; try done; lia.
  - destruct sx, sy.
    + apply compare_case; intros Hc.
      * destruct (Z.compare_spec ex ey) as [->|Hlt|Hgt]; [|done|].
        -- apply (f_equal CompOpp) in Hc. rewrite CompOpp_involutive in Hc. simpl in Hc.
           change (Pos.compare_cont Eq mx my) with (mx ?= my)%positive in Hc.
           apply Pos.compare_gt_iff in Hc.
           pose proof (pow2_pos (ey + 1074) ltac:(apply valid_finite in Hx; lia)).
           try rewrite <- Z.opp_lt_mono. apply Z.mul_lt_mono_pos_r; [lia | exact Hc].
        -- rewrite <- Z.opp_lt_mono. by apply (units_lexicographic true).
      * destruct (Z.compare_spec ex ey) as [->|Hlt|Hgt]; [|done..].
        apply (f_equal CompOpp) in Hc. rewrite CompOpp_involutive in Hc. simpl in Hc.
        change (Pos.compare_cont Eq mx my) with (mx ?= my)%positive in Hc.
        apply Pos.compare_eq_iff in Hc. by subst.
      * destruct (Z.compare_spec ex ey) as [->|Hlt|Hgt]; [| |done].
        -- apply (f_equal CompOpp) in Hc. rewrite CompOpp_involutive in Hc. simpl in Hc.
           change (Pos.compare_cont Eq mx my) with (mx ?= my)%positive in Hc.
           apply Pos.compare_lt_iff in Hc.
           pose proof (pow2_pos (ey + 1074) ltac:(apply valid_finite in Hx; lia)).
           try rewrite <- Z.opp_lt_mono. apply Z.mul_lt_mono_pos_r; [lia | exact Hc].
        -- rewrite <- Z.opp_lt_mono. by apply (units_lexicographic true).
    + apply compare_case; intros; try done; lia.
    + apply compare_case; intros; try done; lia.
    + apply compare_case; intros Hc.
      * destruct (Z.compare_spec ex ey) as [->|Hlt|Hgt]; [| |done].
        -- change (Pos.compare_cont Eq mx my) with (mx ?= my)%positive in Hc.
           apply Pos.compare_lt_iff in Hc.
           pose proof (pow2_pos (ey + 1074) ltac:(apply valid_finite in Hx; lia)).
           try rewrite <- Z.opp_lt_mono. apply Z.mul_lt_mono_pos_r; [lia | exact Hc].
        -- by apply (units_lexicographic false).
      * destruct (Z.compare_spec ex ey) as [->|Hlt|Hgt]; [|done..].
        change (Pos.compare_cont Eq mx my) with (mx ?= my)%positive in Hc.
        apply Pos.compare_eq_iff in Hc. by subst.
      * destruct (Z.compare_spec ex ey) as [->|Hlt|Hgt]; [|done|].
        -- change (Pos.compare_cont Eq mx my) with (mx ?= my)%positive in Hc.
           apply Pos.compare_gt_iff in Hc.
           pose proof (pow2_pos (ey + 1074) ltac:(apply valid_finite in Hx; lia)).
           try rewrite <- Z.opp_lt_mono. apply Z.mul_lt_mono_pos_r; [lia | exact Hc].
        -- by apply (units_lexicographic false).
Qed.


(** *** The shift of the rounding *)

Lemma iter_pos_nat {A} (f : A → A) (p : positive) (x : A) :
  iter_pos f p x = Nat.iter (Pos.to_nat p) f x.
Proof.
  revert x. induction p as [p IH|p IH|]; intros x; cbn [iter_pos].
  - rewrite !IH, Pos2Nat.inj_xI.
    replace (S (2 * Pos.to_nat p))%nat with (Pos.to_nat p + S (Pos.to_nat p))%nat by lia.
    rewrite Nat.iter_add, Nat.iter_succ_r. done.
  - rewrite !IH, Pos2Nat.inj_xO.
    replace (2 * Pos.to_nat p)%nat with (Pos.to_nat p + Pos.to_nat p)%nat by lia.
    by rewrite Nat.iter_add.
  - done.
Qed.

Lemma shr_1_nonneg (m : Z) (r s : bool) :
  0 ≤ m →
  shr_1 (Build_shr_record m r s) = Build_shr_record (m / 2) (Z.odd m) (r || s).
Proof.
  intros Hm. destruct m as [|p|p]; [done| |lia].
  destruct p as [p|p|]; cbn [shr_1]; f_equal.
  - rewrite Pos2Z.inj_xI. apply Z.div_unique with 1; lia.
  - rewrite Pos2Z.inj_xO. apply Z.div_unique with 0; lia.
Qed.

(** [k] halvings of [M]: the quotient by [2^k], the bit below it, and
    whether anything is left under that bit. *)
Lemma shr_iter (M : Z) (k : nat) :
  0 ≤ M →
  let rec := Nat.iter k shr_1 (Build_shr_record M false false) in
  let rest := M mod 2 ^ Z.of_nat k in
  shr_m rec = M / 2 ^ Z.of_nat k
  ∧ (shr_r rec = true ↔ 2 ^ Z.of_nat k ≤ 2 * rest)
  ∧ (shr_s rec = true ↔ rest ≠ 0 ∧ 2 * rest ≠ 2 ^ Z.of_nat k).
Proof.
  intros HM. induction k as [|k IH].
  - cbn [Nat.iter shr_m shr_r shr_s]. change (2 ^ Z.of_nat 0) with 1.
    rewrite Z.div_1_r, Z.mod_1_r. split_and!; [done| |]; split; (done || lia).
  - cbv zeta in IH |- *. rewrite Nat.iter_succ.
    destruct (Nat.iter k shr_1 _) as [m r s]. cbn [shr_m shr_r shr_s] in IH.
    destruct IH as (Hm & Hr & Hs).
    set (P := 2 ^ Z.of_nat k) in *.
    assert (0 < P) as HP by (apply pow2_pos; lia).
    assert (2 ^ Z.of_nat (S k) = P * 2) as HP2.
    { rewrite Nat2Z.inj_succ, Z.pow_succ_r by lia. unfold P. lia. }
    rewrite HP2.
    assert (0 ≤ m) as Hm0 by (rewrite Hm; apply Z.div_pos; lia).
    rewrite shr_1_nonneg by done. cbn [shr_m shr_r shr_s].
    rewrite Z.rem_mul_r by lia. rewrite <- Hm.
    pose proof (Z.mod_pos_bound M P HP) as Hrest.
    set (rest := M mod P) in *.
    assert (m mod 2 = if Z.odd m then 1 else 0) as Hbit.
    { rewrite Zmod_odd. done. }
    split_and!.
    + rewrite Hm. by rewrite Z.div_div by lia.
    + rewrite Hbit. destruct (Z.odd m); split; (done || lia).
    + rewrite Hbit. rewrite orb_true_iff, Hr, Hs. destruct (Z.odd m); lia.
Qed.

Lemma round_nearest_even_shr (M : Z) (k : nat) :
  0 ≤ M →
  let rec := Nat.iter k shr_1 (Build_shr_record M false false) in
  round_nearest_even (shr_m rec) (loc_of_shr_record rec) = nearestEven M (Z.of_nat k).
Proof.
  intros HM rec. destruct (shr_iter M k HM) as (Hm & Hr & Hs). fold rec in Hm, Hr, Hs.
  unfold nearestEven. cbv zeta. rewrite <- Hm.
  assert (0 < 2 ^ Z.of_nat k) as HP by (apply pow2_pos; lia).
  pose proof (Z.mod_pos_bound M _ HP) as Hrest.
  destruct rec as [m r s]. cbn [shr_m shr_r shr_s loc_of_shr_record] in *.
  destruct (Z.ltb_spec (2 * (M mod 2 ^ Z.of_nat k)) (2 ^ Z.of_nat k)) as [Hlt|Hge].
  - destruct r; [lia|]. by destruct s.
  - destruct r; [|lia].
    destruct (Z.eqb_spec (2 * (M mod 2 ^ Z.of_nat k)) (2 ^ Z.of_nat k)) as [Heq|Hne].
    + destruct s; [lia|]. done.
    + destruct s; [done|]. lia.
Qed.


(** *** Rounding to the nearest *)

Lemma nearestEven_cases (M n : Z) :
  let P := 2 ^ n in
  let q := M / P in
  let rest := M mod P in
  (nearestEven M n = q ∧ 2 * rest ≤ P ∧ (2 * rest = P → Z.even q = true))
  ∨ (nearestEven M n = q + 1 ∧ P ≤ 2 * rest ∧ (2 * rest = P → Z.even q = false)).
Proof.
  cbv zeta. unfold nearestEven. cbv zeta.
  destruct (Z.ltb_spec (2 * (M mod 2 ^ n)) (2 ^ n)) as [Hlt|Hge].
  - left. split_and!; [done | lia | lia].
  - destruct (Z.eqb_spec (2 * (M mod 2 ^ n)) (2 ^ n)) as [Heq|Hne].
    + destruct (Z.even (M / 2 ^ n)) eqn:Heven.
      * left. split_and!; [done | lia | done].
      * right. split_and!; [done | lia | done].
    + right. split_and!; [done | lia | lia].
Qed.

(** Two numbers on the same grid [G]: the nearest grid points are in the
    order of the numbers. *)
Lemma nearest_monotone (G q1 q2 r1 r2 m1 m2 : Z) :
  0 < G → 0 ≤ r1 < G → 0 ≤ r2 < G →
  q1 * G + r1 ≤ q2 * G + r2 →
  (m1 = q1 ∧ 2 * r1 ≤ G ∧ (2 * r1 = G → Z.even q1 = true))
  ∨ (m1 = q1 + 1 ∧ G ≤ 2 * r1 ∧ (2 * r1 = G → Z.even q1 = false)) →
  (m2 = q2 ∧ 2 * r2 ≤ G ∧ (2 * r2 = G → Z.even q2 = true))
  ∨ (m2 = q2 + 1 ∧ G ≤ 2 * r2 ∧ (2 * r2 = G → Z.even q2 = false)) →
  m1 ≤ m2.
Proof.
  intros HG Hr1 Hr2 Hle Hm1 Hm2.
  destruct (Z.lt_trichotomy q1 q2) as [Hlt|[->|Hgt]].
  - lia.
  - assert (r1 ≤ r2) by lia.
    destruct Hm1 as [(-> & _ & _)|(-> & Hup & Htie)]; [lia|].
    destruct Hm2 as [(-> & Hdown & Htie')|(-> & _ & _)]; [|lia].
    assert (2 * r1 = G) as H1 by lia. assert (2 * r2 = G) as H2 by lia.
    rewrite Htie in Htie' by done. by specialize (Htie' H2).
  - exfalso.
    assert ((q2 + 1) * G ≤ q1 * G) by (apply Z.mul_le_mono_nonneg_r; lia).
    lia.
Qed.


Lemma fexp_eq (x : Z) : fexp prec emax x = Z.max (x - 53) (-1074).
Proof. reflexivity. Qed.

(** The quotient the rounding starts from has at most 53 bits, and exactly
    53 above the least exponent. *)
Lemma rounded_quotient (pm : positive) (E : Z) :
  let e := fexp prec emax (Z.pos (digits2_pos pm) + E) in
  E ≤ e →
  -1074 ≤ e
  ∧ 0 ≤ Z.pos pm / 2 ^ (e - E) < 2 ^ 53
  ∧ (-1074 < e → 2 ^ 52 ≤ Z.pos pm / 2 ^ (e - E)).
Proof.
  intros e. unfold e. rewrite fexp_eq. clear e. intros Hn.
  pose proof (digits2_pos_bounds pm) as [Hlo Hhi].
  set (d := Z.pos (digits2_pos pm)) in *.
  assert (0 < d) as Hd by (unfold d; lia).
  set (e := Z.max (d + E - 53) (-1074)) in *.
  assert (0 < 2 ^ (e - E)) as HP by (apply pow2_pos; lia).
  split; [lia|]. split; [split|].
  - apply Z.div_pos; lia.
  - apply Z.div_lt_upper_bound; [done|].
    rewrite <- Z.pow_add_r by lia.
    eapply Z.lt_le_trans; [exact Hhi|]. apply pow2_le. lia.
  - intros Hnormal. apply Z.div_le_lower_bound; [done|].
    rewrite <- Z.pow_add_r by lia.
    eapply Z.le_trans; [|exact Hlo]. apply pow2_le. lia.
Qed.

Lemma rounded_mantissa (pm : positive) (E : Z) :
  let e := fexp prec emax (Z.pos (digits2_pos pm) + E) in
  E ≤ e →
  (rounded (Z.pos pm) E).2 = e
  ∧ -1074 ≤ e
  ∧ 0 ≤ (rounded (Z.pos pm) E).1 ≤ 2 ^ 53
  ∧ (-1074 < e → 2 ^ 52 ≤ (rounded (Z.pos pm) E).1).
Proof.
  intros e Hn. destruct (rounded_quotient pm E Hn) as (He & Hq & Hnormal).
  fold e in He, Hq, Hnormal.
  unfold rounded. cbn [fst snd Zdigits2]. fold e.
  destruct (nearestEven_cases (Z.pos pm) (e - E)) as [(-> & _)|(-> & _)];
    split_and!; try done; try lia.
  all: intros H; specialize (Hnormal H); lia.
Qed.

Lemma shr_nonpos (mrs : shr_record) (e n : Z) : n ≤ 0 → shr mrs e n = (mrs, e).
Proof. intros Hn. destruct n; [done | lia | done]. Qed.

Lemma shr_fexp_exact (M E : Z) :
  0 ≤ M →
  let n := fexp prec emax (Zdigits2 M + E) - E in
  0 ≤ n →
  shr_fexp prec emax M E loc_Exact
  = (Nat.iter (Z.to_nat n) shr_1 (Build_shr_record M false false), E + n).
Proof.
  intros HM n Hn. unfold shr_fexp. fold n. cbn [shr_record_of_loc].
  destruct n as [|p|p] eqn:E'; [|clear E'|lia].
  - cbn [shr Z.to_nat Nat.iter]. by rewrite Z.add_0_r.
  - cbn [shr]. by rewrite iter_pos_nat.
Qed.

(** The product of two mantissas, rounded: never a NaN, and at the place
    of the line that [magnitude] computes. *)
Lemma binary_round_aux_units (s : bool) (pm : positive) (E : Z) :
  E ≤ fexp prec emax (Z.pos (digits2_pos pm) + E) →
  let R := binary_round_aux prec emax s (Z.pos pm) E loc_Exact in
  isNaN R = false
  ∧ units R = if s then - magnitude (Z.pos pm) E else magnitude (Z.pos pm) E.
Proof.
  intros Hn.
  destruct (rounded_mantissa pm E Hn) as (He2 & He & Hm1 & Hnormal).
  unfold magnitude. rewrite He2.
  set (e := fexp prec emax (Z.pos (digits2_pos pm) + E)) in *.
  unfold binary_round_aux.
  rewrite shr_fexp_exact by (cbn [Zdigits2]; fold e; lia).
  cbn [Zdigits2]. fold e.
  rewrite round_nearest_even_shr by lia.
  rewrite Z2Nat.id by lia.
  replace (E + (e - E)) with e by lia.
  change (nearestEven (Z.pos pm) (e - E)) with (rounded (Z.pos pm) E).1.
  set (m1 := (rounded (Z.pos pm) E).1) in *. clearbody m1.
  assert (0 < 2 ^ (e + 1074)) as Hp by (apply pow2_pos; lia).
  assert (0 < 2 ^ 2098) as Hinf by (apply pow2_pos; lia).
  destruct (decide (m1 = 0)) as [->|Hpos].
  { unfold shr_fexp. cbn [Zdigits2 shr_record_of_loc].
    rewrite shr_nonpos by (rewrite fexp_eq; lia).
    cbn [shr_m isNaN units]. rewrite Z.mul_0_l, Z.min_l by lia.
    by destruct s. }
  destruct (decide (m1 = 2 ^ 53)) as [->|Hsmall].
  { unfold shr_fexp. change (Zdigits2 (2 ^ 53)) with 54.
    rewrite fexp_eq. replace (Z.max (54 + e - 53) (-1074) - e) with 1 by lia.
    cbn [shr_record_of_loc shr iter_pos].
    change (shr_m (shr_1 {| shr_m := 2 ^ 53; shr_r := false; shr_s := false |}))
      with (2 ^ 52).
    change (2 ^ 52) with (Z.pos (2 ^ 52)) at 1 2.
    cbv beta iota.
    replace (2 ^ 53 * 2 ^ (e + 1074)) with (2 ^ 52 * 2 ^ (e + 1 + 1074)).
    2:{ replace (e + 1 + 1074) with (e + 1074 + 1) by lia.
        rewrite Z.pow_add_r by lia. change (2 ^ 53) with (2 ^ 52 * 2 ^ 1). ring. }
    destruct (Z.leb_spec (e + 1) (emax - prec)) as [Hfin|Hover];
      change (emax - prec) with 971 in *; cbn [isNaN units].
    - assert (2 ^ 52 * 2 ^ (e + 1 + 1074) < 2 ^ 2098) as Hlt.
      { change (2 ^ 2098) with (2 ^ 52 * 2 ^ 2046).
        apply Z.mul_lt_mono_pos_l; [done|].
        pose proof (pow2_le (e + 1 + 1074) 2045 ltac:(lia)).
        pose proof (pow2_lt 2045 2046 ltac:(lia)). lia. }
      rewrite Z.min_l by lia. split; [done|].
      change (Z.pos (2 ^ 52)) with (2 ^ 52). done.
    - assert (2 ^ 2098 ≤ 2 ^ 52 * 2 ^ (e + 1 + 1074)) as Hge.
      { change (2 ^ 2098) with (2 ^ 52 * 2 ^ 2046).
        apply Z.mul_le_mono_nonneg_l; [done|]. apply pow2_le. lia. }
      rewrite Z.min_r by lia. done. }
  destruct m1 as [|p1|p1]; [done| |lia].
  pose proof (digits2_pos_bounds p1) as [Hd1 Hd2].
  assert (Z.pos (digits2_pos p1) ≤ 53) as Hdigits.
  { assert (Z.pos (digits2_pos p1) - 1 < 53); [|lia].
    apply pow2_lt_inv; [lia..|]. lia. }
  unfold shr_fexp. cbn [Zdigits2 shr_record_of_loc].
  rewrite shr_nonpos by (rewrite fexp_eq; lia).
  cbn [shr_m].
  destruct (Z.leb_spec e (emax - prec)) as [Hfin|Hover];
    change (emax - prec) with 971 in *; cbn [isNaN units].
  - assert (Z.pos p1 * 2 ^ (e + 1074) < 2 ^ 2098) as Hlt.
    { change (2 ^ 2098) with (2 ^ 53 * 2 ^ 2045).
      apply Z.lt_le_trans with (2 ^ 53 * 2 ^ (e + 1074)).
      - apply Z.mul_lt_mono_pos_r; lia.
      - apply Z.mul_le_mono_nonneg_l; [done|]. apply pow2_le. lia. }
    rewrite Z.min_l by lia. done.
  - assert (2 ^ 2098 ≤ Z.pos p1 * 2 ^ (e + 1074)) as Hge.
    { change (2 ^ 2098) with (2 ^ 52 * 2 ^ 2046).
      apply Z.le_trans with (2 ^ 52 * 2 ^ (e + 1074)).
      - apply Z.mul_le_mono_nonneg_l; [done|]. apply pow2_le. lia.
      - apply Z.mul_le_mono_nonneg_r; [lia|]. apply Hnormal. lia. }
    rewrite Z.min_r by lia. done.
Qed.


(** A number [M * 2^E] on its grid: quotient and rest, scaled by [2^K]. *)
Lemma on_grid (pm : positive) (E K : Z) :
  let e := fexp prec emax (Z.pos (digits2_pos pm) + E) in
  E ≤ e → 0 ≤ E + K →
  let q := Z.pos pm / 2 ^ (e - E) in
  let m := (rounded (Z.pos pm) E).1 in
  ∃ r, Z.pos pm * 2 ^ (E + K) = q * 2 ^ (e + K) + r
     ∧ 0 ≤ r < 2 ^ (e + K)
     ∧ ((m = q ∧ 2 * r ≤ 2 ^ (e + K) ∧ (2 * r = 2 ^ (e + K) → Z.even q = true))
        ∨ (m = q + 1 ∧ 2 ^ (e + K) ≤ 2 * r
           ∧ (2 * r = 2 ^ (e + K) → Z.even q = false))).
Proof.
  intros e Hn HK q m.
  assert (2 ^ (e + K) = 2 ^ (e - E) * 2 ^ (E + K)) as HG.
  { rewrite <- Z.pow_add_r by lia. f_equal. lia. }
  assert (0 < 2 ^ (e - E)) as HP by (apply pow2_pos; lia).
  assert (0 < 2 ^ (E + K)) as HS by (apply pow2_pos; lia).
  pose proof (Z.div_mod (Z.pos pm) (2 ^ (e - E)) ltac:(lia)) as Hdm.
  pose proof (Z.mod_pos_bound (Z.pos pm) (2 ^ (e - E)) HP) as Hrest.
  pose proof (nearestEven_cases (Z.pos pm) (e - E)) as Hcases. cbv zeta in Hcases.
  change (nearestEven (Z.pos pm) (e - E)) with m in Hcases. fold q in Hdm, Hcases.
  set (P := 2 ^ (e - E)) in *. set (S := 2 ^ (E + K)) in *.
  set (rest := Z.pos pm mod P) in *.
  exists (rest * S). rewrite HG.
  assert (∀ a b, a ≤ b → a * S ≤ b * S) as Hmono
    by (intros; apply Z.mul_le_mono_nonneg_r; lia).
  assert (∀ a b, a * S = b * S → a = b) as Hcancel
    by (intros a b H; apply Z.mul_cancel_r in H; lia).
  split_and!.
  - rewrite Hdm at 1. ring.
  - apply Z.mul_nonneg_nonneg; lia.
  - apply Z.mul_lt_mono_pos_r; lia.
  - destruct Hcases as [(Hm & Hle & Htie)|(Hm & Hge & Htie)]; [left|right];
      (split; [done|]); split.
    + replace (2 * (rest * S)) with (2 * rest * S) by ring. by apply Hmono.
    + intros H. apply Htie. apply Hcancel. rewrite <- H. ring.
    + replace (2 * (rest * S)) with (2 * rest * S) by ring. by apply Hmono.
    + intros H. apply Htie. apply Hcancel. rewrite <- H. ring.
Qed.

(** Rounding keeps the order: of two positive numbers [M1 * 2^E1] and
    [M2 * 2^E2], the larger is rounded to the larger binary64 number (or
    to the same one). *)
Lemma magnitude_monotone (p1 p2 : positive) (E1 E2 K : Z) :
  E1 ≤ fexp prec emax (Z.pos (digits2_pos p1) + E1) →
  E2 ≤ fexp prec emax (Z.pos (digits2_pos p2) + E2) →
  0 ≤ E1 + K → 0 ≤ E2 + K →
  Z.pos p1 * 2 ^ (E1 + K) ≤ Z.pos p2 * 2 ^ (E2 + K) →
  magnitude (Z.pos p1) E1 ≤ magnitude (Z.pos p2) E2.
Proof.
  intros Hn1 Hn2 HK1 HK2 Hle.
  destruct (rounded_mantissa p1 E1 Hn1) as (He1 & Hmin1 & Hm1 & Hnormal1).
  destruct (rounded_mantissa p2 E2 Hn2) as (He2 & Hmin2 & Hm2 & Hnormal2).
  destruct (rounded_quotient p1 E1 Hn1) as (_ & Hq1 & Hqn1).
  destruct (rounded_quotient p2 E2 Hn2) as (_ & Hq2 & Hqn2).
  destruct (on_grid p1 E1 K Hn1 HK1) as (r1 & HX1 & Hr1 & Hc1).
  destruct (on_grid p2 E2 K Hn2 HK2) as (r2 & HX2 & Hr2 & Hc2).
  unfold magnitude. rewrite He1, He2. apply Z.min_le_compat_r.
  set (e1 := fexp prec emax (Z.pos (digits2_pos p1) + E1)) in *.
  set (e2 := fexp prec emax (Z.pos (digits2_pos p2) + E2)) in *.
  set (m1 := (rounded (Z.pos p1) E1).1) in *.
  set (m2 := (rounded (Z.pos p2) E2).1) in *.
  set (q1 := Z.pos p1 / 2 ^ (e1 - E1)) in *.
  set (q2 := Z.pos p2 / 2 ^ (e2 - E2)) in *.
  clearbody m1 m2 q1 q2 e1 e2.
  assert (0 < 2 ^ 52) as H52 by done.
  change (2 ^ 53) with (2 * 2 ^ 52) in *.
  set (h := 2 ^ 52) in *. clearbody h.
  destruct (Z.lt_trichotomy e1 e2) as [Hlt|[->|Hgt]].
  - specialize (Hnormal2 ltac:(lia)).
    assert (0 < 2 ^ (e1 + 1074)) as Hp by (apply pow2_pos; lia).
    assert (2 * 2 ^ (e1 + 1074) ≤ 2 ^ (e2 + 1074)) as Hstep.
    { change 2 with (2 ^ 1) at 1. rewrite <- Z.pow_add_r by lia. apply pow2_le. lia. }
    set (a := 2 ^ (e1 + 1074)) in *. set (b := 2 ^ (e2 + 1074)) in *. clearbody a b.
    apply Z.le_trans with (2 * h * a).
    { apply Z.mul_le_mono_nonneg_r; lia. }
    apply Z.le_trans with (h * b).
    { replace (2 * h * a) with (h * (2 * a)) by ring.
      apply Z.mul_le_mono_nonneg_l; lia. }
    apply Z.mul_le_mono_nonneg_r; lia.
  - assert (0 < 2 ^ (e2 + K)) as HG by (apply pow2_pos; lia).
    assert (m1 ≤ m2) as Hm.
    { apply (nearest_monotone (2 ^ (e2 + K)) q1 q2 r1 r2); try done. lia. }
    apply Z.mul_le_mono_nonneg_r; [|done].
    apply Z.lt_le_incl, pow2_pos. lia.
  - exfalso. specialize (Hqn1 ltac:(lia)).
    assert (0 < 2 ^ (e2 + K)) as Hp by (apply pow2_pos; lia).
    assert (2 * 2 ^ (e2 + K) ≤ 2 ^ (e1 + K)) as Hstep.
    { change 2 with (2 ^ 1) at 1. rewrite <- Z.pow_add_r by lia. apply pow2_le. lia. }
    set (a := 2 ^ (e2 + K)) in *. set (b := 2 ^ (e1 + K)) in *. clearbody a b.
    assert (h * b ≤ q1 * b) by (apply Z.mul_le_mono_nonneg_r; lia).
    assert ((q2 + 1) * a ≤ 2 * h * a) by (apply Z.mul_le_mono_nonneg_r; lia).
    assert (h * (2 * a) ≤ h * b) by (apply Z.mul_le_mono_nonneg_l; lia).
    lia.
Qed.


(** *** Multiplication by a positive constant *)

Lemma SFmul_comm (x y : spec_float) : SFmul prec emax x y = SFmul prec emax y x.
Proof.
  destruct x as [sx|sx| |sx mx ex], y as [sy|sy| |sy my ey]; cbn [SFmul];
    rewrite ?(xorb_comm sx sy); try done.
  by rewrite (Pos.mul_comm mx my), (Z.add_comm ex ey).
Qed.

Lemma float_mul_comm (x y : PrimFloat.float) : PrimFloat.mul x y = PrimFloat.mul y x.
Proof.
  apply FloatAxioms.Prim2SF_inj. rewrite !FloatAxioms.mul_spec.
  apply SFmul_comm.
Qed.

(** The product of a binary64 number and a positive normal constant: a
    NaN only for a NaN; otherwise at the place of the line that
    [magnitude] computes, on the side of the number. *)
Lemma SFmul_constant (x : spec_float) (mc : positive) (ec : Z) :
  valid_binary prec emax x = true →
  2 ^ 52 ≤ Z.pos mc →
  let R := SFmul prec emax x (S754_finite false mc ec) in
  isNaN R = isNaN x
  ∧ match x with
    | S754_finite s m e =>
        units R = if s then - magnitude (Z.pos (m * mc)) (e + ec)
                  else magnitude (Z.pos (m * mc)) (e + ec)
    | _ => units R = units x
    end.
Proof.
  intros Hvalid Hmc.
  destruct x as [s|s| |s m e]; cbn [SFmul isNaN units]; rewrite ?xorb_false_r;
    [done..|].
  apply binary_round_aux_units.
  rewrite fexp_eq.
  pose proof (digits2_pos_bounds (m * mc)) as [_ Hhi].
  assert (52 < Z.pos (digits2_pos (m * mc))); [|lia].
  apply pow2_lt_inv; [lia..|].
  eapply Z.le_lt_trans; [|exact Hhi].
  rewrite Pos2Z.inj_mul.
  replace (2 ^ 52) with (1 * 2 ^ 52) by lia.
  apply Z.mul_le_mono_nonneg; lia.
Qed.

(** Two positive normal constants [c1 <= c2]: the products of a number
    with them are in that order for a positive number, in the opposite
    order for a negative one. *)
Lemma SFmul_constants_order (x : spec_float) (mc1 mc2 : positive) (ec1 ec2 : Z) :
  valid_binary prec emax x = true →
  2 ^ 52 ≤ Z.pos mc1 → 2 ^ 52 ≤ Z.pos mc2 →
  -60 ≤ ec1 → -60 ≤ ec2 →
  Z.pos mc1 * 2 ^ (ec1 + 60) ≤ Z.pos mc2 * 2 ^ (ec2 + 60) →
  let R1 := SFmul prec emax x (S754_finite false mc1 ec1) in
  let R2 := SFmul prec emax x (S754_finite false mc2 ec2) in
  if negative x then units R2 ≤ units R1 else units R1 ≤ units R2.
Proof.
  intros Hvalid Hmc1 Hmc2 Hec1 Hec2 Hle R1 R2.
  destruct (SFmul_constant x mc1 ec1 Hvalid Hmc1) as [_ Hu1].
  destruct (SFmul_constant x mc2 ec2 Hvalid Hmc2) as [_ Hu2].
  fold R1 in Hu1. fold R2 in Hu2.
  destruct x as [s|s| |s m e]; cbn [negative];
    [rewrite Hu1, Hu2; by destruct s.. | rewrite Hu1, Hu2; done |].
  apply valid_finite in Hvalid as (He & _ & _).
  assert (magnitude (Z.pos (m * mc1)) (e + ec1) ≤ magnitude (Z.pos (m * mc2)) (e + ec2))
    as Hmag.
  { assert (∀ mc, 2 ^ 52 ≤ Z.pos mc → ∀ ec,
              e + ec ≤ fexp prec emax (Z.pos (digits2_pos (m * mc)) + (e + ec))) as Hgrid.
    { intros mc Hmc ec. rewrite fexp_eq.
      pose proof (digits2_pos_bounds (m * mc)) as [_ Hhi].
      assert (52 < Z.pos (digits2_pos (m * mc))); [|lia].
      apply pow2_lt_inv; [lia..|].
      eapply Z.le_lt_trans; [|exact Hhi].
      rewrite Pos2Z.inj_mul.
      replace (2 ^ 52) with (1 * 2 ^ 52) by lia.
      apply Z.mul_le_mono_nonneg; lia. }
    apply (magnitude_monotone _ _ _ _ 1134); [by apply Hgrid | by apply Hgrid | lia | lia |].
    replace (e + ec1 + 1134) with ((e + 1074) + (ec1 + 60)) by lia.
    replace (e + ec2 + 1134) with ((e + 1074) + (ec2 + 60)) by lia.
    rewrite (Z.pow_add_r 2 (e + 1074) (ec1 + 60)) by lia.
    rewrite (Z.pow_add_r 2 (e + 1074) (ec2 + 60)) by lia.
    rewrite !Pos2Z.inj_mul.
    assert (0 < 2 ^ (e + 1074)) as Hp by (apply pow2_pos; lia).
    set (p := 2 ^ (e + 1074)) in *. clearbody p.
    replace (Z.pos m * Z.pos mc1 * (p * 2 ^ (ec1 + 60)))
      with (Z.pos m * p * (Z.pos mc1 * 2 ^ (ec1 + 60))) by ring.
    replace (Z.pos m * Z.pos mc2 * (p * 2 ^ (ec2 + 60)))
      with (Z.pos m * p * (Z.pos mc2 * 2 ^ (ec2 + 60))) by ring.
    apply Z.mul_le_mono_nonneg_l; [|done].
    apply Z.mul_nonneg_nonneg; lia. }
  rewrite Hu1, Hu2. destruct s; lia.
Qed.

(** *** The comparisons of binary64 *)

Lemma ltb_units (a b : PrimFloat.float) :
  PrimFloat.ltb a b = true
  ↔ isNaN (FloatOps.Prim2SF a) = false ∧ isNaN (FloatOps.Prim2SF b) = false
    ∧ units (FloatOps.Prim2SF a) < units (FloatOps.Prim2SF b).
Proof.
  rewrite FloatAxioms.ltb_spec. unfold SFltb.
  pose proof (FloatAxioms.Prim2SF_valid a) as Ha.
  pose proof (FloatAxioms.Prim2SF_valid b) as Hb.
  destruct (isNaN (FloatOps.Prim2SF a)) eqn:Na.
  { destruct (FloatOps.Prim2SF a); try done. cbn [SFcompare]. split; [done|]. by intros [? _]. }
  destruct (isNaN (FloatOps.Prim2SF b)) eqn:Nb.
  { destruct (FloatOps.Prim2SF b); try done.
    assert (∀ x, SFcompare x S754_nan = None) as -> by (by intros []).
    split; [done|]. by intros (_ & ? & _). }
  rewrite (SFcompare_units _ _ Ha Hb Na Nb).
  destruct (Z.compare_spec (units (FloatOps.Prim2SF a)) (units (FloatOps.Prim2SF b)));
    split; try done; try lia; by intros (_ & _ & ?); lia.
Qed.

Lemma leb_units (a b : PrimFloat.float) :
  PrimFloat.leb a b = true
  ↔ isNaN (FloatOps.Prim2SF a) = false ∧ isNaN (FloatOps.Prim2SF b) = false
    ∧ units (FloatOps.Prim2SF a) ≤ units (FloatOps.Prim2SF b).
Proof.
  rewrite FloatAxioms.leb_spec. unfold SFleb.
  pose proof (FloatAxioms.Prim2SF_valid a) as Ha.
  pose proof (FloatAxioms.Prim2SF_valid b) as Hb.
  destruct (isNaN (FloatOps.Prim2SF a)) eqn:Na.
  { destruct (FloatOps.Prim2SF a); try done. cbn [SFcompare]. split; [done|]. by intros [? _]. }
  destruct (isNaN (FloatOps.Prim2SF b)) eqn:Nb.
  { destruct (FloatOps.Prim2SF b); try done.
    assert (∀ x, SFcompare x S754_nan = None) as -> by (by intros []).
    split; [done|]. by intros (_ & ? & _). }
  rewrite (SFcompare_units _ _ Ha Hb Na Nb).
  destruct (Z.compare_spec (units (FloatOps.Prim2SF a)) (units (FloatOps.Prim2SF b)));
    split; try done; try lia; by intros (_ & _ & ?); lia.
Qed.


End Binary64.

(** *** The three thresholds of the classifier *)

Section Thresholds.
Import SpecFloat Doubles PrimFloat.
Local Abbreviation prec := FloatOps.prec.
Local Abbreviation emax := FloatOps.emax.
Local Open Scope Z_scope.

Set Warnings "-inexact-float".

Lemma Prim2SF_fractions :
  FloatOps.Prim2SF 0.3%float = S754_finite false 5404319552844595 (-54)
  ∧ FloatOps.Prim2SF 0.6%float = S754_finite false 5404319552844595 (-53)
  ∧ FloatOps.Prim2SF 0.8%float = S754_finite false 7205759403792794 (-53).
Proof. split_and!; reflexivity. Qed.

(** The three products are NaN only for a NaN threshold, and they are in
    the order of the fractions for a positive threshold, in the opposite
    order for a negative one. *)
Lemma thresholds_ordered (threshold : PrimFloat.float) :
  let t3 := FloatOps.Prim2SF (PrimFloat.mul 0.3%float threshold) in
  let t6 := FloatOps.Prim2SF (PrimFloat.mul 0.6%float threshold) in
  let t8 := FloatOps.Prim2SF (PrimFloat.mul 0.8%float threshold) in
  isNaN t3 = isNaN (FloatOps.Prim2SF threshold)
  ∧ isNaN t6 = isNaN (FloatOps.Prim2SF threshold)
  ∧ isNaN t8 = isNaN (FloatOps.Prim2SF threshold)
  ∧ ((units t3 ≤ units t6 ∧ units t6 ≤ units t8)
     ∨ (units t8 ≤ units t6 ∧ units t6 ≤ units t3)).
Proof.
  cbv zeta. rewrite !(float_mul_comm _ threshold), !FloatAxioms.mul_spec.
  destruct Prim2SF_fractions as (-> & -> & ->).
  pose proof (FloatAxioms.Prim2SF_valid threshold) as Hvalid.
  unfold FloatAxioms.SF64mul.
  set (x := FloatOps.Prim2SF threshold) in *. clearbody x.
  assert (2 ^ 52 ≤ 5404319552844595) as H3 by lia.
  assert (2 ^ 52 ≤ 7205759403792794) as H8 by lia.
  destruct (SFmul_constant x 5404319552844595 (-54) Hvalid H3) as [-> _].
  destruct (SFmul_constant x 5404319552844595 (-53) Hvalid H3) as [-> _].
  destruct (SFmul_constant x 7205759403792794 (-53) Hvalid H8) as [-> _].
  split_and!; [done..|].
  pose proof (SFmul_constants_order x 5404319552844595 5404319552844595 (-54) (-53)
                Hvalid H3 H3 ltac:(lia) ltac:(lia) ltac:(by vm_compute)) as H36.
  pose proof (SFmul_constants_order x 5404319552844595 7205759403792794 (-53) (-53)
                Hvalid H3 H8 ltac:(lia) ltac:(lia) ltac:(by vm_compute)) as H68.
  cbv zeta in H36, H68. destruct (negative x); [right | left]; done.
Qed.

(** C5. Every amplitude is mapped to the band it falls in, and the output
    has one label per amplitude.  The amplitudes and the threshold are any
    binary64 numbers; the band edges are the products [0.3 * threshold],
    [0.6 * threshold] and [0.8 * threshold] as binary64 computes them. *)
Theorem generateMouthShapes_bands (threshold : PrimFloat.float)
    (amplitudes : list PrimFloat.float) :
  length (Doubles.generateMouthShapes threshold amplitudes) = length amplitudes
  ∧ ∀ i a, amplitudes !! i = Some a →
      ∃ shape, Doubles.generateMouthShapes threshold amplitudes !! i = Some shape
             ∧ Doubles.InBand threshold a shape.
Proof.
  unfold Doubles.generateMouthShapes. split; [apply length_map|].
  intros i a Ha. exists (Doubles.mouthShapeOfDouble threshold a).
  split; [by rewrite list_lookup_fmap, Ha|].
  unfold Doubles.mouthShapeOfDouble, Doubles.InBand. cbv zeta.
  rewrite !(float_mul_comm threshold).
  destruct (thresholds_ordered threshold) as (N3 & N6 & N8 & Hord). cbv zeta in *.
  set (t3 := PrimFloat.mul 0.3%float threshold) in *.
  set (t6 := PrimFloat.mul 0.6%float threshold) in *.
  set (t8 := PrimFloat.mul 0.8%float threshold) in *.
  pose proof (ltb_units a t3) as L3. pose proof (ltb_units a t6) as L6.
  pose proof (ltb_units a t8) as L8.
  pose proof (leb_units t3 a) as G3. pose proof (leb_units t6 a) as G6.
  rewrite N3 in L3, G3. rewrite N6 in L6, G6. rewrite N8 in L8.
  clear N3 N6 N8.
  set (u3 := units (FloatOps.Prim2SF t3)) in *. set (u6 := units (FloatOps.Prim2SF t6)) in *.
  set (u8 := units (FloatOps.Prim2SF t8)) in *. set (u := units (FloatOps.Prim2SF a)) in *.
  clearbody u3 u6 u8 u.
  destruct (isNaN (FloatOps.Prim2SF a)), (isNaN (FloatOps.Prim2SF threshold));
    destruct (PrimFloat.ltb a t3), (PrimFloat.ltb a t6), (PrimFloat.ltb a t8),
      (PrimFloat.leb t3 a), (PrimFloat.leb t6 a);
    split_and!; intros; try done; exfalso; intuition (try discriminate; try lia).
Qed.

Set Warnings "+inexact-float".

End Thresholds.

(** C5 at the threshold 0.5, one amplitude in each band.  The amplitude
    [220.5 / 1470] is the binary64 number next to 0.15, and so is the
    product [0.3 * 0.5]: the amplitude sits on the lower edge of the second
    band, and the theorem leaves it no other label than "slightly-open". *)
Lemma generateMouthShapes_bands_witness :
  let shapes := Doubles.generateMouthShapes Doubles.edgeThreshold Doubles.edgeAmplitudes in
  shapes !! 0 = Some "slightly-open"
  ∧ shapes !! 1 = Some "closed"
  ∧ shapes !! 2 = Some "open"
  ∧ shapes !! 3 = Some "wide-open"
  ∧ length shapes = 4.
Proof.
  destruct (generateMouthShapes_bands Doubles.edgeThreshold Doubles.edgeAmplitudes)
    as [Hlen Hband].
  split_and!; [| | | |exact Hlen].
  - destruct (Hband 0 _ eq_refl) as (shape & -> & _ & Hslightly & _).
    f_equal. apply Hslightly; reflexivity.
  - destruct (Hband 1 _ eq_refl) as (shape & -> & Hclosed & _).
    f_equal. apply Hclosed; reflexivity.
  - destruct (Hband 2 _ eq_refl) as (shape & -> & _ & _ & Hopen & _).
    f_equal. apply Hopen; reflexivity.
  - destruct (Hband 3 _ eq_refl) as (shape & -> & _ & _ & _ & Hwide).
    f_equal. apply Hwide.
    + discriminate.
    + intros [_ H]. discriminate H.
    + intros [_ H]. discriminate H.
Defined.

(** Scenario B, as the code computes it: 0.05 is not below 0.3 * 0.1 but is
    below 0.6 * 0.1, and 0.4 is above 0.8 * 0.1. *)
Lemma scenarioB_classified :
  Lipsync.generateMouthShapes Lipsync.scenarioB_settings Lipsync.scenarioB_envelope
  = Lipsync.scenarioB_shapes.
Proof. reflexivity. Qed.

(** The same run on IEEE doubles. *)
Lemma scenarioB_in_doubles :
  map (Doubles.mouthShapeOfDouble Doubles.scenarioB_threshold) Doubles.scenarioB_doubles
  = Lipsync.scenarioB_shapes.
Proof. reflexivity. Qed.

(** The interior frame of the tied track takes the label met first. *)
Example smoothMouthShapes_tie :
  Lipsync.smoothMouthShapes Lipsync.defaultSettings Lipsync.tiedTrack
  = Some ["open"; "closed"; "open"; "open"; "open"; "closed"; "wide-open"].
Proof. reflexivity. Qed.

(** C6, as the code behaves: with threshold 0.1 and smoothing disabled the
    envelope of scenario B is classified as slightly-open, slightly-open,
    wide-open, wide-open, wide-open, slightly-open, slightly-open. *)
Theorem scenarioB_pipeline :
  Lipsync.generateMouthShapes Lipsync.scenarioB_settings Lipsync.scenarioB_envelope
    = ["slightly-open"; "slightly-open"; "wide-open"; "wide-open"; "wide-open";
       "slightly-open"; "slightly-open"]
  ∧ Lipsync.smoothMouthShapes Lipsync.scenarioB_settings
      (Lipsync.generateMouthShapes Lipsync.scenarioB_settings Lipsync.scenarioB_envelope)
    = Some ["slightly-open"; "slightly-open"; "wide-open"; "wide-open"; "wide-open";
            "slightly-open"; "slightly-open"].
Proof. split; reflexivity. Qed.

(** C6, as stated, fails: the sequence is not closed, closed, open, open,
    open, closed, closed. *)
Lemma scenarioB_not_as_claimed :
  Lipsync.generateMouthShapes Lipsync.scenarioB_settings Lipsync.scenarioB_envelope
  ≠ ["closed"; "closed"; "open"; "open"; "open"; "closed"; "closed"].
Proof. rewrite scenarioB_classified. discriminate. Qed.

(** ** Envelope analysis *)

Section AnalyzeFacts.
Import Lipsync.
Implicit Types (data : Float32Array) (w i fuel : nat) (acc : list Q).

Lemma foldl_Qsum (f : nat → Q) (l : list nat) (a : Q) :
  (foldl (λ sum j, sum + f j) a l == a + Qsum (map f l))%Q.
Proof.
  revert a. induction l as [|j l IH]; intros a; simpl.
  - ring.
  - rewrite IH. ring.
Qed.

Lemma foldl_nonneg (f : nat → Q) (l : list nat) (a : Q) :
  (0 <= a)%Q → (∀ j, 0 <= f j)%Q → (0 <= foldl (λ sum j, sum + f j) a l)%Q.
Proof.
  intros Ha Hf. revert a Ha. induction l as [|j l IH]; intros a Ha; simpl; [done|].
  apply IH. specialize (Hf j). lra.
Qed.

Lemma sumAbs_nonneg data i (e : nat) : (0 <= sumAbs data i e)%Q.
Proof.
  unfold sumAbs. apply (foldl_nonneg (λ j, Qabs (f32_at data j))); [lra|].
  intros j. apply Qabs_nonneg.
Qed.

Lemma Qdiv_nat_nonneg (x : Q) (n : nat) :
  (0 <= x)%Q → (0 <= x / inject_Z (Z.of_nat n))%Q.
Proof.
  intros Hx. unfold Qdiv. apply Qmult_le_0_compat; [done|].
  apply Qinv_le_0_compat. change 0%Q with (inject_Z 0).
  rewrite <- Zle_Qle. lia.
Qed.

(** The amplitude one iteration pushes. *)
Lemma amplitude_meanAbs data i (e : nat) :
  (sumAbs data i e / inject_Z (Z.of_nat (e - i)) == meanAbs (f32_at data) i e)%Q.
Proof.
  unfold sumAbs, meanAbs, range.
  rewrite (foldl_Qsum (λ j, Qabs (f32_at data j))). 
  apply Qdiv_comp; [ring | reflexivity].
Qed.

(** Whatever the step and the bound, a loop that ends has pushed only
    non-negative values. *)
Lemma analyzeLoop_nonneg fuel data w i acc (out : list Q) :
  analyzeLoop fuel data w i acc = Some out →
  Forall (λ v, 0 <= v)%Q acc → Forall (λ v, 0 <= v)%Q out.
Proof.
  revert i acc. induction fuel as [|fuel IH]; intros i acc; simpl; [done|].
  destruct (decide (i < f32_length data)) as [Hi|Hi].
  - intros Hrun Hacc. eapply IH; [exact Hrun|].
    apply Forall_app. split; [done|]. apply Forall_singleton.
    apply Qdiv_nat_nonneg, sumAbs_nonneg.
  - by intros [= <-].
Qed.

(** With a step of 0 the loop never gets past a sample it has not yet
    consumed: it runs out of every bound. *)
Lemma analyzeLoop_stuck fuel data i acc :
  i < f32_length data → analyzeLoop fuel data 0 i acc = None.
Proof.
  intros Hi. revert acc. induction fuel as [|fuel IH]; intros acc; simpl; [done|].
  rewrite decide_True by done. rewrite Nat.add_0_r. apply IH.
Qed.

Lemma ceilDiv_step (n w : nat) : 1 ≤ w → 0 < n → ceilDiv n w = S (ceilDiv (n - w) w).
Proof.
  intros Hw Hn. unfold ceilDiv.
  destruct (decide (w ≤ n)) as [Hle|Hgt].
  - replace (n + w - 1) with ((n - w + w - 1) + 1 * w) by lia.
    rewrite Nat.div_add by lia. lia.
  - replace (n - w) with 0 by lia.
    rewrite (Nat.div_small (0 + w - 1)) by lia.
    replace (n + w - 1) with ((n - 1) + 1 * w) by lia.
    rewrite Nat.div_add by lia. rewrite Nat.div_small by lia. done.
Qed.

Lemma ceilDiv_0 (w : nat) : 1 ≤ w → ceilDiv 0 w = 0.
Proof. intros Hw. unfold ceilDiv. apply Nat.div_small. lia. Qed.

Lemma pushedFrom_step data w i :
  1 ≤ w → i < f32_length data →
  pushedFrom data w i =
    (let e := Nat.min (i + w) (f32_length data) in
     (sumAbs data i e / inject_Z (Z.of_nat (e - i)))%Q) :: pushedFrom data w (i + w).
Proof.
  intros Hw Hi. unfold pushedFrom.
  rewrite (ceilDiv_step (f32_length data - i) w) by lia.
  replace (f32_length data - i - w) with (f32_length data - (i + w)) by lia.
  rewrite <- cons_seq. simpl map. rewrite Nat.add_0_r. f_equal.
  rewrite <- seq_shift, map_map. apply map_ext. intros k.
  simpl. replace (i + (w + k * w)) with (i + w + k * w) by lia. done.
Qed.

(** With a positive step, a bound above the number of samples left is
    never reached, and the loop returns the windows in order. *)
Lemma analyzeLoop_run fuel data w i acc :
  1 ≤ w → f32_length data - i < fuel →
  analyzeLoop fuel data w i acc = Some (acc ++ pushedFrom data w i).
Proof.
  intros Hw. revert i acc. induction fuel as [|fuel IH]; intros i acc Hfuel; [lia|].
  simpl. destruct (decide (i < f32_length data)) as [Hi|Hi].
  - rewrite IH by lia. rewrite (pushedFrom_step data w i) by done.
    by rewrite <- app_assoc.
  - unfold pushedFrom. replace (f32_length data - i) with 0 by lia.
    rewrite ceilDiv_0 by done. simpl. by rewrite app_nil_r.
Qed.

Lemma pushedFrom_envelope data w :
  Forall2 Qeq (pushedFrom data w 0) (envelope (f32_at data) (f32_length data) w).
Proof.
  unfold pushedFrom, envelope. rewrite Nat.sub_0_r.
  apply Forall2_fmap, Forall_Forall2_diag, Forall_forall. intros k _.
  simpl. replace (k * w + w) with ((k + 1) * w) by lia.
  apply amplitude_meanAbs.
Qed.

Lemma meanAbs_silent (f : nat → Q) (lo hi bound : nat) :
  hi ≤ bound → (∀ j, j < bound → (f j == 0)%Q) → (meanAbs f lo hi == 0)%Q.
Proof.
  intros Hhi Hzero. unfold meanAbs.
  assert (Qsum (map (λ j, Qabs (f j)) (seq lo (hi - lo))) == 0)%Q as ->.
  { assert (∀ j, j ∈ seq lo (hi - lo) → j < bound) as Hin.
    { intros j Hj%elem_of_seq. lia. }
    induction (seq lo (hi - lo)) as [|j l IH]; simpl; [reflexivity|].
    rewrite IH by (intros; apply Hin; by right).
    rewrite (Hzero j) by (apply Hin; left). reflexivity. }
  unfold Qdiv. ring.
Qed.

Lemma frameSizeOf_positive (buffer : AudioBuffer.t) :
  (30 ≤ AudioBuffer.sampleRate buffer)%Z → 1 ≤ frameSizeOf buffer.
Proof.
  intros Hrate. unfold frameSizeOf.
  assert (1 ≤ AudioBuffer.sampleRate buffer / 30)%Z; [|lia].
  apply Z.div_le_lower_bound; lia.
Qed.

Lemma analyzeAudio_returns (buffer : AudioBuffer.t) :
  (30 ≤ AudioBuffer.sampleRate buffer)%Z →
  analyzeAudio buffer
  = Some (pushedFrom (AudioBuffer.getChannelData buffer 0) (frameSizeOf buffer) 0).
Proof.
  intros Hrate. unfold analyzeAudio. cbv zeta.
  rewrite analyzeLoop_run; [done | by apply frameSizeOf_positive | simpl; lia].
Qed.

End AnalyzeFacts.

(** C8, for a buffer whose analysis window is not empty (a sample rate of at
    least 30 Hz).  The analyzer reads channel 0 only, returns one value per
    window of [floor(sampleRate / 30)] samples, [ceil(length / windowSize)]
    values in all, each the mean absolute amplitude of its window (the last
    window over the samples it really has), and all of them 0 for a silent
    buffer. *)
Theorem analyzeAudio_envelope (buffer : AudioBuffer.t) :
  (30 ≤ AudioBuffer.sampleRate buffer)%Z →
  let windowSize := Z.to_nat (AudioBuffer.sampleRate buffer / 30) in
  ∃ out, Lipsync.analyzeAudio buffer = Some out
    ∧ length out = Lipsync.ceilDiv (AudioBuffer.length buffer) windowSize
    ∧ Forall2 Qeq out
        (Lipsync.envelope (AudioBuffer.samples buffer 0) (AudioBuffer.length buffer) windowSize)
    ∧ ((∀ j, j < AudioBuffer.length buffer → (AudioBuffer.samples buffer 0 j == 0)%Q) →
       Forall (λ v, v == 0)%Q out).
Proof.
  intros Hrate windowSize.
  pose proof (pushedFrom_envelope (AudioBuffer.getChannelData buffer 0) windowSize) as Henv.
  exists (Lipsync.pushedFrom (AudioBuffer.getChannelData buffer 0) windowSize 0).
  split_and!.
  - by apply analyzeAudio_returns.
  - unfold Lipsync.pushedFrom. rewrite length_map, length_seq. simpl. by rewrite Nat.sub_0_r.
  - exact Henv.
  - intros Hsilent. simpl in Henv.
    eapply Forall2_Forall_l; [exact Henv|].
    unfold Lipsync.envelope. apply Forall_fmap, Forall_forall. intros k _.
    simpl. intros v Hv. rewrite Hv.
    apply (meanAbs_silent _ _ _ (AudioBuffer.length buffer)); [lia | done].
Qed.

(** Three windows over channel 0: the means of 3, 3 and 1 samples. *)
Example analyzeAudio_sevenSamples :
  (map Qred <$> Lipsync.analyzeAudio Lipsync.sevenSamples)
  = Some [5 # 12; 1 # 3; 1 # 2]%Q.
Proof. reflexivity. Qed.

(** C8 at the square wave: three windows, of 266, 266 and 68 samples. *)
Lemma analyzeAudio_envelope_witness :
  let windowSize := Z.to_nat (AudioBuffer.sampleRate Lipsync.squareWave / 30) in
  ∃ out, Lipsync.analyzeAudio Lipsync.squareWave = Some out
    ∧ length out = Lipsync.ceilDiv (AudioBuffer.length Lipsync.squareWave) windowSize
    ∧ Forall2 Qeq out
        (Lipsync.envelope (AudioBuffer.samples Lipsync.squareWave 0)
           (AudioBuffer.length Lipsync.squareWave) windowSize)
    ∧ ((∀ j, j < AudioBuffer.length Lipsync.squareWave →
             (AudioBuffer.samples Lipsync.squareWave 0 j == 0)%Q) →
       Forall (λ v, v == 0)%Q out).
Proof.
  apply (analyzeAudio_envelope Lipsync.squareWave). simpl. lia.
Defined.

(** Below 30 Hz the window is empty and the loop index never advances: the
    call ends in the exception, and no sequence is returned. *)
Example analyzeAudio_slowBuffer :
  Lipsync.frameSizeOf Lipsync.slowBuffer = 0
  ∧ Lipsync.analyzeAudio Lipsync.slowBuffer = None.
Proof. split; reflexivity. Qed.

(** C10. Every value the analyzer returns is non-negative; and it does
    return whenever the sample rate is at least 30 Hz. *)
Theorem analyzeAudio_nonneg (buffer : AudioBuffer.t) :
  ((30 ≤ AudioBuffer.sampleRate buffer)%Z → is_Some (Lipsync.analyzeAudio buffer))
  ∧ ∀ out, Lipsync.analyzeAudio buffer = Some out → Forall (λ v, 0 <= v)%Q out.
Proof.
  split.
  - intros Hrate. rewrite analyzeAudio_returns by done. done.
  - intros out Hout. eapply analyzeLoop_nonneg; [exact Hout | constructor].
Qed.

(** ** The WAV encoder *)

Section DataViewFacts.
Import DataView.
Implicit Types (view filled rest bytes : list Z) (value v : Z) (width : nat).

Lemma length_littleEndianBytes width value :
  length (littleEndianBytes width value) = width.
Proof.
  revert value. induction width as [|width IH]; intros value; simpl; [done|].
  by rewrite IH.
Qed.

(** A store into the zeroed part of a view that has been filled up to the
    offset: the bytes are appended to the filled part.  In particular the
    store is in range. *)
Lemma set_fill width filled rest (byteOffset : nat) value :
  byteOffset = length filled →
  set width (filled ++ replicate width 0%Z ++ rest) byteOffset value true
  = Some ((filled ++ littleEndianBytes width value) ++ rest).
Proof.
  intros ->. unfold set, bytesOf.
  rewrite decide_True by (rewrite !length_app, length_replicate; lia).
  f_equal.
  rewrite <- (Nat.add_0_r (length filled)), list_inserts_app_r.
  rewrite list_inserts_0_r by (by rewrite length_littleEndianBytes, length_replicate).
  by rewrite <- app_assoc.
Qed.

Lemma littleEndianBytes_range width value :
  Forall (λ b, 0 ≤ b < 256)%Z (littleEndianBytes width value).
Proof.
  revert value. induction width as [|width IH]; intros value; simpl; constructor.
  - apply Z.mod_pos_bound. lia.
  - apply IH.
Qed.

(** Reading back what [width] little-endian bytes hold: the value modulo
    [256^width]. *)
Lemma uintLE_littleEndianBytes width value :
  Wav.uintLE (littleEndianBytes width value) = (value mod 256 ^ Z.of_nat width)%Z.
Proof.
  revert value. induction width as [|width IH]; intros value.
  - simpl. by rewrite Z.mod_1_r.
  - change (Wav.uintLE (littleEndianBytes (S width) value))
      with (value mod 256 + 256 * Wav.uintLE (littleEndianBytes width (value / 256)))%Z.
    rewrite IH, Nat2Z.inj_succ, Z.pow_succ_r by lia.
    rewrite Z.rem_mul_r; [done | lia | apply Z.pow_pos_nonneg; lia].
Qed.

Lemma int16LE_fits value :
  (-32768 ≤ value < 32768)%Z → Wav.int16LE (littleEndianBytes 2 value) = value.
Proof.
  intros Hv. unfold Wav.int16LE. rewrite uintLE_littleEndianBytes.
  change (256 ^ Z.of_nat 2)%Z with 65536%Z. cbv zeta.
  destruct (decide (0 ≤ value)%Z) as [Hpos|Hneg].
  - rewrite Z.mod_small by lia.
    destruct (Z.ltb_spec value 32768); [done | lia].
  - assert (value mod 65536 = value + 65536)%Z as ->.
    { symmetry. apply (Z.mod_unique _ _ (-1)); lia. }
    destruct (Z.ltb_spec (value + 65536) 32768); lia.
Qed.

(** *** Truncation *)

Lemma truncate_comp (x y : Q) : (x == y)%Q → truncate x = truncate y.
Proof.
  intros Hxy. unfold truncate, Qltb.
  rewrite (Qleb_comp 0%Q 0%Q (reflexivity _) x y Hxy).
  destruct (negb (Qle_bool 0 y)); [by apply Qceiling_comp | by apply Qfloor_comp].
Qed.

(** Truncation keeps a number between two integers that bracket it. *)
Lemma truncate_bounds (x : Q) (lo hi : Z) :
  (lo ≤ 0 ≤ hi)%Z → (inject_Z lo <= x <= inject_Z hi)%Q →
  (lo ≤ truncate x ≤ hi)%Z.
Proof.
  intros Hlohi [Hlo Hhi]. unfold truncate.
  destruct (Qltb x 0%Q) eqn:E; [apply Qltb_lt in E | apply Qltb_ge in E].
  - split.
    + rewrite <- (Qceiling_Z lo). by apply Qceiling_resp_le.
    + transitivity (Qceiling 0); [apply Qceiling_resp_le; lra|].
      change (Qceiling 0) with 0%Z. lia.
  - split.
    + transitivity (Qfloor 0); [|by apply Qfloor_resp_le].
      change (Qfloor 0) with 0%Z. lia.
    + rewrite <- (Qfloor_Z hi). by apply Qfloor_resp_le.
Qed.

End DataViewFacts.

Section WavFacts.
Import DataView Wav.
Implicit Types (view filled rest bytes : list Z) (buffer : AudioBuffer.t).

(** [writeString] into the zeroed part of a view filled up to [offset]. *)
Lemma forEach_setUint8_fill (g : nat → Z) (offset m a : nat) filled rest :
  offset + a = length filled →
  forEach (seq a m) (λ i view, setUint8 view (offset + i) (g i))
    (filled ++ replicate m 0%Z ++ rest)
  = Some ((filled ++ map (λ i, g i mod 256)%Z (seq a m)) ++ rest).
Proof.
  revert a filled. induction m as [|m IH]; intros a filled Hoff.
  - simpl. by rewrite app_nil_r.
  - pose proof (set_fill 1 filled (replicate m 0%Z ++ rest) (offset + a) (g a) Hoff) as Hs.
    simpl. unfold setUint8. simpl in Hs. rewrite Hs. simpl.
    rewrite (IH (S a)) by (rewrite length_app; simpl; lia).
    by rewrite <- (app_assoc filled).
Qed.

Lemma writeString_fill (s : string) filled rest (offset : nat) :
  offset = length filled →
  writeString (filled ++ replicate (String.length s) 0%Z ++ rest) offset s
  = Some ((filled
           ++ map (λ i, default 0 (charCodeAt s i) mod 256)%Z (seq 0 (String.length s)))
          ++ rest).
Proof.
  intros Hoff. unfold writeString, range. rewrite Nat.sub_0_r.
  apply (forEach_setUint8_fill (λ i, default 0%Z (charCodeAt s i))). lia.
Qed.

(** The inner loop: the samples of frame [i], channel after channel. *)
Lemma forEach_writeSample buffer (i m c0 : nat) filled rest :
  forEach (seq c0 m) (writeSample buffer i)
    (filled ++ replicate (m * 2) 0%Z ++ rest, length filled)
  = Some ((filled ++ flat_map (sampleBytes buffer i) (seq c0 m)) ++ rest,
          length filled + m * 2).
Proof.
  revert c0 filled. induction m as [|m IH]; intros c0 filled.
  - simpl. rewrite app_nil_r. do 2 f_equal. lia.
  - pose proof (set_fill 2 filled (replicate (m * 2) 0%Z ++ rest) (length filled)
      (truncate (clampSample (AudioBuffer.samples buffer c0 i) * 32767)%Q) eq_refl) as Hs.
    simpl forEach. unfold writeSample at 1. unfold setInt16.
    simpl in Hs |- *. rewrite Hs. simpl.
    set (bytes := [_; _]) in *.
    replace (length filled + 2) with (length (filled ++ bytes))
      by (rewrite length_app; done).
    rewrite (IH (S c0)). rewrite <- (app_assoc filled).
    do 2 f_equal. rewrite length_app. simpl. lia.
Qed.

Lemma length_sampleBytes buffer (i channel : nat) :
  length (sampleBytes buffer i channel) = 2.
Proof. apply length_littleEndianBytes. Qed.

Lemma length_flat_map_const {A} (g : A → list Z) (w : nat) (l : list A) :
  (∀ x, length (g x) = w) → length (flat_map g l) = length l * w.
Proof.
  intros Hg. induction l as [|x l IH]; simpl; [done|].
  by rewrite length_app, Hg, IH.
Qed.

Lemma length_frameBytes buffer (i : nat) :
  length (frameBytes buffer i) = AudioBuffer.numberOfChannels buffer * 2.
Proof.
  unfold frameBytes.
  rewrite (length_flat_map_const _ 2) by (intros; apply length_sampleBytes).
  by rewrite length_seq.
Qed.

Lemma length_bodyBytes buffer :
  length (bodyBytes buffer)
  = AudioBuffer.length buffer * (AudioBuffer.numberOfChannels buffer * 2).
Proof.
  unfold bodyBytes.
  rewrite (length_flat_map_const _ (AudioBuffer.numberOfChannels buffer * 2))
    by (intros; apply length_frameBytes).
  by rewrite length_seq.
Qed.

(** The outer loop: frame after frame. *)
Lemma forEach_frames buffer (m i0 : nat) filled rest :
  forEach (seq i0 m)
    (λ i, forEach (range 0 (AudioBuffer.numberOfChannels buffer)) (writeSample buffer i))
    (filled ++ replicate (m * (AudioBuffer.numberOfChannels buffer * 2)) 0%Z ++ rest,
     length filled)
  = Some ((filled ++ flat_map (frameBytes buffer) (seq i0 m)) ++ rest,
          length filled + m * (AudioBuffer.numberOfChannels buffer * 2)).
Proof.
  unfold range. rewrite Nat.sub_0_r.
  revert i0 filled. induction m as [|m IH]; intros i0 filled.
  - simpl. rewrite app_nil_r. do 2 f_equal. lia.
  - simpl forEach.
    replace (S m * (AudioBuffer.numberOfChannels buffer * 2))
      with (AudioBuffer.numberOfChannels buffer * 2
            + m * (AudioBuffer.numberOfChannels buffer * 2)) by lia.
    rewrite replicate_add, <- (app_assoc (replicate _ _)).
    rewrite forEach_writeSample. simpl.
    fold (frameBytes buffer i0).
    replace (length filled + AudioBuffer.numberOfChannels buffer * 2)
      with (length (filled ++ frameBytes buffer i0))
      by (by rewrite length_app, length_frameBytes).
    rewrite (IH (S i0)). rewrite <- (app_assoc filled).
    do 2 f_equal. rewrite length_app, length_frameBytes. lia.
Qed.
End WavFacts.

Section WavRun.
Import DataView Wav.
Implicit Types (buffer : AudioBuffer.t).

Lemma option_bind_Some {A B} (x : A) (f : A → option B) : Some x ≫= f = f x.
Proof. done. Qed.

(** The encoder never leaves its view and returns exactly the header
    followed by the body. *)
Lemma audioBufferToBlob_bytes buffer :
  audioBufferToBlob buffer
  = Some {| Blob.parts := headerBytes buffer ++ bodyBytes buffer;
            Blob.type := "audio/wav" |}.
Proof.
  unfold audioBufferToBlob. cbv zeta.
  set (n := AudioBuffer.length buffer * AudioBuffer.numberOfChannels buffer * 2).
  set (nc := Z.of_nat (AudioBuffer.numberOfChannels buffer)).
  set (sr := AudioBuffer.sampleRate buffer).
  replace (ArrayBuffer (44 + n))
    with ([] ++ replicate 4 0%Z ++ replicate 4 0%Z ++ replicate 4 0%Z
          ++ replicate 4 0%Z ++ replicate 4 0%Z ++ replicate 2 0%Z
          ++ replicate 2 0%Z ++ replicate 4 0%Z ++ replicate 4 0%Z
          ++ replicate 2 0%Z ++ replicate 2 0%Z ++ replicate 4 0%Z
          ++ replicate 4 0%Z ++ replicate n 0%Z ++ []).
  2:{ rewrite app_nil_r. reflexivity. }
  unfold setUint32, setUint16.
  rewrite (writeString_fill "RIFF") by reflexivity.
  rewrite option_bind_Some.
  rewrite set_fill by reflexivity. rewrite option_bind_Some.
  rewrite (writeString_fill "WAVE") by reflexivity. rewrite option_bind_Some.
  rewrite (writeString_fill "fmt ") by reflexivity. rewrite option_bind_Some.
  rewrite set_fill by reflexivity. rewrite option_bind_Some.
  rewrite set_fill by reflexivity. rewrite option_bind_Some.
  rewrite set_fill by reflexivity. rewrite option_bind_Some.
  rewrite set_fill by reflexivity. rewrite option_bind_Some.
  rewrite set_fill by reflexivity. rewrite option_bind_Some.
  rewrite set_fill by reflexivity. rewrite option_bind_Some.
  rewrite set_fill by reflexivity. rewrite option_bind_Some.
  rewrite (writeString_fill "data") by reflexivity. rewrite option_bind_Some.
  rewrite set_fill by reflexivity. rewrite option_bind_Some.
  match goal with
  | |- forEach _ _ (?filled ++ _, _) ≫= _ = _ =>
      change filled with (headerBytes buffer)
  end.
  change 44 with (length (headerBytes buffer)).
  replace n with (AudioBuffer.length buffer * (AudioBuffer.numberOfChannels buffer * 2))
    by (unfold n; lia).
  unfold range at 1. rewrite Nat.sub_0_r.
  rewrite forEach_frames. rewrite option_bind_Some. simpl fst.
  by rewrite app_nil_r.
Qed.
End WavRun.

Section WavLayout.
Import DataView Wav.
Implicit Types (buffer : AudioBuffer.t) (body : list Z).

Lemma sub_app_r (l k : list Z) (offset n : nat) :
  sub (l ++ k) (length l + offset) n = sub k offset n.
Proof. unfold sub. by rewrite drop_app_add. Qed.

(** A byte range inside one chunk of a sequence of chunks of equal width. *)
Lemma sub_flat_map_const {A} (g : A → list Z) (w : nat) (l : list A)
    (k : nat) (x : A) (offset n : nat) :
  (∀ y, length (g y) = w) → l !! k = Some x → offset + n ≤ w →
  sub (flat_map g l) (k * w + offset) n = sub (g x) offset n.
Proof.
  intros Hg. revert k. induction l as [|y l IH]; intros k Hk Hfit; [done|].
  destruct k as [|k]; simpl in Hk |- *.
  - injection Hk as ->. unfold sub.
    rewrite drop_app_le by (rewrite Hg; lia).
    rewrite take_app_le by (rewrite length_drop, Hg; lia). done.
  - rewrite <- (Hg y) at 1. rewrite <- Nat.add_assoc, sub_app_r. by apply IH.
Qed.

(** Where the sample of frame [i] and channel [channel] is stored. *)
Lemma sub_sample buffer (i channel : nat) :
  i < AudioBuffer.length buffer →
  channel < AudioBuffer.numberOfChannels buffer →
  sub (headerBytes buffer ++ bodyBytes buffer)
      (44 + 2 * (i * AudioBuffer.numberOfChannels buffer + channel)) 2
  = sampleBytes buffer i channel.
Proof.
  intros Hi Hc.
  change 44 with (length (headerBytes buffer)). rewrite sub_app_r.
  replace (2 * (i * AudioBuffer.numberOfChannels buffer + channel))
    with (i * (AudioBuffer.numberOfChannels buffer * 2) + channel * 2) by lia.
  unfold bodyBytes.
  rewrite (sub_flat_map_const (frameBytes buffer)
             (AudioBuffer.numberOfChannels buffer * 2) _ i i);
    [| apply length_frameBytes | by apply lookup_seq_lt | lia].
  unfold frameBytes.
  rewrite <- (Nat.add_0_r (channel * 2)).
  rewrite (sub_flat_map_const (sampleBytes buffer i) 2 _ channel channel);
    [| apply length_sampleBytes | by apply lookup_seq_lt | lia].
  unfold sub. simpl drop. apply take_ge. by rewrite length_sampleBytes.
Qed.

Lemma clampSample_clampUnit (x : Q) : (clampSample x == clampUnit x)%Q.
Proof.
  unfold clampSample, clampUnit.
  destruct (Q.min_spec 1 x) as [[H1 E1]|[H1 E1]];
  destruct (Q.max_spec (-1) (Qmin 1 x)) as [[H2 E2]|[H2 E2]];
  destruct (Qltb x (-1)) eqn:Ea; [apply Qltb_lt in Ea | apply Qltb_ge in Ea
    | apply Qltb_lt in Ea | apply Qltb_ge in Ea | apply Qltb_lt in Ea | apply Qltb_ge in Ea
    | apply Qltb_lt in Ea | apply Qltb_ge in Ea];
  try (destruct (Qltb 1 x) eqn:Eb; [apply Qltb_lt in Eb | apply Qltb_ge in Eb]);
  lra.
Qed.

Lemma clampUnit_range (x : Q) : (-1 <= clampUnit x <= 1)%Q.
Proof.
  unfold clampUnit.
  destruct (Qltb x (-1)) eqn:Ea; [lra|]. apply Qltb_ge in Ea.
  destruct (Qltb 1 x) eqn:Eb; [lra|]. apply Qltb_ge in Eb. lra.
Qed.

(** The stored 16-bit value of a sample. *)
Lemma int16LE_sampleBytes buffer (i channel : nat) :
  int16LE (sampleBytes buffer i channel)
  = truncate (clampUnit (AudioBuffer.samples buffer channel i) * 32767)%Q
  ∧ (-32767 ≤ int16LE (sampleBytes buffer i channel) ≤ 32767)%Z.
Proof.
  unfold sampleBytes.
  set (s := AudioBuffer.samples buffer channel i).
  assert (truncate (clampSample s * 32767) = truncate (clampUnit s * 32767)) as ->.
  { apply truncate_comp. by rewrite clampSample_clampUnit. }
  assert (-32767 ≤ truncate (clampUnit s * 32767) ≤ 32767)%Z as Hr.
  { apply truncate_bounds; [lia|]. pose proof (clampUnit_range s) as Hc.
    change (inject_Z (-32767)) with (-32767)%Q.
    change (inject_Z 32767) with 32767%Q. lra. }
  rewrite int16LE_fits by lia. done.
Qed.

Lemma headerBytes_range buffer : Forall (λ b, 0 ≤ b < 256)%Z (headerBytes buffer).
Proof.
  unfold headerBytes. cbv zeta.
  repeat (apply Forall_app; split);
    try apply littleEndianBytes_range;
    (apply Forall_forall; intros b Hb; vm_compute in Hb;
     repeat (apply elem_of_cons in Hb as [->|Hb]; [lia|]); by apply elem_of_nil in Hb).
Qed.

Lemma bodyBytes_range buffer : Forall (λ b, 0 ≤ b < 256)%Z (bodyBytes buffer).
Proof.
  unfold bodyBytes, frameBytes, sampleBytes.
  apply Forall_flat_map, Forall_forall. intros i _.
  apply Forall_flat_map, Forall_forall. intros c _.
  apply littleEndianBytes_range.
Qed.

(** The header fields as the code stores them, each modulo the width of
    its field, for every buffer. *)
Lemma header_fields buffer body :
  let bytes := headerBytes buffer ++ body in
  let numberOfChannels := Z.of_nat (AudioBuffer.numberOfChannels buffer) in
  let sampleRate := AudioBuffer.sampleRate buffer in
  let dataBytes :=
    Z.of_nat (AudioBuffer.length buffer * AudioBuffer.numberOfChannels buffer * 2) in
  sub bytes 0 4 = ascii "RIFF"
  ∧ uintLE (sub bytes 4 4) = ((36 + dataBytes) mod 2 ^ 32)%Z
  ∧ sub bytes 8 4 = ascii "WAVE"
  ∧ sub bytes 12 4 = ascii "fmt "
  ∧ uintLE (sub bytes 16 4) = 16%Z
  ∧ uintLE (sub bytes 20 2) = 1%Z
  ∧ uintLE (sub bytes 22 2) = (numberOfChannels mod 2 ^ 16)%Z
  ∧ uintLE (sub bytes 24 4) = (sampleRate mod 2 ^ 32)%Z
  ∧ uintLE (sub bytes 28 4) = ((sampleRate * numberOfChannels * 2) mod 2 ^ 32)%Z
  ∧ uintLE (sub bytes 32 2) = ((numberOfChannels * 2) mod 2 ^ 16)%Z
  ∧ uintLE (sub bytes 34 2) = 16%Z
  ∧ sub bytes 36 4 = ascii "data"
  ∧ uintLE (sub bytes 40 4) = (dataBytes mod 2 ^ 32)%Z.
Proof.
  intros bytes numberOfChannels sampleRate dataBytes.
  assert (sub bytes 4 4 = littleEndianBytes 4 (36 + dataBytes)) as -> by reflexivity.
  assert (sub bytes 16 4 = littleEndianBytes 4 16) as -> by reflexivity.
  assert (sub bytes 20 2 = littleEndianBytes 2 1) as -> by reflexivity.
  assert (sub bytes 22 2 = littleEndianBytes 2 numberOfChannels) as -> by reflexivity.
  assert (sub bytes 24 4 = littleEndianBytes 4 sampleRate) as -> by reflexivity.
  assert (sub bytes 28 4 = littleEndianBytes 4 (sampleRate * numberOfChannels * 2))
    as -> by reflexivity.
  assert (sub bytes 32 2 = littleEndianBytes 2 (numberOfChannels * 2)) as -> by reflexivity.
  assert (sub bytes 34 2 = littleEndianBytes 2 16) as -> by reflexivity.
  assert (sub bytes 40 4 = littleEndianBytes 4 dataBytes) as -> by reflexivity.
  rewrite !uintLE_littleEndianBytes.
  change (256 ^ Z.of_nat 4)%Z with (2 ^ 32)%Z.
  change (256 ^ Z.of_nat 2)%Z with (2 ^ 16)%Z.
  split_and!; reflexivity.
Qed.
End WavLayout.

(** C1, for a buffer whose sizes fit the fields of the header.  The encoder
    returns [44 + 2 * length * numberOfChannels] bytes: the 44-byte header
    "RIFF", total size minus 8, "WAVE", "fmt " with chunk size 16, format 1,
    channel count, sample rate, byte rate, block align, 16 bits per sample,
    "data" and the data length, every number little-endian; then the
    samples frame by frame and channel by channel within a frame, each the
    sample clamped to [[-1, 1]], scaled by 32767 and truncated, as a signed
    little-endian 16-bit integer. *)
Theorem audioBufferToBlob_wav (buffer : AudioBuffer.t) :
  1 ≤ AudioBuffer.numberOfChannels buffer →
  Wav.FitsHeader buffer →
  ∃ blob, Wav.audioBufferToBlob buffer = Some blob
    ∧ length (Blob.parts blob)
      = 44 + AudioBuffer.length buffer * AudioBuffer.numberOfChannels buffer * 2
    ∧ Forall (λ b, 0 ≤ b < 256)%Z (Blob.parts blob)
    ∧ Wav.RiffHeader (Blob.parts blob)
        (Z.of_nat (AudioBuffer.numberOfChannels buffer))
        (AudioBuffer.sampleRate buffer)
        (Z.of_nat (AudioBuffer.length buffer))
    ∧ Wav.PcmBody (Blob.parts blob) buffer.
Proof.
  intros Hnc (Hsr & Hrate & Halign & Hsize).
  exists {| Blob.parts := Wav.headerBytes buffer ++ Wav.bodyBytes buffer;
            Blob.type := "audio/wav" |}.
  split; [apply audioBufferToBlob_bytes|]. cbn [Blob.parts].
  assert (length (Wav.headerBytes buffer ++ Wav.bodyBytes buffer)
          = 44 + AudioBuffer.length buffer * AudioBuffer.numberOfChannels buffer * 2)
    as Hlen.
  { rewrite length_app, length_bodyBytes.
    change (length (Wav.headerBytes buffer)) with 44. lia. }
  split_and!.
  - exact Hlen.
  - apply Forall_app. split; [apply headerBytes_range | apply bodyBytes_range].
  - pose proof (header_fields buffer (Wav.bodyBytes buffer)) as Hf. cbv zeta in Hf.
    destruct Hf as (F0 & F4 & F8 & F12 & F16 & F20 & F22 & F24 & F28 & F32 & F34 & F36 & F40).
    unfold Wav.RiffHeader. rewrite Hlen.
    rewrite F4, F16, F20, F22, F24, F28, F32, F34, F40.
    rewrite !Z.mod_small by nia.
    split_and!; try done; lia.
  - intros i channel Hi Hc. rewrite sub_sample by done.
    apply int16LE_sampleBytes.
Qed.

(** C1 at two stereo frames with samples inside and outside [[-1, 1]]. *)
Lemma audioBufferToBlob_wav_witness :
  ∃ blob, Wav.audioBufferToBlob Wav.twoFrames = Some blob
    ∧ length (Blob.parts blob)
      = 44 + AudioBuffer.length Wav.twoFrames * AudioBuffer.numberOfChannels Wav.twoFrames * 2
    ∧ Forall (λ b, 0 ≤ b < 256)%Z (Blob.parts blob)
    ∧ Wav.RiffHeader (Blob.parts blob)
        (Z.of_nat (AudioBuffer.numberOfChannels Wav.twoFrames))
        (AudioBuffer.sampleRate Wav.twoFrames)
        (Z.of_nat (AudioBuffer.length Wav.twoFrames))
    ∧ Wav.PcmBody (Blob.parts blob) Wav.twoFrames.
Proof.
  apply (audioBufferToBlob_wav Wav.twoFrames).
  - simpl. lia.
  - unfold Wav.FitsHeader. simpl. lia.
Defined.

(** The bytes of that example, header and samples. *)
Example audioBufferToBlob_twoFrames :
  Blob.parts <$> Wav.audioBufferToBlob Wav.twoFrames
  = Some [82; 73; 70; 70; 44; 0; 0; 0; 87; 65; 86; 69; 102; 109; 116; 32;
          16; 0; 0; 0; 1; 0; 2; 0; 64; 31; 0; 0; 0; 125; 0; 0; 4; 0; 16; 0;
          100; 97; 116; 97; 8; 0; 0; 0;
          255; 63; 1; 224; 255; 127; 1; 128]%Z.
Proof. reflexivity. Qed.


Lemma longStereo_length : Z.of_nat (AudioBuffer.length Wav.longStereo) = (2 ^ 30)%Z.
Proof. unfold Wav.longStereo, AudioBuffer.length. apply Z2Nat.id. lia. Qed.

Lemma longStereo_dataBytes :
  Z.of_nat (AudioBuffer.length Wav.longStereo
            * AudioBuffer.numberOfChannels Wav.longStereo * 2) = (2 ^ 32)%Z.
Proof.
  rewrite !Nat2Z.inj_mul, longStereo_length. reflexivity.
Qed.

(** C1, as stated for every buffer, fails once the samples take 4 GiB: the
    data of [2^30] stereo frames is [2^32] bytes long, and the 32-bit field
    at offset 40 holds 0, the field at offset 4 holds 36. *)
Lemma audioBufferToBlob_long_wraps :
  ∃ blob, Wav.audioBufferToBlob Wav.longStereo = Some blob
    ∧ Wav.uintLE (Wav.sub (Blob.parts blob) 4 4) = 36%Z
    ∧ Wav.uintLE (Wav.sub (Blob.parts blob) 40 4) = 0%Z
    ∧ ¬ Wav.RiffHeader (Blob.parts blob)
          (Z.of_nat (AudioBuffer.numberOfChannels Wav.longStereo))
          (AudioBuffer.sampleRate Wav.longStereo)
          (Z.of_nat (AudioBuffer.length Wav.longStereo)).
Proof.
  exists {| Blob.parts := Wav.headerBytes Wav.longStereo ++ Wav.bodyBytes Wav.longStereo;
            Blob.type := "audio/wav" |}.
  split; [apply audioBufferToBlob_bytes|]. cbn [Blob.parts].
  pose proof (header_fields Wav.longStereo (Wav.bodyBytes Wav.longStereo)) as Hf.
  cbv zeta in Hf.
  destruct Hf as (_ & F4 & _ & _ & _ & _ & _ & _ & _ & _ & _ & _ & F40).
  rewrite longStereo_dataBytes in F4, F40.
  rewrite Z_mod_same_full in F40.
  split; [exact F4|]. split; [exact F40|].
  intros (_ & _ & _ & _ & _ & _ & _ & _ & _ & _ & _ & _ & Hdata).
  rewrite F40, longStereo_length in Hdata. discriminate Hdata.
Qed.

(** ** The effects graph *)

Section GraphFacts.
Import WebAudio VoiceChanger RateStage.
Implicit Types (random : RandomSource) (settings : Settings) (buffer : AudioBuffer.t).

Lemma positive_IsZero (amount : list Q) : IsZero amount → positive (amount !! 0) = false.
Proof.
  intros (v & -> & Hv). simpl. apply Qltb_ge. rewrite Hv. apply Qle_refl.
Qed.

(** Whatever the settings, the graph is built in the context it was given:
    the channel count, the length and the sample rate of the rendering are
    those of the constructor, and node 1 is the source, holding the input
    buffer, at the playback rate, started at 0. *)
Lemma buildGraph_context random (selectedVoiceType : string) settings
    (pitchShift : Q) buffer (numberOfChannels length : nat) (sampleRate : Z) :
  let ctx := (buildGraph random selectedVoiceType settings pitchShift buffer
                (newOfflineAudioContext numberOfChannels length sampleRate)).2 in
  channelCount ctx = numberOfChannels
  ∧ renderLength ctx = length
  ∧ contextSampleRate ctx = sampleRate
  ∧ nodes ctx !! 1 = Some (AudioBufferSourceNode (Some buffer) pitchShift (Some 0%Q)).
Proof.
  unfold buildGraph.
  destruct (positive (reverb settings !! 0));
    destruct (positive (echo settings !! 0));
    destruct (bool_decide (selectedVoiceType = "robot") || positive (distortion settings !! 0));
    cbn; done.
Qed.
End GraphFacts.

Section GraphTheorems.
Import WebAudio VoiceChanger RateStage.
Implicit Types (render : Renderer) (random : RandomSource) (settings : Settings)
  (buffer out : AudioBuffer.t).

(** When the function returns, and what: it throws without an audio
    context, on an unknown voice type and on a missing pitch value, and
    otherwise renders the graph it built. *)
Lemma applyVoiceTransformation_Some render random (audioContext : bool)
    (selectedVoiceType : string) settings buffer out :
  applyVoiceTransformation render random audioContext selectedVoiceType settings buffer
    = Some out
  ↔ audioContext = true
    ∧ ∃ selectedType pitch0,
        find (λ type, bool_decide (VoiceType.value type = selectedVoiceType)) voiceTypes
          = Some selectedType
        ∧ pitch settings !! 0 = Some pitch0
        ∧ out = startRendering render
                  (buildGraph random selectedVoiceType settings
                     (VoiceType.pitch selectedType * pitch0)%Q buffer
                     (newOfflineAudioContext (AudioBuffer.numberOfChannels buffer)
                        (AudioBuffer.length buffer) (AudioBuffer.sampleRate buffer))).2.
Proof.
  unfold applyVoiceTransformation.
  set (found :=
         find (λ type, bool_decide (VoiceType.value type = selectedVoiceType)) voiceTypes).
  set (ctx0 := newOfflineAudioContext _ _ _).
  destruct audioContext; [|split; [done | by intros [? _]]].
  destruct found as [selectedType|];
    [|split; [done | by intros (_ & t & p & ? & _)]].
  destruct (pitch settings !! 0) as [pitch0|];
    [|split; [done | by intros (_ & t & p & _ & ? & _)]].
  rewrite !option_bind_Some.
  destruct (buildGraph random selectedVoiceType settings
              (VoiceType.pitch selectedType * pitch0)%Q buffer ctx0) as [u ctx] eqn:Hbuild.
  split.
  - intros [= <-]. split; [done|]. exists selectedType, pitch0.
    by rewrite Hbuild.
  - intros (_ & t & p & [= <-] & [= <-] & ->). by rewrite Hbuild.
Qed.

(** C2, as the code behaves.  The rendered buffer has as many frames as the
    input buffer, whatever the pitch multiplier, and its channel count and
    sample rate; the source is played at
    [playbackRate = voice type's pitch * settings.pitch[0]]. *)
Theorem applyVoiceTransformation_length render random (audioContext : bool)
    (selectedVoiceType : string) settings buffer out :
  applyVoiceTransformation render random audioContext selectedVoiceType settings buffer
    = Some out →
  AudioBuffer.length out = AudioBuffer.length buffer
  ∧ AudioBuffer.numberOfChannels out = AudioBuffer.numberOfChannels buffer
  ∧ AudioBuffer.sampleRate out = AudioBuffer.sampleRate buffer
  ∧ ∃ selectedType pitch0 ctx,
      find (λ type, bool_decide (VoiceType.value type = selectedVoiceType)) voiceTypes
        = Some selectedType
      ∧ pitch settings !! 0 = Some pitch0
      ∧ out = startRendering render ctx
      ∧ nodes ctx !! 1
        = Some (AudioBufferSourceNode (Some buffer) (VoiceType.pitch selectedType * pitch0)%Q
                  (Some 0%Q)).
Proof.
  intros (_ & selectedType & pitch0 & Hfound & Hpitch & ->)%applyVoiceTransformation_Some.
  pose proof (buildGraph_context random selectedVoiceType settings
                (VoiceType.pitch selectedType * pitch0)%Q buffer
                (AudioBuffer.numberOfChannels buffer) (AudioBuffer.length buffer)
                (AudioBuffer.sampleRate buffer)) as Hctx.
  cbv zeta in Hctx. destruct Hctx as (Hch & Hlen & Hsr & Hsrc).
  cbn [startRendering AudioBuffer.length AudioBuffer.numberOfChannels
       AudioBuffer.sampleRate].
  split_and!; [done..|]. eauto 10.
Qed.

(** C4, as the code behaves.  With reverb, echo and distortion at 0 and a
    voice type other than "robot", no effect node is created: the rendering
    is that of the rate stage alone. *)
Theorem zero_amounts_rate_only render random (audioContext : bool)
    (selectedVoiceType : string) settings buffer :
  selectedVoiceType ≠ "robot" →
  IsZero (reverb settings) → IsZero (echo settings) → IsZero (distortion settings) →
  applyVoiceTransformation render random audioContext selectedVoiceType settings buffer
  = rateStageOnly render audioContext selectedVoiceType settings buffer.
Proof.
  intros Hrobot Hr He Hd.
  unfold applyVoiceTransformation, rateStageOnly, buildGraph, buildRateOnly.
  rewrite (positive_IsZero _ Hr), (positive_IsZero _ He), (positive_IsZero _ Hd).
  rewrite bool_decide_false by done. simpl orb. cbv iota.
  reflexivity.
Qed.

(** With the "robot" voice type the wave shaper is inserted between the
    source and the destination even at distortion 0, with the curve of
    amount 0.5 and 4x oversampling. *)
Lemma robot_forces_distortion random settings (pitchShift : Q) buffer
    (ctx0 : OfflineAudioContext) :
  IsZero (reverb settings) → IsZero (echo settings) → IsZero (distortion settings) →
  ctx0 = newOfflineAudioContext (AudioBuffer.numberOfChannels buffer)
           (AudioBuffer.length buffer) (AudioBuffer.sampleRate buffer) →
  let ctx := (buildGraph random "robot" settings pitchShift buffer ctx0).2 in
  nodes ctx = [AudioDestinationNode;
               AudioBufferSourceNode (Some buffer) pitchShift (Some 0%Q);
               WaveShaperNode (Some (createDistortionCurve 0.5)) "4x"]
  ∧ connections ctx = [(1, 2); (2, 0)].
Proof.
  intros Hr He (d & Hd & Hd0) ->. unfold buildGraph.
  rewrite (positive_IsZero _ Hr), (positive_IsZero _ He).
  rewrite bool_decide_true by done. simpl orb. cbv iota.
  rewrite Hd. unfold orElse.
  assert (Qeq_bool d 0 = true) as -> by (by apply Qeq_bool_iff).
  split; reflexivity.
Qed.

(** C3, as the code behaves.  The rendering returns the signal at the
    destination of the graph as it is, sample for sample; the clamp is the
    first step of the encoder, which stores for every sample of the
    rendered buffer the sample clamped to [[-1, 1]], scaled by 32767 and
    truncated: a value in [[-32767, 32767]]. *)
Theorem rendered_samples_clamped_on_encoding render random (audioContext : bool)
    (selectedVoiceType : string) settings buffer out :
  applyVoiceTransformation render random audioContext selectedVoiceType settings buffer
    = Some out →
  (∃ selectedType pitch0,
     find (λ type, bool_decide (VoiceType.value type = selectedVoiceType)) voiceTypes
       = Some selectedType
     ∧ pitch settings !! 0 = Some pitch0
     ∧ ∀ channel i,
         AudioBuffer.samples out channel i
         = render
             (buildGraph random selectedVoiceType settings
                (VoiceType.pitch selectedType * pitch0)%Q buffer
                (newOfflineAudioContext (AudioBuffer.numberOfChannels buffer)
                   (AudioBuffer.length buffer) (AudioBuffer.sampleRate buffer))).2
             channel i)
  ∧ ∃ blob, Wav.audioBufferToBlob out = Some blob
    ∧ ∀ i channel,
        i < AudioBuffer.length out → channel < AudioBuffer.numberOfChannels out →
        let clamped := Wav.clampUnit (AudioBuffer.samples out channel i) in
        let stored :=
          Wav.int16LE (Wav.sub (Blob.parts blob)
            (44 + 2 * (i * AudioBuffer.numberOfChannels out + channel)) 2) in
        (-1 <= clamped <= 1)%Q
        ∧ stored = DataView.truncate (clamped * 32767)%Q
        ∧ (-32767 ≤ stored ≤ 32767)%Z.
Proof.
  intros (_ & selectedType & pitch0 & Hfound & Hpitch & ->)%applyVoiceTransformation_Some.
  split.
  - by exists selectedType, pitch0.
  - set (out := startRendering _ _).
    exists {| Blob.parts := Wav.headerBytes out ++ Wav.bodyBytes out;
              Blob.type := "audio/wav" |}.
    split; [apply audioBufferToBlob_bytes|]. cbn [Blob.parts].
    intros i channel Hi Hc. cbv zeta.
    rewrite sub_sample by done.
    destruct (int16LE_sampleBytes out i channel) as [Hstored Hrange].
    split; [apply clampUnit_range|]. split; [exact Hstored | exact Hrange].
Qed.

End GraphTheorems.

(** The runs of the examples return the buffers [Runs.rendered] names. *)
Lemma run_rendered (selectedType : VoiceChanger.VoiceType.t)
    (settings : VoiceChanger.Settings) (pitch0 : Q) (buffer : AudioBuffer.t) :
  find (λ type, bool_decide (VoiceChanger.VoiceType.value type = VoiceChanger.VoiceType.value selectedType))
    VoiceChanger.voiceTypes = Some selectedType →
  VoiceChanger.pitch settings !! 0 = Some pitch0 →
  VoiceChanger.applyVoiceTransformation Reference.render Runs.noRandom true
    (VoiceChanger.VoiceType.value selectedType) settings buffer
  = Some (Runs.rendered selectedType settings pitch0 buffer).
Proof.
  intros Hfound Hpitch. apply applyVoiceTransformation_Some.
  split; [done|]. by exists selectedType, pitch0.
Qed.

(** C2 at four frames played at twice the pitch. *)
Lemma applyVoiceTransformation_length_witness :
  let out := Runs.rendered Runs.robot Runs.doublePitch 2.0 Runs.fourFrames in
  AudioBuffer.length out = AudioBuffer.length Runs.fourFrames
  ∧ AudioBuffer.numberOfChannels out = AudioBuffer.numberOfChannels Runs.fourFrames
  ∧ AudioBuffer.sampleRate out = AudioBuffer.sampleRate Runs.fourFrames
  ∧ ∃ selectedType pitch0 ctx,
      find (λ type, bool_decide (VoiceChanger.VoiceType.value type = "robot"))
        VoiceChanger.voiceTypes = Some selectedType
      ∧ VoiceChanger.pitch Runs.doublePitch !! 0 = Some pitch0
      ∧ out = WebAudio.startRendering Reference.render ctx
      ∧ WebAudio.nodes ctx !! 1
        = Some (WebAudio.AudioBufferSourceNode (Some Runs.fourFrames)
                  (VoiceChanger.VoiceType.pitch selectedType * pitch0)%Q (Some 0%Q)).
Proof.
  intros out.
  apply (applyVoiceTransformation_length Reference.render Runs.noRandom true "robot"
           Runs.doublePitch Runs.fourFrames out).
  apply (run_rendered Runs.robot); reflexivity.
Defined.

(** C2, as stated, fails: at pitch multiplier 2 (robot voice, base pitch 1)
    the four input frames are rendered into four frames, not two. *)
Lemma doublePitch_keeps_four_frames :
  ∃ out,
    VoiceChanger.applyVoiceTransformation Reference.render Runs.noRandom true "robot"
      Runs.doublePitch Runs.fourFrames = Some out
    ∧ VoiceChanger.pitch Runs.doublePitch = [2.0]%Q
    ∧ AudioBuffer.length out = 4
    ∧ ¬ (inject_Z (Z.of_nat (AudioBuffer.length out))
         == inject_Z (Z.of_nat (AudioBuffer.length Runs.fourFrames)) / 2.0)%Q.
Proof.
  exists (Runs.rendered Runs.robot Runs.doublePitch 2.0 Runs.fourFrames).
  split; [apply (run_rendered Runs.robot); reflexivity|].
  split; [reflexivity|]. split; [reflexivity|].
  change (AudioBuffer.length (Runs.rendered Runs.robot Runs.doublePitch 2.0 Runs.fourFrames))
    with 4.
  intros H. vm_compute in H. discriminate H.
Qed.

(** C4 at the default settings with the "elderly" voice. *)
Lemma zero_amounts_rate_only_witness :
  VoiceChanger.applyVoiceTransformation Reference.render Runs.noRandom true "elderly"
    VoiceChanger.defaultSettings Runs.fourFrames
  = RateStage.rateStageOnly Reference.render true "elderly"
      VoiceChanger.defaultSettings Runs.fourFrames.
Proof.
  apply (zero_amounts_rate_only Reference.render Runs.noRandom true "elderly"
           VoiceChanger.defaultSettings Runs.fourFrames).
  - discriminate.
  - exists 0%Q. split; reflexivity.
  - exists 0%Q. split; reflexivity.
  - exists 0%Q. split; reflexivity.
Defined.

(** C4, as stated, fails for the "robot" voice: with every amount at 0 the
    first rendered sample is the input sample 0.5 passed through the
    distortion curve of amount 0.5, below 0.2, while the rate stage alone
    returns the 0.5. *)
Lemma robot_zero_amounts_differs :
  ∃ out rateOnly,
    VoiceChanger.applyVoiceTransformation Reference.render Runs.noRandom true "robot"
      VoiceChanger.defaultSettings Runs.fourFrames = Some out
    ∧ RateStage.rateStageOnly Reference.render true "robot"
        VoiceChanger.defaultSettings Runs.fourFrames = Some rateOnly
    ∧ (AudioBuffer.samples rateOnly 0 0 == 0.5)%Q
    ∧ (AudioBuffer.samples out 0 0 < 0.2)%Q
    ∧ out ≠ rateOnly.
Proof.
  exists (Runs.rendered Runs.robot VoiceChanger.defaultSettings 1.0 Runs.fourFrames).
  eexists.
  split; [apply (run_rendered Runs.robot); reflexivity|].
  split; [reflexivity|].
  split; [by vm_compute|]. split; [by vm_compute|].
  intros Heq. apply (f_equal (λ b, AudioBuffer.samples b 0 0)) in Heq.
  vm_compute in Heq. discriminate Heq.
Qed.

(** C3 at the echo run. *)
Lemma rendered_samples_clamped_on_encoding_witness :
  let out := Runs.rendered Runs.femaleToMale Runs.fullEcho 1.0 Runs.fullScale in
  (∃ selectedType pitch0,
     find (λ type, bool_decide (VoiceChanger.VoiceType.value type = "female-to-male"))
       VoiceChanger.voiceTypes = Some selectedType
     ∧ VoiceChanger.pitch Runs.fullEcho !! 0 = Some pitch0
     ∧ ∀ channel i,
         AudioBuffer.samples out channel i
         = Reference.render
             (VoiceChanger.buildGraph Runs.noRandom "female-to-male" Runs.fullEcho
                (VoiceChanger.VoiceType.pitch selectedType * pitch0)%Q Runs.fullScale
                (WebAudio.newOfflineAudioContext
                   (AudioBuffer.numberOfChannels Runs.fullScale)
                   (AudioBuffer.length Runs.fullScale)
                   (AudioBuffer.sampleRate Runs.fullScale))).2
             channel i)
  ∧ ∃ blob, Wav.audioBufferToBlob out = Some blob
    ∧ ∀ i channel,
        i < AudioBuffer.length out → channel < AudioBuffer.numberOfChannels out →
        let clamped := Wav.clampUnit (AudioBuffer.samples out channel i) in
        let stored :=
          Wav.int16LE (Wav.sub (Blob.parts blob)
            (44 + 2 * (i * AudioBuffer.numberOfChannels out + channel)) 2) in
        (-1 <= clamped <= 1)%Q
        ∧ stored = DataView.truncate (clamped * 32767)%Q
        ∧ (-32767 ≤ stored ≤ 32767)%Z.
Proof.
  intros out.
  apply (rendered_samples_clamped_on_encoding Reference.render Runs.noRandom true
           "female-to-male" Runs.fullEcho Runs.fullScale out).
  apply (run_rendered Runs.femaleToMale); reflexivity.
Defined.

(** C3, as stated, fails: a constant full-scale input, every sample of
    which is 1, with the echo at its maximum is rendered to 6/5 at frame
    2400, where the first echo (gain 0.5) meets the dry signal (gain 0.7). *)
Lemma echo_exceeds_unit :
  ∃ out,
    VoiceChanger.applyVoiceTransformation Reference.render Runs.noRandom true
      "female-to-male" Runs.fullEcho Runs.fullScale = Some out
    ∧ (∀ i, -1 <= AudioBuffer.samples Runs.fullScale 0 i <= 1)%Q
    ∧ Runs.firstEcho < AudioBuffer.length out
    ∧ (AudioBuffer.samples out 0 Runs.firstEcho == 6 # 5)%Q
    ∧ ¬ (-1 <= AudioBuffer.samples out 0 Runs.firstEcho <= 1)%Q.
Proof.
  exists (Runs.rendered Runs.femaleToMale Runs.fullEcho 1.0 Runs.fullScale).
  split; [apply (run_rendered Runs.femaleToMale); reflexivity|].
  split; [intros i; split; discriminate|].
  split.
  { change (AudioBuffer.length
              (Runs.rendered Runs.femaleToMale Runs.fullEcho 1.0 Runs.fullScale))
      with (Z.to_nat 4000).
    unfold Runs.firstEcho. lia. }
  split; [by vm_compute|].
  intros [_ H]. vm_compute in H. apply H. reflexivity.
Qed.

(** ** Further properties of the two components *)

(** The encoder returns for every buffer: no store leaves the view.  The
    blob is typed audio/wav and holds [44 + 2 * length * numberOfChannels]
    bytes; its size fields hold the sizes modulo [2^32], the channel count
    and the block align modulo [2^16]. *)
Theorem audioBufferToBlob_total (buffer : AudioBuffer.t) :
  let dataBytes :=
    Z.of_nat (AudioBuffer.length buffer * AudioBuffer.numberOfChannels buffer * 2) in
  ∃ blob, Wav.audioBufferToBlob buffer = Some blob
    ∧ Blob.type blob = "audio/wav"
    ∧ length (Blob.parts blob)
      = 44 + AudioBuffer.length buffer * AudioBuffer.numberOfChannels buffer * 2
    ∧ Forall (λ b, 0 ≤ b < 256)%Z (Blob.parts blob)
    ∧ Wav.uintLE (Wav.sub (Blob.parts blob) 4 4) = ((36 + dataBytes) mod 2 ^ 32)%Z
    ∧ Wav.uintLE (Wav.sub (Blob.parts blob) 22 2)
      = (Z.of_nat (AudioBuffer.numberOfChannels buffer) mod 2 ^ 16)%Z
    ∧ Wav.uintLE (Wav.sub (Blob.parts blob) 32 2)
      = ((Z.of_nat (AudioBuffer.numberOfChannels buffer) * 2) mod 2 ^ 16)%Z
    ∧ Wav.uintLE (Wav.sub (Blob.parts blob) 40 4) = (dataBytes mod 2 ^ 32)%Z.
Proof.
  intros dataBytes.
  exists {| Blob.parts := Wav.headerBytes buffer ++ Wav.bodyBytes buffer;
            Blob.type := "audio/wav" |}.
  split; [apply audioBufferToBlob_bytes|]. cbn [Blob.parts Blob.type].
  pose proof (header_fields buffer (Wav.bodyBytes buffer)) as Hf. cbv zeta in Hf.
  destruct Hf as (_ & F4 & _ & _ & _ & _ & F22 & _ & _ & F32 & _ & _ & F40).
  split_and!; [done| | |done..].
  - rewrite length_app, length_bodyBytes.
    change (length (Wav.headerBytes buffer)) with 44. lia.
  - apply Forall_app. split; [apply headerBytes_range | apply bodyBytes_range].
Qed.



(** Scenario A of the specification: the robot voice at pitch 1 and every
    amount at 0. *)
Lemma robot_forces_distortion_witness :
  let ctx :=
    (VoiceChanger.buildGraph Runs.noRandom "robot" VoiceChanger.defaultSettings 1.0
       Runs.fourFrames (WebAudio.newOfflineAudioContext 1 4 8000)).2 in
  WebAudio.nodes ctx
  = [WebAudio.AudioDestinationNode;
     WebAudio.AudioBufferSourceNode (Some Runs.fourFrames) 1.0 (Some 0%Q);
     WebAudio.WaveShaperNode (Some (VoiceChanger.createDistortionCurve 0.5)) "4x"]
  ∧ WebAudio.connections ctx = [(1, 2); (2, 0)].
Proof.
  apply (robot_forces_distortion Runs.noRandom VoiceChanger.defaultSettings 1.0
           Runs.fourFrames (WebAudio.newOfflineAudioContext 1 4 8000)).
  - exists 0%Q. split; reflexivity.
  - exists 0%Q. split; reflexivity.
  - exists 0%Q. split; reflexivity.
  - reflexivity.
Defined.

(** ** More on smoothing *)

Section SmoothingMore.
Context {A : Type} `{EqDecision A}.
Implicit Types (shapes w : list A) (x y : A).

Import Lipsync.

Lemma occurrences_two w x y :
  x ≠ y → occurrences w x + occurrences w y ≤ length w.
Proof.
  intros Hne. unfold occurrences. induction w as [|a w IH]; [done|].
  rewrite !filter_cons.
  destruct (decide (a = x)), (decide (a = y)); simpl; try lia. congruence.
Qed.

(** Smoothing never invents a label: whatever the settings, the label of an
    output frame is the input label of a frame at most three positions
    away. *)
Theorem smoothMouthShapes_nearby_label settings shapes :
  ∃ out, smoothMouthShapes settings shapes = Some out
    ∧ ∀ i x, out !! i = Some x →
        ∃ j, i - 3 ≤ j ≤ i + 3 ∧ shapes !! j = Some x.
Proof.
  destruct (smoothing settings) eqn:Hs.
  - destruct (smoothMouthShapes_enabled settings shapes Hs) as (out & Hout & Hlen & Hlook).
    exists out. split; [done|]. intros i x Hx. rewrite Hlook in Hx.
    destruct (decide (3 ≤ i ∧ i + 3 < length shapes)) as [[Hi Hlt]|_].
    + destruct (majorityAt_interior shapes i Hi Hlt) as (m & Hm & k & Hk & _).
      rewrite Hm in Hx. injection Hx as ->.
      assert (k < 7) as Hk7.
      { rewrite <- (windowAround_length shapes i) by done. by eapply lookup_lt_Some. }
      rewrite windowAround_lookup in Hk by done.
      exists (i - 3 + k). split; [lia | done].
    + exists i. split; [lia | done].
  - exists shapes. unfold smoothMouthShapes. rewrite Hs. simpl. split; [done|].
    intros i x Hx. exists i. split; [lia | done].
Qed.

(** Smoothing removes glitches: a label that holds a strict majority of the
    seven frames around an interior frame, four or more, is the label of
    that frame after smoothing, whatever the frame carried before. *)
Theorem smoothMouthShapes_strict_majority settings shapes (i : nat) x :
  smoothing settings = true →
  3 ≤ i → i + 3 < length shapes →
  4 ≤ occurrences (windowAround 3 shapes i) x →
  ∃ out, smoothMouthShapes settings shapes = Some out ∧ out !! i = Some x.
Proof.
  intros Hs Hi Hlt Hmaj.
  destruct (smoothMouthShapes_enabled settings shapes Hs) as (out & Hout & Hlen & Hlook).
  exists out. split; [done|].
  rewrite Hlook, decide_True by done.
  destruct (majorityAt_interior shapes i Hi Hlt) as (m & Hm & k & Hk & Hmax & _).
  rewrite Hm. f_equal.
  destruct (decide (m = x)) as [|Hne]; [done|]. exfalso.
  specialize (Hmax x). rewrite <- !occurrences_countOf in Hmax.
  pose proof (occurrences_two (windowAround 3 shapes i) m x Hne) as Htwo.
  rewrite windowAround_length in Htwo by done. lia.
Qed.

End SmoothingMore.

(** The strict-majority property at frame 4 of a track of nine frames:
    "closed" holds four of the frames 1 to 7. *)
Lemma smoothMouthShapes_strict_majority_witness :
  ∃ out, Lipsync.smoothMouthShapes Lipsync.defaultSettings Lipsync.trackS = Some out
       ∧ out !! 4 = Some "closed".
Proof.
  apply (smoothMouthShapes_strict_majority Lipsync.defaultSettings Lipsync.trackS 4 "closed").
  - reflexivity.
  - lia.
  - simpl. lia.
  - vm_compute. lia.
Defined.

(** ** The mouth preview *)

Section MouthFacts.
Import Lipsync LipsyncGenerator.
Implicit Types (settings : Settings) (shapes : list string).

Lemma mouthShapeOf_cases settings (a : Q) :
  let t := amplitudeThreshold settings in
  (mouthShapeOf settings a = "closed" ∧ (a < t * 0.3)%Q)
  ∨ (mouthShapeOf settings a = "slightly-open" ∧ (t * 0.3 <= a)%Q ∧ (a < t * 0.6)%Q)
  ∨ (mouthShapeOf settings a = "open"
     ∧ (t * 0.3 <= a)%Q ∧ (t * 0.6 <= a)%Q ∧ (a < t * 0.8)%Q)
  ∨ (mouthShapeOf settings a = "wide-open"
     ∧ (t * 0.3 <= a)%Q ∧ (t * 0.6 <= a)%Q ∧ (t * 0.8 <= a)%Q).
Proof.
  intros t. unfold mouthShapeOf. fold t.
  destruct (Qltb a (t * 0.3)) eqn:E1;
    [apply Qltb_lt in E1; by left | apply Qltb_ge in E1].
  destruct (Qltb a (t * 0.6)) eqn:E2;
    [apply Qltb_lt in E2; right; by left | apply Qltb_ge in E2].
  destruct (Qltb a (t * 0.8)) eqn:E3;
    [apply Qltb_lt in E3; right; right; by left | apply Qltb_ge in E3].
  right; right; right. done.
Qed.

Lemma mouthShapeOf_label settings (a : Q) : mouthShapeOf settings a ∈ mouthShapes.
Proof.
  unfold mouthShapes.
  destruct (mouthShapeOf_cases settings a) as [[-> _]|[[-> _]|[[-> _]|[-> _]]]];
    repeat first [by left | right].
Qed.

Lemma generateMouthShapes_labels settings (amplitudes : list Q) :
  Forall (λ shape, shape ∈ mouthShapes) (generateMouthShapes settings amplitudes).
Proof.
  unfold generateMouthShapes. apply Forall_fmap, Forall_forall.
  intros a _. apply mouthShapeOf_label.
Qed.

Lemma mouthPath_closed settings (cx cy : Q) :
  mouthPath settings cx cy "closed"
  = [Canvas.ellipse cx cy (15 * mouthScale settings) (3 * mouthScale settings)
       0 0 (2 * VoiceChanger.MathPI)].
Proof. reflexivity. Qed.

Lemma mouthPath_slightly_open settings (cx cy : Q) :
  mouthPath settings cx cy "slightly-open"
  = [Canvas.ellipse cx cy (18 * mouthScale settings) (8 * mouthScale settings)
       0 0 (2 * VoiceChanger.MathPI)].
Proof. reflexivity. Qed.

Lemma mouthPath_open settings (cx cy : Q) :
  mouthPath settings cx cy "open"
  = [Canvas.ellipse cx cy (20 * mouthScale settings) (15 * mouthScale settings)
       0 0 (2 * VoiceChanger.MathPI)].
Proof. reflexivity. Qed.

Lemma mouthPath_wide_open settings (cx cy : Q) :
  mouthPath settings cx cy "wide-open"
  = [Canvas.ellipse cx cy (25 * mouthScale settings) (20 * mouthScale settings)
       0 0 (2 * VoiceChanger.MathPI)].
Proof. reflexivity. Qed.

(** A louder frame never gets a smaller mouth: for two amplitudes
    [a <= b], whatever the threshold, the classifier and the [switch] of
    the renderer together draw one ellipse for each, and neither radius of
    the ellipse of [a] exceeds that of [b] (the mouth scale not being
    negative). *)
Theorem mouth_opening_monotone settings (a b cx cy : Q) :
  (0 <= mouthScale settings)%Q →
  (a <= b)%Q →
  ∃ rxa rya rxb ryb,
    mouthPath settings cx cy (mouthShapeOf settings a)
    = [Canvas.ellipse cx cy rxa rya 0 0 (2 * VoiceChanger.MathPI)]
    ∧ mouthPath settings cx cy (mouthShapeOf settings b)
      = [Canvas.ellipse cx cy rxb ryb 0 0 (2 * VoiceChanger.MathPI)]
    ∧ (rxa <= rxb)%Q ∧ (rya <= ryb)%Q.
Proof.
  intros Hscale Hab.
  set (s := mouthScale settings) in *.
  destruct (mouthShapeOf_cases settings a) as [[-> Ha]|[[-> Ha]|[[-> Ha]|[-> Ha]]]];
    destruct (mouthShapeOf_cases settings b) as [[-> Hb]|[[-> Hb]|[[-> Hb]|[-> Hb]]]];
    cbv zeta in Ha, Hb;
    rewrite ?mouthPath_closed, ?mouthPath_slightly_open, ?mouthPath_open,
      ?mouthPath_wide_open;
    fold s;
    try (exfalso; lra);
    (do 4 eexists; split_and!; [reflexivity | reflexivity | lra | lra]).
Qed.

(** The animation shows the frames of the track in order, one per firing of
    the timer, each drawn by [renderMouthVisualization], and clears the
    timer after the last one; for an empty track it shows frame 0 once. *)
Theorem animate_frames settings (canvas : option Canvas.t) shapes (ticks : nat) :
  let animation := animate settings canvas shapes ticks in
  let frames := Nat.max 1 (length shapes) in
  shown animation = seq 0 (Nat.min ticks frames)
  ∧ drawn animation
    = map (renderMouthVisualization settings canvas shapes) (shown animation)
  ∧ cleared animation = bool_decide (frames ≤ ticks).
Proof.
  cbv zeta. unfold animate.
  set (frames := Nat.max 1 (length shapes)).
  assert (frameIndex (Nat.iter ticks (animationTick settings canvas shapes) startAnimation)
          = Nat.min ticks frames
          ∧ shown (Nat.iter ticks (animationTick settings canvas shapes) startAnimation)
            = seq 0 (Nat.min ticks frames)
          ∧ drawn (Nat.iter ticks (animationTick settings canvas shapes) startAnimation)
            = map (renderMouthVisualization settings canvas shapes)
                (shown (Nat.iter ticks (animationTick settings canvas shapes) startAnimation))
          ∧ cleared (Nat.iter ticks (animationTick settings canvas shapes) startAnimation)
            = bool_decide (frames ≤ ticks)) as H; [|tauto].
  induction ticks as [|ticks (Hidx & Hshown & Hdrawn & Hcleared)].
  - simpl. split_and!; [done..|]. symmetry. apply bool_decide_eq_false. unfold frames. lia.
  - simpl Nat.iter.
    set (animation := Nat.iter ticks (animationTick settings canvas shapes) startAnimation) in *.
    unfold animationTick. rewrite Hcleared.
    destruct (decide (frames ≤ ticks)) as [Hle|Hgt].
    + rewrite bool_decide_eq_true_2 by done.
      rewrite Hidx, Hshown, Hdrawn, Hshown, Hcleared.
      replace (Nat.min (S ticks) frames) with (Nat.min ticks frames) by lia.
      split_and!; [done..|].
      rewrite bool_decide_eq_true_2 by done. symmetry. apply bool_decide_eq_true. lia.
    + rewrite bool_decide_eq_false_2 by done.
      cbn [frameIndex shown drawn cleared].
      rewrite Hidx, Hshown, Hdrawn, Hshown.
      replace (Nat.min ticks frames) with ticks by lia.
      replace (Nat.min (S ticks) frames) with (S ticks) by lia.
      split_and!.
      * lia.
      * by rewrite seq_S.
      * by rewrite map_app.
      * apply bool_decide_ext. unfold frames. lia.
Qed.

End MouthFacts.

(** Monotonicity at the default settings, for the amplitudes 0.05 and 0.4
    of scenario B. *)
Lemma mouth_opening_monotone_witness :
  ∃ rxa rya rxb ryb,
    LipsyncGenerator.mouthPath Lipsync.defaultSettings 100 120
      (Lipsync.mouthShapeOf Lipsync.defaultSettings 0.05)
    = [Canvas.ellipse 100 120 rxa rya 0 0 (2 * VoiceChanger.MathPI)]
    ∧ LipsyncGenerator.mouthPath Lipsync.defaultSettings 100 120
        (Lipsync.mouthShapeOf Lipsync.defaultSettings 0.4)
      = [Canvas.ellipse 100 120 rxb ryb 0 0 (2 * VoiceChanger.MathPI)]
    ∧ (rxa <= rxb)%Q ∧ (rya <= ryb)%Q.
Proof.
  apply (mouth_opening_monotone Lipsync.defaultSettings 0.05 0.4 100 120);
    by vm_compute.
Defined.

(** ** The handlers *)

(** Membership in a list of calls that is written out. *)
Ltac in_calls := repeat first [by apply list_elem_of_here | apply list_elem_of_further].
Ltac not_in_calls H :=
  repeat (apply elem_of_cons in H as [H|H]; [discriminate H|]);
  by apply elem_of_nil in H.

Section LipsyncHandler.
Import Lipsync LipsyncGenerator.
Implicit Types (decodeAudioData : File → option AudioBuffer.t) (settings : Settings)
  (uploadedFiles : UploadedFiles.t) (audioBuffer : AudioBuffer.t).

(** The analysis returns for a window of at least one sample, and for a
    buffer without samples. *)
Lemma analyzeAudio_is_Some audioBuffer :
  is_Some (analyzeAudio audioBuffer)
  ↔ (30 ≤ AudioBuffer.sampleRate audioBuffer)%Z ∨ AudioBuffer.length audioBuffer = 0.
Proof.
  split.
  - intros Hsome.
    destruct (decide (30 ≤ AudioBuffer.sampleRate audioBuffer)%Z) as [|Hslow]; [by left|].
    destruct (decide (AudioBuffer.length audioBuffer = 0)) as [|Hlen]; [by right|].
    exfalso. unfold analyzeAudio in Hsome. cbv zeta in Hsome.
    assert (frameSizeOf audioBuffer = 0) as Hstep.
    { unfold frameSizeOf.
      assert (AudioBuffer.sampleRate audioBuffer / 30 < 1)%Z; [|lia].
      apply Z.div_lt_upper_bound; lia. }
    rewrite Hstep, analyzeLoop_stuck in Hsome by (simpl; lia).
    by destruct Hsome.
  - intros [Hrate|Hlen].
    + rewrite analyzeAudio_returns by done. done.
    + unfold analyzeAudio. cbv zeta. simpl. rewrite Hlen. simpl. done.
Qed.

Lemma smoothMouthShapes_subset {A} `{EqDecision A} settings (shapes : list A) :
  ∃ out, smoothMouthShapes settings shapes = Some out
    ∧ length out = length shapes
    ∧ ∀ x, x ∈ out → x ∈ shapes.
Proof.
  destruct (smoothing settings) eqn:Hs.
  - destruct (smoothMouthShapes_enabled settings shapes Hs) as (out & Hout & Hlen & Hlook).
    exists out. split_and!; [done..|].
    intros x [i Hx]%list_elem_of_lookup_1. rewrite Hlook in Hx.
    destruct (decide (3 ≤ i ∧ i + 3 < length shapes)) as [[Hi Hlt]|_].
    + destruct (majorityAt_interior shapes i Hi Hlt) as (m & Hm & k & Hk & _).
      rewrite Hm in Hx. injection Hx as ->.
      assert (k < 7) as Hk7.
      { rewrite <- (windowAround_length shapes i) by done. by eapply lookup_lt_Some. }
      rewrite windowAround_lookup in Hk by done.
      by eapply list_elem_of_lookup_2.
    + by eapply list_elem_of_lookup_2.
  - exists shapes. unfold smoothMouthShapes. rewrite Hs. done.
Qed.

(** The run of the handler once the file is decoded and analysed. *)
Lemma handleLipsyncGeneration_run decodeAudioData settings (now : Z) uploadedFiles
    (imageFile audioFile : File) audioBuffer (amplitudes : list Q) (track : list string) :
  UploadedFiles.image uploadedFiles = Some imageFile →
  UploadedFiles.audio uploadedFiles = Some audioFile →
  decodeAudioData audioFile = Some audioBuffer →
  analyzeAudio audioBuffer = Some amplitudes →
  smoothMouthShapes settings (generateMouthShapes settings amplitudes) = Some track →
  handleLipsyncGeneration decodeAudioData true settings now uploadedFiles
  = ([UI.setIsProcessing true;
      UI.onProcessingUpdate true 0 "Initializing browser-based lipsync generation...";
      UI.onProcessingUpdate true 20 "Loading image and audio files...";
      UI.onProcessingUpdate true 40 "Analyzing audio amplitude and frequency...";
      UI.onProcessingUpdate true 60 "Generating mouth shape keyframes...";
      UI.setMouthShapes track;
      UI.onProcessingUpdate true 80 "Creating lip-sync animation...";
      UI.setInterval track 33;
      UI.onProcessingUpdate true 100 "Lipsync generation completed!";
      UI.setProcessedVideo ("processed-lipsync-" +:+ toString now +:+ ".mp4");
      UI.toast "Lipsync Generation Complete"
        "Your video has been synchronized using browser-based audio analysis." false;
      UI.onProcessingComplete;
      UI.setIsProcessing false], Value tt).
Proof.
  intros Himage Haudio Hdecode Hanalyze Hsmooth.
  unfold handleLipsyncGeneration, lipsyncBody, loadAndAnalyzeAudio.
  rewrite Himage, Haudio. cbn -[analyzeAudio smoothMouthShapes generateMouthShapes toString].
  rewrite Hdecode. cbn -[analyzeAudio smoothMouthShapes generateMouthShapes toString].
  rewrite Hanalyze. cbn -[analyzeAudio smoothMouthShapes generateMouthShapes toString].
  rewrite Hsmooth. reflexivity.
Qed.

(** The amplitudes of a silent channel are all 0. *)
Lemma analyzeAudio_silent audioBuffer :
  (30 ≤ AudioBuffer.sampleRate audioBuffer)%Z →
  (∀ j, j < AudioBuffer.length audioBuffer →
        (AudioBuffer.samples audioBuffer 0 j == 0)%Q) →
  ∃ amplitudes, analyzeAudio audioBuffer = Some amplitudes
    ∧ length amplitudes
      = ceilDiv (AudioBuffer.length audioBuffer) (frameSizeOf audioBuffer)
    ∧ Forall (λ v, v == 0)%Q amplitudes.
Proof.
  intros Hrate Hsilent. eexists. split; [by apply analyzeAudio_returns|].
  split.
  { unfold pushedFrom. rewrite length_map, length_seq. simpl. by rewrite Nat.sub_0_r. }
  pose proof (pushedFrom_envelope (AudioBuffer.getChannelData audioBuffer 0)
                (frameSizeOf audioBuffer)) as Henv.
  simpl in Henv. eapply Forall2_Forall_l; [exact Henv|].
  unfold envelope. apply Forall_fmap, Forall_forall. intros k _.
  simpl. intros v Hv. rewrite Hv.
  apply (meanAbs_silent _ _ _ (AudioBuffer.length audioBuffer)); [lia | done].
Qed.

(** The pipeline of the component, from the uploaded file to the track.
    With an image, an audio file the browser decodes into a buffer of at
    least 30 Hz, and an audio context, the handler returns and completes;
    it stores and animates one track, of one label per analysis window,
    [ceil(length / floor(sampleRate / 30))] in all, each one of the four
    labels of the classifier. *)
Theorem handleLipsyncGeneration_track decodeAudioData settings (now : Z) uploadedFiles
    (imageFile audioFile : File) audioBuffer :
  UploadedFiles.image uploadedFiles = Some imageFile →
  UploadedFiles.audio uploadedFiles = Some audioFile →
  decodeAudioData audioFile = Some audioBuffer →
  (30 ≤ AudioBuffer.sampleRate audioBuffer)%Z →
  let run := handleLipsyncGeneration decodeAudioData true settings now uploadedFiles in
  ∃ track,
    returns run = true
    ∧ (∀ shapes, UI.setMouthShapes shapes ∈ effects run ↔ shapes = track)
    ∧ (∀ shapes delay, UI.setInterval shapes delay ∈ effects run
                       ↔ shapes = track ∧ delay = 33%Z)
    ∧ UI.onProcessingComplete ∈ effects run
    ∧ length track
      = ceilDiv (AudioBuffer.length audioBuffer)
          (Z.to_nat (AudioBuffer.sampleRate audioBuffer / 30))
    ∧ Forall (λ shape, shape ∈ mouthShapes) track.
Proof.
  intros Himage Haudio Hdecode Hrate run.
  pose proof (analyzeAudio_returns audioBuffer Hrate) as Hanalyze.
  set (amplitudes := pushedFrom (AudioBuffer.getChannelData audioBuffer 0)
                       (frameSizeOf audioBuffer) 0) in *.
  destruct (smoothMouthShapes_subset settings (generateMouthShapes settings amplitudes))
    as (track & Hsmooth & Hlen & Hsub).
  exists track. unfold run.
  rewrite (handleLipsyncGeneration_run decodeAudioData settings now uploadedFiles
             imageFile audioFile audioBuffer amplitudes track) by done.
  unfold returns, effects. cbn [fst snd].
  split_and!.
  - done.
  - intros shapes. split.
    + intros H. repeat (apply elem_of_cons in H as [H|H]; [by inversion H|]).
      by apply elem_of_nil in H.
    + intros ->. in_calls.
  - intros shapes delay. split.
    + intros H. repeat (apply elem_of_cons in H as [H|H]; [by inversion H|]).
      by apply elem_of_nil in H.
    + intros [-> ->]. in_calls.
  - in_calls.
  - rewrite Hlen. unfold generateMouthShapes, amplitudes, pushedFrom.
    rewrite !length_map, length_seq. simpl. by rewrite Nat.sub_0_r.
  - apply Forall_forall. intros shape Hshape%Hsub.
    pose proof (generateMouthShapes_labels settings amplitudes) as Hlabels.
    rewrite Forall_forall in Hlabels. by apply Hlabels.
Qed.

(** Silence closes the mouth: when channel 0 of the decoded buffer is
    silent and the amplitude threshold is positive, the track the handler
    stores is "closed" in every frame, with smoothing or without. *)
Theorem handleLipsyncGeneration_silent decodeAudioData settings (now : Z) uploadedFiles
    (imageFile audioFile : File) audioBuffer :
  UploadedFiles.image uploadedFiles = Some imageFile →
  UploadedFiles.audio uploadedFiles = Some audioFile →
  decodeAudioData audioFile = Some audioBuffer →
  (30 ≤ AudioBuffer.sampleRate audioBuffer)%Z →
  (∀ j, j < AudioBuffer.length audioBuffer →
        (AudioBuffer.samples audioBuffer 0 j == 0)%Q) →
  (0 < amplitudeThreshold settings)%Q →
  let frames :=
    ceilDiv (AudioBuffer.length audioBuffer)
      (Z.to_nat (AudioBuffer.sampleRate audioBuffer / 30)) in
  UI.setMouthShapes (replicate frames "closed")
  ∈ effects (handleLipsyncGeneration decodeAudioData true settings now uploadedFiles).
Proof.
  intros Himage Haudio Hdecode Hrate Hsilent Hthreshold frames.
  destruct (analyzeAudio_silent audioBuffer Hrate Hsilent)
    as (amplitudes & Hanalyze & Hlen & Hzero).
  destruct (smoothMouthShapes_subset settings (generateMouthShapes settings amplitudes))
    as (track & Hsmooth & Hlentrack & Hsub).
  rewrite (handleLipsyncGeneration_run decodeAudioData settings now uploadedFiles
             imageFile audioFile audioBuffer amplitudes track) by done.
  assert (replicate frames "closed" = track) as ->; [|unfold effects; cbn [fst]; in_calls].
  apply replicate_as_Forall. split.
  - rewrite Hlentrack. unfold generateMouthShapes. by rewrite length_map.
  - apply Forall_forall. intros shape Hshape%Hsub.
    unfold generateMouthShapes in Hshape.
    apply list_elem_of_fmap in Hshape as (v & -> & Hv).
    rewrite Forall_forall in Hzero. specialize (Hzero v Hv).
    unfold mouthShapeOf.
    assert (Qltb v (amplitudeThreshold settings * 0.3) = true) as ->; [|done].
    apply Qltb_lt. rewrite Hzero. lra.
Qed.

(** When the handler completes: exactly when both files are there, the
    audio context exists, the browser decodes the audio file, and the
    decoded buffer has a sample rate of at least 30 Hz or no sample at
    all.  Smoothing and classification never make it fail. *)
Theorem handleLipsyncGeneration_completes decodeAudioData (audioContext : bool) settings
    (now : Z) uploadedFiles :
  UI.onProcessingComplete
  ∈ effects (handleLipsyncGeneration decodeAudioData audioContext settings now uploadedFiles)
  ↔ is_Some (UploadedFiles.image uploadedFiles)
    ∧ audioContext = true
    ∧ ∃ audioFile audioBuffer,
        UploadedFiles.audio uploadedFiles = Some audioFile
        ∧ decodeAudioData audioFile = Some audioBuffer
        ∧ ((30 ≤ AudioBuffer.sampleRate audioBuffer)%Z
           ∨ AudioBuffer.length audioBuffer = 0).
Proof.
  destruct (UploadedFiles.image uploadedFiles) as [imageFile|] eqn:Himage; cycle 1.
  { unfold handleLipsyncGeneration. rewrite Himage. cbn. split.
    - intros H. not_in_calls H.
    - by intros [[? [=]] _]. }
  destruct (UploadedFiles.audio uploadedFiles) as [audioFile|] eqn:Haudio; cycle 1.
  { unfold handleLipsyncGeneration. rewrite Himage, Haudio. cbn. split.
    - intros H. not_in_calls H.
    - by intros (_ & _ & ? & ? & [=] & _). }
  destruct audioContext; cycle 1.
  { unfold handleLipsyncGeneration. rewrite Himage, Haudio. cbn. split.
    - intros H. not_in_calls H.
    - by intros (_ & [=] & _). }
  destruct (decodeAudioData audioFile) as [audioBuffer|] eqn:Hdecode; cycle 1.
  { unfold handleLipsyncGeneration, lipsyncBody, loadAndAnalyzeAudio.
    rewrite Himage, Haudio. cbn -[analyzeAudio]. rewrite Hdecode. cbn. split.
    - intros H. not_in_calls H.
    - intros (_ & _ & ? & ? & [= <-] & Hd & _). congruence. }
  destruct (analyzeAudio audioBuffer) as [amplitudes|] eqn:Hanalyze.
  - destruct (smoothMouthShapes_subset settings (generateMouthShapes settings amplitudes))
      as (track & Hsmooth & _).
    rewrite (handleLipsyncGeneration_run decodeAudioData settings now uploadedFiles
               imageFile audioFile audioBuffer amplitudes track) by done.
    unfold effects. cbn [fst]. split.
    + intros _. split_and!; [done..|]. exists audioFile, audioBuffer.
      split_and!; [done..|]. apply analyzeAudio_is_Some. by rewrite Hanalyze.
    + intros _. in_calls.
  - unfold handleLipsyncGeneration, lipsyncBody, loadAndAnalyzeAudio.
    rewrite Himage, Haudio. cbn -[analyzeAudio]. rewrite Hdecode. cbn -[analyzeAudio].
    rewrite Hanalyze. cbn. split.
    + intros H. not_in_calls H.
    + intros (_ & _ & ? & b & [= <-] & Hd & Hrate). exfalso.
      assert (b = audioBuffer) as -> by congruence.
      apply analyzeAudio_is_Some in Hrate. rewrite Hanalyze in Hrate. by destruct Hrate.
Qed.

End LipsyncHandler.

Section VoiceHandler.
Import VoiceChanger VoiceChangerHandlers.
Implicit Types (decodeAudioData : File → option AudioBuffer.t)
  (render : WebAudio.Renderer) (random : RandomSource) (settings : Settings)
  (uploadedFiles : UploadedFiles.t) (buffer processedBuffer : AudioBuffer.t).

(** The run of the handler past its three guards, by what the decoder and
    the transformation return. *)
Lemma handleVoiceChange_run decodeAudioData render random (selectedVoiceType : string)
    settings uploadedFiles (audioFile : File) :
  selectedVoiceType ≠ "" →
  orFile (UploadedFiles.audio uploadedFiles) (UploadedFiles.video uploadedFiles)
    = Some audioFile →
  handleVoiceChange decodeAudioData render random true selectedVoiceType settings
    uploadedFiles
  = match decodeAudioData audioFile with
    | None =>
        ([UI.setIsProcessing true;
          UI.onProcessingUpdate true 0 "Initializing browser-based voice transformation...";
          UI.onProcessingUpdate true 20 "Loading audio file...";
          UI.onProcessingUpdate false 0 "";
          UI.toast "Transformation Failed"
            "There was an error processing your audio. Please try again." true;
          UI.setIsProcessing false], Value tt)
    | Some buffer =>
        match applyVoiceTransformation render random true selectedVoiceType settings
                buffer with
        | None =>
            ([UI.setIsProcessing true;
              UI.onProcessingUpdate true 0
                "Initializing browser-based voice transformation...";
              UI.onProcessingUpdate true 20 "Loading audio file...";
              UI.setSourceBuffer buffer;
              UI.onProcessingUpdate true 40 "Analyzing audio characteristics...";
              UI.onProcessingUpdate true 60 "Applying voice transformation...";
              UI.onProcessingUpdate false 0 "";
              UI.toast "Transformation Failed"
                "There was an error processing your audio. Please try again." true;
              UI.setIsProcessing false], Value tt)
        | Some processedBuffer =>
            ([UI.setIsProcessing true;
              UI.onProcessingUpdate true 0
                "Initializing browser-based voice transformation...";
              UI.onProcessingUpdate true 20 "Loading audio file...";
              UI.setSourceBuffer buffer;
              UI.onProcessingUpdate true 40 "Analyzing audio characteristics...";
              UI.onProcessingUpdate true 60 "Applying voice transformation...";
              UI.onProcessingUpdate true 80 "Optimizing audio quality...";
              UI.setProcessedAudio
                {| Blob.parts := Wav.headerBytes processedBuffer
                                 ++ Wav.bodyBytes processedBuffer;
                   Blob.type := "audio/wav" |};
              UI.onProcessingUpdate true 100 "Voice transformation completed!";
              UI.toast "Voice Transformation Complete"
                "Your audio has been successfully transformed using browser-based processing."
                false;
              UI.onProcessingComplete;
              UI.setIsProcessing false], Value tt)
        end
    end.
Proof.
  intros Hselected Hfile.
  unfold handleVoiceChange, voiceChangeBody, loadAudioFile.
  rewrite bool_decide_eq_false_2 by done.
  assert (missing (UploadedFiles.audio uploadedFiles)
          && missing (UploadedFiles.video uploadedFiles) = false) as ->.
  { destruct (UploadedFiles.audio uploadedFiles), (UploadedFiles.video uploadedFiles);
      done. }
  rewrite Hfile. cbn -[applyVoiceTransformation Wav.audioBufferToBlob].
  destruct (decodeAudioData audioFile) as [buffer|]; [|reflexivity].
  cbn -[applyVoiceTransformation Wav.audioBufferToBlob].
  destruct (applyVoiceTransformation render random true selectedVoiceType settings buffer)
    as [processedBuffer|]; [|reflexivity].
  cbn -[applyVoiceTransformation Wav.audioBufferToBlob].
  rewrite audioBufferToBlob_bytes. reflexivity.
Qed.

(** The three guards: one destructive toast and nothing else. *)
Lemma handleVoiceChange_guarded decodeAudioData render random (audioContext : bool)
    (selectedVoiceType : string) settings uploadedFiles :
  selectedVoiceType = ""
  ∨ orFile (UploadedFiles.audio uploadedFiles) (UploadedFiles.video uploadedFiles) = None
  ∨ audioContext = false →
  ∃ title description,
    handleVoiceChange decodeAudioData render random audioContext selectedVoiceType
      settings uploadedFiles
    = ([UI.toast title description true], Value tt).
Proof.
  intros Hguard. unfold handleVoiceChange.
  destruct (decide (selectedVoiceType = "")) as [->|Hselected]; [by eauto|].
  rewrite bool_decide_eq_false_2 by done.
  destruct (UploadedFiles.audio uploadedFiles) as [a|] eqn:Ha;
    destruct (UploadedFiles.video uploadedFiles) as [v|] eqn:Hv;
    cbn [missing andb orFile] in *;
    try (do 2 eexists; reflexivity);
    (destruct audioContext;
     [exfalso; destruct Hguard as [?|[?|?]]; done | do 2 eexists; reflexivity]).
Qed.

(** When the voice change completes, and what it stores.  The handler
    calls [onProcessingComplete] exactly when a voice type is selected, the
    audio context exists, the browser decodes the uploaded audio (or, in
    its absence, video) file, the voice type is one of the table and the
    pitch slider has a value; encoding never makes it fail.  The blob it
    stores is then a WAV file of [44 + 2 * length * numberOfChannels]
    bytes, for the length and channel count of the decoded input. *)
Theorem handleVoiceChange_completes decodeAudioData render random (audioContext : bool)
    (selectedVoiceType : string) settings uploadedFiles :
  let run :=
    handleVoiceChange decodeAudioData render random audioContext selectedVoiceType
      settings uploadedFiles in
  let source :=
    orFile (UploadedFiles.audio uploadedFiles) (UploadedFiles.video uploadedFiles)
    ≫= decodeAudioData in
  (UI.onProcessingComplete ∈ effects run
   ↔ selectedVoiceType ≠ "" ∧ audioContext = true ∧ is_Some source
     ∧ is_Some (find (λ type, bool_decide (VoiceType.value type = selectedVoiceType))
                  voiceTypes)
     ∧ is_Some (pitch settings !! 0))
  ∧ ∀ blob, UI.setProcessedAudio blob ∈ effects run →
      UI.onProcessingComplete ∈ effects run
      ∧ Blob.type blob = "audio/wav"
      ∧ ∃ buffer, source = Some buffer
          ∧ length (Blob.parts blob)
            = 44 + AudioBuffer.length buffer * AudioBuffer.numberOfChannels buffer * 2.
Proof.
  intros run source.
  destruct (decide (selectedVoiceType = ""
                    ∨ orFile (UploadedFiles.audio uploadedFiles)
                        (UploadedFiles.video uploadedFiles) = None
                    ∨ audioContext = false)) as [Hguard|Hgo].
  { destruct (handleVoiceChange_guarded decodeAudioData render random audioContext
                selectedVoiceType settings uploadedFiles Hguard) as (t & d & Hrun).
    unfold run, effects. rewrite Hrun. cbn [fst]. split.
    - split; [intros H; not_in_calls H|].
      intros (Hsel & Hctx & Hsrc & _). exfalso.
      destruct Hguard as [?|[Hnone|?]]; [done| |congruence].
      unfold source in Hsrc. rewrite Hnone in Hsrc. by destruct Hsrc.
    - intros blob H. not_in_calls H. }
  assert (selectedVoiceType ≠ "") as Hselected by tauto.
  assert (audioContext = true) as -> by (destruct audioContext; tauto).
  destruct (orFile (UploadedFiles.audio uploadedFiles)
              (UploadedFiles.video uploadedFiles)) as [audioFile|] eqn:Hfile; [|tauto].
  unfold run, effects.
  rewrite (handleVoiceChange_run decodeAudioData render random selectedVoiceType settings
             uploadedFiles audioFile) by done.
  unfold source. cbn [mbind option_bind].
  destruct (decodeAudioData audioFile) as [buffer|] eqn:Hdecode; cbn [fst]; cycle 1.
  { split.
    - split; [intros H; not_in_calls H|]. by intros (_ & _ & [? [=]] & _).
    - intros blob H. not_in_calls H. }
  destruct (applyVoiceTransformation render random true selectedVoiceType settings buffer)
    as [processedBuffer|] eqn:Happly; cbn [fst].
  - apply applyVoiceTransformation_Some in Happly
      as (_ & selectedType & pitch0 & Hfound & Hpitch & Hout).
    split.
    + split; [|intros _; in_calls].
      intros _. rewrite Hfound, Hpitch. split_and!; by eauto.
    + intros blob H.
      repeat (apply elem_of_cons in H as [H|H]; [try discriminate H|]);
        [|by apply elem_of_nil in H].
      assert (blob = {| Blob.parts := Wav.headerBytes processedBuffer
                                      ++ Wav.bodyBytes processedBuffer;
                        Blob.type := "audio/wav" |}) as -> by congruence.
      clear H. split; [in_calls|]. split; [done|].
      exists buffer. split; [done|]. cbn [Blob.parts].
      rewrite length_app, length_bodyBytes.
      change (length (Wav.headerBytes processedBuffer)) with 44.
      pose proof (buildGraph_context random selectedVoiceType settings
                    (VoiceType.pitch selectedType * pitch0)%Q buffer
                    (AudioBuffer.numberOfChannels buffer) (AudioBuffer.length buffer)
                    (AudioBuffer.sampleRate buffer)) as Hctx.
      cbv zeta in Hctx. destruct Hctx as (Hch & Hlen & _).
      rewrite Hout.
      cbn [WebAudio.startRendering AudioBuffer.length AudioBuffer.numberOfChannels].
      rewrite Hch, Hlen. lia.
  - split.
    + split; [intros H; not_in_calls H|].
      intros (_ & _ & _ & [selectedType Hfound] & [pitch0 Hpitch]). exfalso.
      assert (is_Some (applyVoiceTransformation render random true selectedVoiceType
                         settings buffer)) as Hsome.
      { eexists. apply applyVoiceTransformation_Some. split; [done|].
        by exists selectedType, pitch0. }
      rewrite Happly in Hsome. by destruct Hsome.
    + intros blob H. not_in_calls H.
Qed.

(** What the page is told.  A run is one of three: a guard stops it after
    one destructive toast; or it completes, having reported the progress
    0, 20, 40, 60, 80 and 100, every report with [isProcessing] still set,
    the last one included; or it fails, its last report being the reset
    [isProcessing = false, progress 0], followed by the failure toast.  In
    the last two cases the last call resets the component's own
    [isProcessing]. *)
Theorem handleVoiceChange_reports decodeAudioData render random (audioContext : bool)
    (selectedVoiceType : string) settings uploadedFiles :
  let run :=
    handleVoiceChange decodeAudioData render random audioContext selectedVoiceType
      settings uploadedFiles in
  (∃ title description, effects run = [UI.toast title description true])
  ∨ (UI.onProcessingComplete ∈ effects run
     ∧ map (λ report, (report.1.1, report.1.2)) (UI.reports (effects run))
       = [(true, 0); (true, 20); (true, 40); (true, 60); (true, 80); (true, 100)]%Z
     ∧ last (effects run) = Some (UI.setIsProcessing false))
  ∨ ((UI.onProcessingComplete ∉ effects run)
     ∧ last (UI.reports (effects run)) = Some (false, 0%Z, "")
     ∧ UI.toast "Transformation Failed"
         "There was an error processing your audio. Please try again." true
       ∈ effects run
     ∧ last (effects run) = Some (UI.setIsProcessing false)).
Proof.
  intros run.
  destruct (decide (selectedVoiceType = ""
                    ∨ orFile (UploadedFiles.audio uploadedFiles)
                        (UploadedFiles.video uploadedFiles) = None
                    ∨ audioContext = false)) as [Hguard|Hgo].
  { left.
    destruct (handleVoiceChange_guarded decodeAudioData render random audioContext
                selectedVoiceType settings uploadedFiles Hguard) as (t & d & Hrun).
    exists t, d. unfold run, effects. by rewrite Hrun. }
  right.
  assert (selectedVoiceType ≠ "") as Hselected by tauto.
  assert (audioContext = true) as -> by (destruct audioContext; tauto).
  destruct (orFile (UploadedFiles.audio uploadedFiles)
              (UploadedFiles.video uploadedFiles)) as [audioFile|] eqn:Hfile; [|tauto].
  unfold run, effects.
  rewrite (handleVoiceChange_run decodeAudioData render random selectedVoiceType settings
             uploadedFiles audioFile) by done.
  destruct (decodeAudioData audioFile) as [buffer|]; cbn [fst]; cycle 1.
  { right. split_and!; [intros H; not_in_calls H | done | in_calls | done]. }
  destruct (applyVoiceTransformation render random true selectedVoiceType settings buffer)
    as [processedBuffer|]; cbn [fst].
  - left. split_and!; [in_calls | done | done].
  - right. split_and!; [intros H; not_in_calls H | done | in_calls | done].
Qed.

End VoiceHandler.

(** ** The clock *)

Lemma Qfloor_unique (x : Q) (z : Z) :
  (inject_Z z <= x)%Q → (x < inject_Z (z + 1))%Q → Qfloor x = z.
Proof.
  intros Hle Hlt.
  pose proof (Qfloor_le x) as Hfl. pose proof (Qlt_floor x) as Hfu.
  assert (z < Qfloor x + 1)%Z.
  { rewrite Zlt_Qlt. eapply Qle_lt_trans; [exact Hle | exact Hfu]. }
  assert (Qfloor x < z + 1)%Z.
  { rewrite Zlt_Qlt. eapply Qle_lt_trans; [exact Hfl | exact Hlt]. }
  lia.
Qed.

(** The seconds field: two digits for every value a remainder by 60 can
    take. *)
Lemma padStart_seconds (seconds : Z) :
  (0 ≤ seconds < 60)%Z →
  padStart (toString seconds) 2 "0"
  = toString (seconds / 10) +:+ toString (seconds mod 10).
Proof.
  intros Hrange.
  assert (forallb (λ n, String.eqb (padStart (toString (Z.of_nat n)) 2 "0")
                          (toString (Z.of_nat n / 10)
                           +:+ toString (Z.of_nat n mod 10)))
            (seq 0 60) = true) as Hall by (vm_compute; reflexivity).
  rewrite forallb_forall in Hall.
  specialize (Hall (Z.to_nat seconds)).
  rewrite Z2Nat.id in Hall by lia.
  apply String.eqb_eq, Hall, in_seq. lia.
Qed.

(** Minutes and seconds of a time that is not negative. *)
Lemma clock_fields (time : Q) :
  (0 <= time)%Q →
  Qfloor (time / 60) = (Qfloor time / 60)%Z
  ∧ Qfloor (remainder time 60) = (Qfloor time mod 60)%Z.
Proof.
  intros Hpos.
  set (whole := Qfloor time).
  pose proof (Qfloor_le time) as Hfl. pose proof (Qlt_floor time) as Hfu.
  fold whole in Hfl, Hfu.
  assert (0 ≤ whole)%Z as Hwhole.
  { assert (0 < whole + 1)%Z; [|lia].
    rewrite Zlt_Qlt. eapply Qle_lt_trans; [exact Hpos | exact Hfu]. }
  pose proof (Z.div_mod whole 60 ltac:(lia)) as Hdm.
  pose proof (Z.mod_pos_bound whole 60 ltac:(lia)) as Hmod.
  set (q := (whole / 60)%Z) in *. set (r := (whole mod 60)%Z) in *.
  assert (inject_Z whole == 60 * inject_Z q + inject_Z r)%Q as Hwq.
  { rewrite Hdm, inject_Z_plus, inject_Z_mult. reflexivity. }
  assert (0 <= inject_Z r)%Q as Hr0.
  { change 0%Q with (inject_Z 0). rewrite <- Zle_Qle. lia. }
  assert (inject_Z r <= 59)%Q as Hr59.
  { change 59%Q with (inject_Z 59). rewrite <- Zle_Qle. lia. }
  rewrite inject_Z_plus in Hfu. change (inject_Z 1) with 1%Q in Hfu.
  assert (Qfloor (time / 60) = q) as Hminutes.
  { apply Qfloor_unique.
    - apply Qle_shift_div_l; [reflexivity|]. lra.
    - apply Qlt_shift_div_r; [reflexivity|].
      rewrite inject_Z_plus. change (inject_Z 1) with 1%Q. lra. }
  split; [done|].
  unfold remainder, DataView.truncate.
  assert (Qltb (time / 60) 0 = false) as ->.
  { apply Qltb_ge. apply Qle_shift_div_l; [reflexivity | lra]. }
  rewrite Hminutes. apply Qfloor_unique.
  - lra.
  - rewrite inject_Z_plus. change (inject_Z 1) with 1%Q. lra.
Qed.

(** The clock shows whole minutes and seconds: for a time that is not
    negative and below [2^53] seconds, with [whole] the whole seconds
    elapsed, the text is the number [whole / 60], a colon, and the two
    decimal digits of [whole mod 60].  The clock of [VideoPreview], with
    its guard for 0, shows the same text.  (Below [2^53] a binary64 time
    has the whole minutes of its exact quotient by 60 also when the
    quotient is rounded, and the minutes print all their digits; neither
    holds for every time beyond.) *)
Theorem formatTime_clock (time : Q) :
  (0 <= time)%Q → (time < 9007199254740992)%Q →
  let whole := Qfloor time in
  let seconds := (whole mod 60)%Z in
  formatTime time
  = toString (whole / 60) +:+ ":" +:+ toString (seconds / 10)
    +:+ toString (seconds mod 10)
  ∧ VideoPreview.formatTime time = formatTime time.
Proof.
  intros Hpos _ whole seconds.
  destruct (clock_fields time Hpos) as [Hminutes Hseconds].
  assert (formatTime time
          = toString (whole / 60) +:+ ":" +:+ toString (seconds / 10)
            +:+ toString (seconds mod 10)) as Hclock.
  { unfold formatTime. cbv zeta. rewrite Hminutes, Hseconds.
    fold whole. fold seconds.
    rewrite padStart_seconds by (apply Z.mod_pos_bound; lia). done. }
  split; [done|].
  unfold VideoPreview.formatTime.
  destruct (Qeq_bool time 0) eqn:Hzero; [|reflexivity].
  apply Qeq_bool_iff in Hzero. rewrite Hclock.
  unfold seconds, whole. rewrite (Qfloor_comp _ _ Hzero). reflexivity.
Qed.

(** The clock at 125.5 seconds shows 2:05. *)
Lemma formatTime_clock_witness :
  let whole := Qfloor 125.5 in
  let seconds := (whole mod 60)%Z in
  formatTime 125.5
  = toString (whole / 60) +:+ ":" +:+ toString (seconds / 10)
    +:+ toString (seconds mod 10)
  ∧ VideoPreview.formatTime 125.5 = formatTime 125.5.
Proof. apply (formatTime_clock 125.5); by vm_compute. Defined.

(** ** The workflow of the page *)

Section Workflow.
Import HomePage.

Lemma handle_keeps_preview (st : State) (event : Event) :
  Unprocessed event →
  currentStep st ≤ 3 → hasProcessedContent st = false →
  currentStep (handle st event) ≤ 3 ∧ hasProcessedContent (handle st event) = false.
Proof.
  intros Hevent Hstep Hcontent. destruct event as [p|p|f k|t|s| |index|]; cbn [handle].
  - destruct Hevent as (Hv & Ha & _).
    unfold hasProcessedContent. cbn. rewrite Hv, Ha. split; [lia | done].
  - destruct Hevent as (Hv & Ha & Hf).
    unfold hasProcessedContent. cbn. rewrite Hv, Ha, Hf. cbn.
    split; [|done]. destruct (truthy (originalVideoPath p)); lia.
  - unfold handleFileUpload, hasProcessedContent in *.
    destruct (currentProject st) as [project|] eqn:Hproject; [|by rewrite Hproject].
    destruct (decide (currentStep st = 0)); cbn; rewrite Hproject; split; done || lia.
  - unfold hasProcessedContent in *. cbn. split; [lia | done].
  - unfold hasProcessedContent in *. cbn. split; done.
  - unfold hasProcessedContent in *. cbn. split; [lia | done].
  - destruct (bool_decide (index ≤ currentStep st) || canProceedToStep index st);
      [|done].
    unfold goToStep. destruct (decide (index ≤ currentStep st)); [|done].
    unfold hasProcessedContent in *. cbn. split; [lia | done].
  - rewrite Hcontent, andb_false_r. done.
Qed.

(** The export step is out of reach for a project without processed
    content.  Whatever the page is sent, in any order -- the callbacks of
    its children, clicks on the steps, clicks on the approval button --,
    as long as the projects it is handed carry no processed video, no
    processed audio and no final video, it never shows step 4: no handler
    records processed content, so the approval button of the preview step
    stays disabled, and a click on a step never moves forward. *)
Theorem export_step_unreachable (events : list Event) :
  Forall Unprocessed events →
  let st := foldl handle initialState events in
  currentStep st ≤ 3 ∧ hasProcessedContent st = false.
Proof.
  intros Hevents. cbv zeta.
  assert (currentStep initialState ≤ 3 ∧ hasProcessedContent initialState = false)
    as Hinit by (split; [cbn; lia | done]).
  revert Hinit. generalize initialState as st.
  induction Hevents as [|event events Hevent _ IH]; intros st [Hstep Hcontent]; [done|].
  cbn [foldl]. apply IH. by apply handle_keeps_preview.
Qed.

End Workflow.

(** ** The upload *)

Section UploadFacts.
Import UploadRoute VideoUpload.

Variable toLowerCase : string → string.
Variable store : File → string → string → bool.
Variable now : Z.

Implicit Types (file : File) (kind : FileKind.t).

Lemma startsWith_image (s : string) :
  startsWith s "image/" = true →
  startsWith s "video/" = false ∧ startsWith s "audio/" = false.
Proof.
  unfold startsWith. destruct s as [|c s]; [done|]. cbn [String.prefix].
  destruct (Ascii.ascii_dec _ c) as [<-|]; [split; reflexivity | discriminate].
Qed.

Lemma getFileType_media file kind :
  getFileType file = Some kind → kind ≠ FileKind.image →
  isVideo toLowerCase file || isAudio toLowerCase file = true.
Proof.
  unfold getFileType, isVideo, isAudio.
  destruct (startsWith (file_type file) "video/"); [done|].
  destruct (startsWith (file_type file) "audio/"); [by rewrite orb_true_r|].
  destruct (startsWith (file_type file) "image/"); [|done].
  by intros [= <-].
Qed.

(** An audio or video file that passes the checks of the browser side
    passes those of the route: the type is accepted, 50 MB is under the
    limit of 100 MB.  The route answers by the name it stored the file
    under, [<type>_<timestamp>.<extension>], and the page is handed the
    file, exactly when storing succeeds. *)
Theorem handleFileUpload_media (projectId : string) file kind :
  getFileType file = Some kind → kind ≠ FileKind.image →
  (file_size file ≤ 50 * 1024 * 1024)%Z →
  projectId ≠ "" →
  let request :=
    {| UploadRoute.file := Some file; UploadRoute.projectId := Some projectId;
       UploadRoute.type := Some (FileKind.name kind) |} in
  let filename :=
    FileKind.name kind +:+ "_" +:+ toString now +:+ "."
    +:+ lastSegment (file_name file) in
  POST toLowerCase store now request
  = (if store file projectId filename then success filename
     else error 500 "Failed to upload file")
  ∧ (onFileUpload file kind ∈ effects (handleFileUpload (fetchRoute toLowerCase store now) (Some projectId) file)
     ↔ store file projectId filename = true).
Proof.
  intros Hkind Hmedia Hsize Hproject request filename.
  assert (POST toLowerCase store now request
          = (if store file projectId filename then success filename
             else error 500 "Failed to upload file")) as Hpost.
  { unfold POST, request. cbn [UploadRoute.file UploadRoute.projectId UploadRoute.type].
    assert (truthy (Some projectId) = true) as ->.
    { cbn. by rewrite bool_decide_eq_false_2. }
    assert (truthy (Some (FileKind.name kind)) = true) as -> by (by destruct kind).
    pose proof (getFileType_media file kind Hkind Hmedia) as Htype.
    assert (negb (isVideo toLowerCase file) && negb (isAudio toLowerCase file) = false)
      as ->.
    { destruct (isVideo toLowerCase file), (isAudio toLowerCase file); done. }
    assert ((maxSize <? file_size file)%Z = false) as ->.
    { apply Z.ltb_ge. unfold maxSize. lia. }
    reflexivity. }
  split; [done|].
  unfold handleFileUpload, uploadBody. rewrite Hkind.
  assert ((50 * 1024 * 1024 <? file_size file)%Z = false) as -> by (apply Z.ltb_ge; lia).
  unfold fetchRoute. fold request. rewrite Hpost. fold filename.
  destruct (store file projectId filename); cbn.
  - split; [done|]. intros _. in_calls.
  - split; [|done]. intros H. not_in_calls H.
Qed.

(** An image does not get through.  A file the browser side takes for an
    image (a MIME type that starts with "image/") is refused by the route
    unless its lower-cased name ends in one of the ten media extensions;
    the upload fails and the page is never handed a file, whatever the
    project and the size. *)
Theorem handleFileUpload_image_refused (currentProject : option string) file :
  startsWith (file_type file) "image/" = true →
  matchesExtension ["mp4"; "mov"; "avi"; "webm"; "mkv"] (toLowerCase (file_name file))
    = false →
  matchesExtension ["mp3"; "wav"; "aac"; "ogg"; "m4a"] (toLowerCase (file_name file))
    = false →
  getFileType file = Some FileKind.image
  ∧ (∀ projectId type,
       truthy projectId = true → truthy type = true →
       POST toLowerCase store now
         {| UploadRoute.file := Some file; UploadRoute.projectId := projectId;
            UploadRoute.type := type |}
       = error 400 "Invalid file type. Please upload a video or audio file.")
  ∧ ∀ uploaded kind,
      onFileUpload uploaded kind
      ∉ effects (handleFileUpload (fetchRoute toLowerCase store now) currentProject
                 file).
Proof.
  intros Himage Hvideo Haudio.
  destruct (startsWith_image _ Himage) as [Hnv Hna].
  assert (getFileType file = Some FileKind.image) as Hkind.
  { unfold getFileType. by rewrite Hnv, Hna, Himage. }
  assert (∀ projectId type,
            truthy projectId = true → truthy type = true →
            POST toLowerCase store now
              {| UploadRoute.file := Some file; UploadRoute.projectId := projectId;
                 UploadRoute.type := type |}
            = error 400 "Invalid file type. Please upload a video or audio file.")
    as Hpost.
  { intros projectId type Hp Ht. unfold POST.
    cbn [UploadRoute.file UploadRoute.projectId UploadRoute.type].
    rewrite Hp, Ht. unfold isVideo, isAudio. rewrite Hnv, Hna, Hvideo, Haudio.
    reflexivity. }
  split; [done|]. split; [done|].
  intros uploaded kind. unfold handleFileUpload, uploadBody.
  destruct currentProject as [projectId|]; [|cbn; intros H; not_in_calls H].
  rewrite Hkind.
  destruct (50 * 1024 * 1024 <? file_size file)%Z; [cbn; intros H; not_in_calls H|].
  unfold fetchRoute.
  destruct (decide (projectId = "")) as [->|Hproject].
  - cbn. intros H. not_in_calls H.
  - rewrite Hpost; [|cbn; by rewrite bool_decide_eq_false_2 | done].
    cbn. intros H. not_in_calls H.
Qed.

End UploadFacts.

(** ** The properties above, at a session *)

(** The pipeline at the square wave: three frames. *)
Lemma handleLipsyncGeneration_track_witness :
  let run :=
    LipsyncGenerator.handleLipsyncGeneration (Session.decodeAs Lipsync.squareWave) true
      Lipsync.defaultSettings 0 Session.uploaded in
  ∃ track,
    returns run = true
    ∧ (∀ shapes, UI.setMouthShapes shapes ∈ effects run ↔ shapes = track)
    ∧ (∀ shapes delay, UI.setInterval shapes delay ∈ effects run
                       ↔ shapes = track ∧ delay = 33%Z)
    ∧ UI.onProcessingComplete ∈ effects run
    ∧ length track
      = Lipsync.ceilDiv (AudioBuffer.length Lipsync.squareWave)
          (Z.to_nat (AudioBuffer.sampleRate Lipsync.squareWave / 30))
    ∧ Forall (λ shape, shape ∈ LipsyncGenerator.mouthShapes) track.
Proof.
  apply (handleLipsyncGeneration_track (Session.decodeAs Lipsync.squareWave)
           Lipsync.defaultSettings 0 Session.uploaded Session.portrait Session.speech
           Lipsync.squareWave).
  - reflexivity.
  - reflexivity.
  - reflexivity.
  - simpl. lia.
Defined.

(** Silence at 8 kHz: three closed frames. *)
Lemma handleLipsyncGeneration_silent_witness :
  let frames :=
    Lipsync.ceilDiv (AudioBuffer.length Session.silence)
      (Z.to_nat (AudioBuffer.sampleRate Session.silence / 30)) in
  UI.setMouthShapes (replicate frames "closed")
  ∈ effects (LipsyncGenerator.handleLipsyncGeneration (Session.decodeAs Session.silence)
               true Lipsync.defaultSettings 0 Session.uploaded).
Proof.
  apply (handleLipsyncGeneration_silent (Session.decodeAs Session.silence)
           Lipsync.defaultSettings 0 Session.uploaded Session.portrait Session.speech
           Session.silence).
  - reflexivity.
  - reflexivity.
  - reflexivity.
  - simpl. lia.
  - intros j _. reflexivity.
  - by vm_compute.
Defined.

(** A session on a fresh project stops at the preview. *)
Lemma export_step_unreachable_witness :
  let st := foldl HomePage.handle HomePage.initialState Session.events in
  HomePage.currentStep st ≤ 3 ∧ HomePage.hasProcessedContent st = false.
Proof.
  apply (export_step_unreachable Session.events).
  unfold Session.events. repeat constructor.
Defined.

(** The audio file of the session is stored as [audio_0.wav]. *)
Lemma handleFileUpload_media_witness :
  let request :=
    {| UploadRoute.file := Some Session.speech; UploadRoute.projectId := Some "p1";
       UploadRoute.type := Some (FileKind.name FileKind.audio) |} in
  let filename :=
    FileKind.name FileKind.audio +:+ "_" +:+ toString 0 +:+ "."
    +:+ UploadRoute.lastSegment (file_name Session.speech) in
  UploadRoute.POST Session.lowerCased Session.stores 0 request
  = (if Session.stores Session.speech "p1" filename then UploadRoute.success filename
     else UploadRoute.error 500 "Failed to upload file")
  ∧ (VideoUpload.onFileUpload Session.speech FileKind.audio
     ∈ effects (VideoUpload.handleFileUpload
                  (VideoUpload.fetchRoute Session.lowerCased Session.stores 0)
                  (Some "p1") Session.speech)
     ↔ Session.stores Session.speech "p1" filename = true).
Proof.
  apply (handleFileUpload_media Session.lowerCased Session.stores 0 "p1" Session.speech
           FileKind.audio).
  - reflexivity.
  - discriminate.
  - simpl. lia.
  - discriminate.
Defined.

(** The portrait of the session is refused. *)
Lemma handleFileUpload_image_refused_witness :
  VideoUpload.getFileType Session.portrait = Some FileKind.image
  ∧ (∀ projectId type,
       truthy projectId = true → truthy type = true →
       UploadRoute.POST Session.lowerCased Session.stores 0
         {| UploadRoute.file := Some Session.portrait;
            UploadRoute.projectId := projectId; UploadRoute.type := type |}
       = UploadRoute.error 400 "Invalid file type. Please upload a video or audio file.")
  ∧ ∀ uploaded kind,
      VideoUpload.onFileUpload uploaded kind
      ∉ effects (VideoUpload.handleFileUpload
                   (VideoUpload.fetchRoute Session.lowerCased Session.stores 0)
                   (Some "p1") Session.portrait).
Proof.
  apply (handleFileUpload_image_refused Session.lowerCased Session.stores 0 (Some "p1")
           Session.portrait); reflexivity.
Defined.

(** ** The envelope and the peak *)

Section EnvelopeMore.
Import Lipsync.
Implicit Types (data : Float32Array) (w i fuel : nat) (acc : list Q).

Lemma Qsum_upper (l : list Q) (peak : Q) :
  Forall (λ v, v <= peak)%Q l →
  (Qsum l <= inject_Z (Z.of_nat (length l)) * peak)%Q.
Proof.
  induction 1 as [|v l Hv _ IH].
  { change (0 <= 0 * peak)%Q. lra. }
  cbn [Qsum foldr length]. fold (Qsum l).
  rewrite Nat2Z.inj_succ, <- Z.add_1_r, inject_Z_plus.
  change (inject_Z 1) with 1%Q. lra.
Qed.

Lemma meanAbs_upper (f : nat → Q) (lo hi : nat) (peak : Q) :
  lo < hi → (∀ j, j < hi → (Qabs (f j) <= peak)%Q) → (meanAbs f lo hi <= peak)%Q.
Proof.
  intros Hlt Hpeak. unfold meanAbs.
  assert (0 < inject_Z (Z.of_nat (hi - lo)))%Q as Hn.
  { change 0%Q with (inject_Z 0). rewrite <- Zlt_Qlt. lia. }
  apply Qle_shift_div_r; [done|].
  rewrite Qmult_comm.
  pose proof (Qsum_upper (map (λ j, Qabs (f j)) (seq lo (hi - lo))) peak) as Hsum.
  rewrite length_map, length_seq in Hsum. apply Hsum.
  apply Forall_fmap, Forall_forall.
  intros j Hj%elem_of_seq. simpl. apply Hpeak. lia.
Qed.

Lemma ceilDiv_lt (n w k : nat) : 1 ≤ w → k < ceilDiv n w → k * w < n.
Proof.
  unfold ceilDiv. intros Hw Hk.
  pose proof (Nat.Div0.mul_div_le (n + w - 1) w) as Hmul. nia.
Qed.

(** The envelope never exceeds the peak: when every sample of channel 0
    is within [peak] in absolute value, so is every amplitude the analyzer
    returns (for a sample rate of at least 30 Hz, where it returns). *)
Theorem analyzeAudio_peak (buffer : AudioBuffer.t) (peak : Q) :
  (30 ≤ AudioBuffer.sampleRate buffer)%Z →
  (∀ j, j < AudioBuffer.length buffer →
        (Qabs (AudioBuffer.samples buffer 0 j) <= peak)%Q) →
  ∃ amplitudes, analyzeAudio buffer = Some amplitudes
    ∧ Forall (λ v, 0 <= v <= peak)%Q amplitudes.
Proof.
  intros Hrate Hpeak. eexists. split; [by apply analyzeAudio_returns|].
  pose proof (frameSizeOf_positive buffer Hrate) as Hw.
  set (w := frameSizeOf buffer) in *.
  unfold pushedFrom. apply Forall_fmap, Forall_forall.
  intros k Hk%elem_of_seq. cbn [AudioBuffer.getChannelData f32_length f32_at] in *.
  rewrite Nat.sub_0_r in Hk.
  assert (k * w < AudioBuffer.length buffer) as Hstart by (apply ceilDiv_lt; lia).
  cbv zeta. cbn [compose f32_length AudioBuffer.getChannelData]. simpl Nat.add.
  split.
  - apply Qdiv_nat_nonneg, sumAbs_nonneg.
  - rewrite amplitude_meanAbs. cbn [f32_at AudioBuffer.getChannelData].
    apply meanAbs_upper; [lia|]. intros j Hj. apply Hpeak. lia.
Qed.

End EnvelopeMore.

(** The peak bound at the square wave, whose samples are 0.5 and -0.5. *)
Lemma analyzeAudio_peak_witness :
  ∃ amplitudes, Lipsync.analyzeAudio Lipsync.squareWave = Some amplitudes
    ∧ Forall (λ v, 0 <= v <= 0.5)%Q amplitudes.
Proof.
  apply (analyzeAudio_peak Lipsync.squareWave 0.5).
  - simpl. lia.
  - intros j _. simpl. destruct (Nat.even j); by vm_compute.
Defined.

(** ** The precision of the encoder *)

Section Quantization.
Import DataView Wav.

Lemma truncate_near (y : Q) : (Qabs (inject_Z (truncate y) - y) < 1)%Q.
Proof.
  unfold truncate. apply Qabs_Qlt_condition.
  destruct (Qltb y 0).
  - pose proof (Qle_ceiling y) as Hle. pose proof (Qceiling_lt y) as Hlt.
    unfold Z.sub in Hlt. rewrite inject_Z_plus, inject_Z_opp in Hlt.
    change (inject_Z 1) with 1%Q in Hlt. lra.
  - pose proof (Qfloor_le y) as Hle. pose proof (Qlt_floor y) as Hlt.
    rewrite inject_Z_plus in Hlt. change (inject_Z 1) with 1%Q in Hlt. lra.
Qed.

Lemma truncate_monotone (x y : Q) : (x <= y)%Q → (truncate x ≤ truncate y)%Z.
Proof.
  intros Hxy. unfold truncate.
  destruct (Qltb x 0) eqn:Ex; [apply Qltb_lt in Ex | apply Qltb_ge in Ex];
    (destruct (Qltb y 0) eqn:Ey; [apply Qltb_lt in Ey | apply Qltb_ge in Ey]).
  - by apply Qceiling_resp_le.
  - assert (Qceiling x ≤ 0)%Z.
    { change 0%Z with (Qceiling 0). apply Qceiling_resp_le. lra. }
    assert (0 ≤ Qfloor y)%Z.
    { change 0%Z with (Qfloor 0). by apply Qfloor_resp_le. }
    lia.
  - lra.
  - by apply Qfloor_resp_le.
Qed.

Lemma clampUnit_monotone (x y : Q) : (x <= y)%Q → (clampUnit x <= clampUnit y)%Q.
Proof.
  intros Hxy. unfold clampUnit.
  destruct (Qltb x (-1)) eqn:E1; [apply Qltb_lt in E1 | apply Qltb_ge in E1];
    (destruct (Qltb y (-1)) eqn:E2; [apply Qltb_lt in E2 | apply Qltb_ge in E2]);
    try (destruct (Qltb 1 x) eqn:E3; [apply Qltb_lt in E3 | apply Qltb_ge in E3]);
    try (destruct (Qltb 1 y) eqn:E4; [apply Qltb_lt in E4 | apply Qltb_ge in E4]);
    lra.
Qed.

(** What a decoder gets back.  The 16-bit code stored for a sample [x] is
    never -32768; for [x] within [[-1, 1]] the code is within one unit of
    [32767 * x], so that reading it back as [code / 32767] is off by less
    than [1 / 32767]; a sample at or beyond full scale is stored as 32767
    or -32767; and a larger sample never gets a smaller code. *)
Theorem audioBufferToBlob_precision (buffer : AudioBuffer.t) (i channel : nat) :
  i < AudioBuffer.length buffer →
  channel < AudioBuffer.numberOfChannels buffer →
  ∃ blob, audioBufferToBlob buffer = Some blob
    ∧ ∀ code x,
        code = int16LE (sub (Blob.parts blob)
                          (44 + 2 * (i * AudioBuffer.numberOfChannels buffer + channel)) 2) →
        x = AudioBuffer.samples buffer channel i →
        (-32767 ≤ code ≤ 32767)%Z
        ∧ ((-1 <= x <= 1)%Q →
           (Qabs (inject_Z code / 32767 - x) < 1 / 32767)%Q)
        ∧ ((1 <= x)%Q → code = 32767%Z)
        ∧ ((x <= -1)%Q → code = (-32767)%Z)
        ∧ ∀ j other,
            j < AudioBuffer.length buffer →
            other < AudioBuffer.numberOfChannels buffer →
            (x <= AudioBuffer.samples buffer other j)%Q →
            (code ≤ int16LE (sub (Blob.parts blob)
                               (44 + 2 * (j * AudioBuffer.numberOfChannels buffer
                                          + other)) 2))%Z.
Proof.
  intros Hi Hc.
  exists {| Blob.parts := headerBytes buffer ++ bodyBytes buffer;
            Blob.type := "audio/wav" |}.
  split; [apply audioBufferToBlob_bytes|]. cbn [Blob.parts].
  intros code x -> ->.
  rewrite sub_sample by done.
  destruct (int16LE_sampleBytes buffer i channel) as [Hcode Hrange].
  rewrite Hcode in Hrange |- *.
  set (x := AudioBuffer.samples buffer channel i) in *.
  split; [exact Hrange|]. split_and!.
  - intros [Hlo Hhi].
    assert (clampUnit x = x) as ->.
    { unfold clampUnit.
      rewrite (proj2 (Qltb_ge x (-1))), (proj2 (Qltb_ge 1 x)) by done. done. }
    pose proof (truncate_near (x * 32767)) as Hnear.
    apply Qabs_Qlt_condition in Hnear. apply Qabs_Qlt_condition.
    set (code := inject_Z (truncate (x * 32767))) in *.
    assert (code / 32767 == code * (1 # 32767))%Q as -> by (by field).
    assert (1 / 32767 == 1 # 32767)%Q as -> by reflexivity.
    lra.
  - intros Hx.
    assert (clampUnit x * 32767 == 32767)%Q as Hfull.
    { unfold clampUnit.
      rewrite (proj2 (Qltb_ge x (-1))) by lra.
      destruct (Qltb 1 x) eqn:E; [ring|]. apply Qltb_ge in E.
      assert (x == 1)%Q as -> by lra. ring. }
    by rewrite (truncate_comp _ _ Hfull).
  - intros Hx.
    assert (clampUnit x * 32767 == -32767)%Q as Hfull.
    { unfold clampUnit.
      destruct (Qltb x (-1)) eqn:E; [ring|]. apply Qltb_ge in E.
      assert (x == -1)%Q as Hx1 by lra.
      rewrite (proj2 (Qltb_ge 1 x)) by lra. rewrite Hx1. ring. }
    by rewrite (truncate_comp _ _ Hfull).
  - intros j other Hj Hother Hle.
    rewrite sub_sample by done.
    destruct (int16LE_sampleBytes buffer j other) as [-> _].
    apply truncate_monotone.
    pose proof (clampUnit_monotone _ _ Hle). lra.
Qed.

End Quantization.

(** The precision at the first sample of the two stereo frames, 0.5. *)
Lemma audioBufferToBlob_precision_witness :
  ∃ blob, Wav.audioBufferToBlob Wav.twoFrames = Some blob
    ∧ ∀ code x,
        code = Wav.int16LE
                 (Wav.sub (Blob.parts blob)
                    (44 + 2 * (0 * AudioBuffer.numberOfChannels Wav.twoFrames + 0)) 2) →
        x = AudioBuffer.samples Wav.twoFrames 0 0 →
        (-32767 ≤ code ≤ 32767)%Z
        ∧ ((-1 <= x <= 1)%Q →
           (Qabs (inject_Z code / 32767 - x) < 1 / 32767)%Q)
        ∧ ((1 <= x)%Q → code = 32767%Z)
        ∧ ((x <= -1)%Q → code = (-32767)%Z)
        ∧ ∀ j other,
            j < AudioBuffer.length Wav.twoFrames →
            other < AudioBuffer.numberOfChannels Wav.twoFrames →
            (x <= AudioBuffer.samples Wav.twoFrames other j)%Q →
            (code ≤ Wav.int16LE
                      (Wav.sub (Blob.parts blob)
                         (44 + 2 * (j * AudioBuffer.numberOfChannels Wav.twoFrames
                                    + other)) 2))%Z.
Proof.
  apply (audioBufferToBlob_precision Wav.twoFrames 0 0); simpl; lia.
Defined.

(** ** The shape of the distortion curve *)

Section Curve.
Import VoiceChanger.

(** The curve as a function of the abscissa. *)
Lemma createDistortionCurve_at (amount : Q) (i : nat) :
  let x := (inject_Z (Z.of_nat i * 2) / inject_Z 44100 - 1)%Q in
  f32_at (createDistortionCurve amount) i
  = (((3 + amount) * x * 20 * (MathPI / 180)) / (MathPI + amount * Qabs x))%Q.
Proof. reflexivity. Qed.

Lemma MathPI_positive : (0 < MathPI)%Q.
Proof. reflexivity. Qed.

Lemma MathPI_bounds : (3.14 < MathPI)%Q ∧ (MathPI < 3.15)%Q.
Proof. split; reflexivity. Qed.

(** At the amounts of the slider the shaper stays under 0.34: its peak is
    [(3 + amount) * pi / (9 * (pi + amount))], at most 0.3372. *)
Lemma shaper_bound (amount x : Q) :
  (0 <= amount <= 1)%Q → (-1 <= x <= 1)%Q →
  (Qabs (((3 + amount) * x * 20 * (MathPI / 180)) / (MathPI + amount * Qabs x))
   <= 0.34)%Q.
Proof.
  intros [Hamount Hone] [Hlo Hhi].
  pose proof MathPI_bounds as [Hpi Hpi'].
  pose proof (Qabs_nonneg x) as Ha.
  assert (Qabs x <= 1)%Q as Ha1 by (apply Qabs_Qle_condition; split; lra).
  assert (- Qabs x <= x <= Qabs x)%Q as Hx.
  { split; [|apply Qle_Qabs].
    pose proof (Qle_Qabs (- x)) as H. rewrite Qabs_opp in H. lra. }
  set (a := Qabs x) in *. set (P := MathPI) in *.
  assert (0 <= amount * a <= 1)%Q as Hka by (split; nra).
  set (k := (amount * a)%Q) in *.
  assert (amount * x <= k)%Q as Hkx by (unfold k; nra).
  assert (- k <= amount * x)%Q as Hkx' by (unfold k; nra).
  assert (k * P <= 3.15 * k)%Q as HkP by nra.
  assert (amount * x * P <= k * P)%Q as HkxP by nra.
  assert (- (k * P) <= amount * x * P)%Q as HkxP' by nra.
  assert (x * P <= P)%Q as HxP by nra.
  assert (- P <= x * P)%Q as HxP' by nra.
  apply Qabs_Qle_condition. split.
  - apply Qle_shift_div_l; [lra|].
    assert ((3 + amount) * x * 20 * (P / 180)
            == (3 * (x * P) + amount * x * P) * (1 # 9))%Q as -> by (by field).
    clearbody k. lra.
  - apply Qle_shift_div_r; [lra|].
    assert ((3 + amount) * x * 20 * (P / 180)
            == (3 * (x * P) + amount * x * P) * (1 # 9))%Q as -> by (by field).
    clearbody k. lra.
Qed.

Lemma shaper_monotone (amount x y : Q) :
  (0 <= amount)%Q → (x <= y)%Q →
  (((3 + amount) * x * 20 * (MathPI / 180)) / (MathPI + amount * Qabs x)
   <= ((3 + amount) * y * 20 * (MathPI / 180)) / (MathPI + amount * Qabs y))%Q.
Proof.
  intros Hamount Hxy.
  pose proof MathPI_positive as Hpi.
  pose proof (Qabs_nonneg x) as Hax. pose proof (Qabs_nonneg y) as Hay.
  assert (x * Qabs y <= y * Qabs x)%Q as Hcross.
  { destruct (Qlt_le_dec x 0) as [Hx|Hx]; destruct (Qlt_le_dec y 0) as [Hy|Hy].
    - rewrite (Qabs_neg x), (Qabs_neg y) by lra. lra.
    - rewrite (Qabs_neg x), (Qabs_pos y) by lra. nra.
    - lra.
    - rewrite (Qabs_pos x), (Qabs_pos y) by lra. lra. }
  set (a := Qabs x) in *. set (b := Qabs y) in *. set (P := MathPI) in *.
  assert (0 <= amount * a)%Q as Hka by nra.
  assert (0 <= amount * b)%Q as Hkb by nra.
  apply Qle_shift_div_r; [lra|].
  assert ((3 + amount) * y * 20 * (P / 180) / (P + amount * b) * (P + amount * a)
          == ((3 + amount) * y * 20 * (P / 180) * (P + amount * a)) / (P + amount * b))%Q
    as -> by (field; lra).
  apply Qle_shift_div_l; [lra|].
  assert ((3 + amount) * x * 20 * (P / 180) * (P + amount * b)
          == (3 + amount) * (1 # 9) * P * (x * P + amount * (x * b)))%Q
    as -> by (by field).
  assert ((3 + amount) * y * 20 * (P / 180) * (P + amount * a)
          == (3 + amount) * (1 # 9) * P * (y * P + amount * (y * a)))%Q
    as -> by (by field).
  assert (x * P + amount * (x * b) <= y * P + amount * (y * a))%Q as Hinner by nra.
  assert (0 <= (3 + amount) * (1 # 9) * P)%Q as Hfactor by nra.
  set (f := ((3 + amount) * (1 # 9) * P)%Q) in *. nra.
Qed.

(** The distortion is gentle.  At the amounts of the slider, from 0 to 1,
    the wave-shaper table rises with the index over its 44100 entries (a
    louder input never comes out lower), and no entry exceeds 0.34 in
    absolute value: the shaper keeps its output at about a third of full
    scale.  Neither depends on the last bits: two entries next to each
    other differ by more than [10^-5], and the peak is below 0.3372. *)
Theorem createDistortionCurve_gentle (amount : Q) (i j : nat) :
  (0 <= amount <= 1)%Q →
  i ≤ j → (Z.of_nat j < 44100)%Z →
  let curve := createDistortionCurve amount in
  (f32_at curve i <= f32_at curve j)%Q
  ∧ (Qabs (f32_at curve i) <= 0.34)%Q.
Proof.
  intros Hamount Hij Hj curve. unfold curve.
  rewrite !createDistortionCurve_at. cbv zeta.
  set (x := (inject_Z (Z.of_nat i * 2) / inject_Z 44100 - 1)%Q).
  set (y := (inject_Z (Z.of_nat j * 2) / inject_Z 44100 - 1)%Q).
  assert (∀ n : nat, (Z.of_nat n < 44100)%Z →
            (-1 <= inject_Z (Z.of_nat n * 2) / inject_Z 44100 - 1 <= 1)%Q) as Hrange.
  { intros n Hn.
    assert (0 <= inject_Z (Z.of_nat n * 2) / inject_Z 44100 <= 2)%Q; [|lra].
    split.
    - apply Qle_shift_div_l; [reflexivity|]. rewrite Qmult_0_l.
      change 0%Q with (inject_Z 0). rewrite <- Zle_Qle. lia.
    - apply Qle_shift_div_r; [reflexivity|].
      change (2 * inject_Z 44100)%Q with (inject_Z 88200). rewrite <- Zle_Qle. lia. }
  assert (x <= y)%Q as Hxy.
  { unfold x, y.
    assert (inject_Z (Z.of_nat i * 2) / inject_Z 44100
            <= inject_Z (Z.of_nat j * 2) / inject_Z 44100)%Q; [|lra].
    apply Qmult_le_compat_r; [|by vm_compute].
    rewrite <- Zle_Qle. lia. }
  pose proof (Hrange i ltac:(lia)) as Hx. fold x in Hx.
  split; [apply shaper_monotone; [apply Hamount | done]|].
  by apply shaper_bound.
Qed.

End Curve.

(** The curve of the robot voice, amount 0.5, at the entries 100 and
    40000. *)
Lemma createDistortionCurve_gentle_witness :
  let curve := VoiceChanger.createDistortionCurve 0.5 in
  (f32_at curve 100 <= f32_at curve (Z.to_nat 40000))%Q
  ∧ (Qabs (f32_at curve 100) <= 0.34)%Q.
Proof.
  apply (createDistortionCurve_gentle 0.5 100 (Z.to_nat 40000)).
  - split; by vm_compute.
  - apply Nat2Z.inj_le. rewrite Z2Nat.id by lia. lia.
  - rewrite Z2Nat.id by lia. lia.
Defined.
